(** * MultiProcess kernel core: frame pool, page table, VM pool, scheduler

    A shallow embedding of the memory and scheduling core of the kernel
    (cont_frame_pool.C, page_table.C, vm_pool.C, scheduler.C) together with
    the properties established about it.

    Conventions.
    - [unsigned long] and [unsigned int] are 32 bits wide on the i386 target;
      they are modelled as [Z] with the wrap-around [u32] written where the
      C arithmetic can wrap.  [unsigned char] is [Z] with [u8].
    - Raw memory reached through a pointer is a function from offsets to
      stored values.
    - Console output is not modelled, except where an error code is the
      only observable difference between two paths. *)

From Stdlib Require Import ZArith Lia Bool List.
From stdpp Require Import base option list gmap.

Local Open Scope Z_scope.

(** ** Machine words *)

Module Word.

Definition u8 (x : Z) : Z := x mod 2 ^ 8.
Definition u32 (x : Z) : Z := x mod 2 ^ 32.

(** C truth value of an integer expression. *)
Definition truthy (x : Z) : bool := negb (x =? 0).

(** [p[i] = v] on a raw memory. *)
Definition store (m : Z -> Z) (i v : Z) : Z -> Z :=
  fun j => if j =? i then v else m j.

End Word.
Import Word.

(** ** Contiguous frame pool (cont_frame_pool.C) *)

Module CFP.

Inductive FrameState : Type := Free | Used | HoS.

Definition FrameState_eqb (a b : FrameState) : bool :=
  match a, b with
  | Free, Free | Used, Used | HoS, HoS => true
  | _, _ => false
  end.

(** The two bits of a state in the bitmap: the lower one says that the
    frame is allocated, the upper one that it heads a sequence. *)
Definition state_bit0 (st : FrameState) : bool :=
  match st with Free => false | _ => true end.

Definition state_bit1 (st : FrameState) : bool :=
  match st with HoS => true | _ => false end.

Definition state_of_bits (b0 b1 : bool) : FrameState :=
  if negb b0 then Free else if b1 then HoS else Used.

Definition BYTE : Z := 8.
Definition BYTE_SHIFT : Z := 3.

(** Modelled from the spec: [FRAME_SIZE] is declared in cont_frame_pool.H,
    which is not part of the sources; the spec fixes a frame at 4096
    bytes. *)
Definition FRAME_SIZE : Z := 4096.

(** Modelled from the spec: [INFO_FRAME_CAPACITY] is declared in
    cont_frame_pool.H; the spec gives it as [PAGE_SIZE * 4], one frame of
    bitmap covering four frames per byte. *)
Definition INFO_FRAME_CAPACITY : Z := FRAME_SIZE * 4.

Record ContFramePool : Type := mkPool {
  base_frame_no : Z;
  nframes : Z;
  nFreeFrames : Z;
  info_frame_no : Z;
  (** the memory the [bitmap] pointer designates, by byte offset *)
  bitmap : Z -> Z
}.

Definition with_bitmap (p : ContFramePool) (bm : Z -> Z) : ContFramePool :=
  mkPool (base_frame_no p) (nframes p) (nFreeFrames p) (info_frame_no p) bm.

Definition with_nFreeFrames (p : ContFramePool) (n : Z) : ContFramePool :=
  mkPool (base_frame_no p) (nframes p) n (info_frame_no p) (bitmap p).

Definition needed_info_frames (_n_frames : Z) : Z :=
  _n_frames / INFO_FRAME_CAPACITY
  + (if _n_frames mod INFO_FRAME_CAPACITY >? 0 then 1 else 0).

(** [get_state] on the raw bitmap memory. *)
Definition get_state_mem (bm : Z -> Z) (_frame_no : Z) : FrameState :=
  let frame_no := u32 (_frame_no * 2) in
  let bit_slot := Z.shiftr frame_no BYTE_SHIFT in
  let bit_mask_1 := u8 (Z.shiftl 1 (Z.land frame_no (BYTE - 1))) in
  let bit_mask_2 := u8 (Z.shiftl bit_mask_1 1) in
  if negb (truthy (Z.land (bm bit_slot) bit_mask_1)) then Free
  else if truthy (Z.land (bm bit_slot) bit_mask_2) then HoS else Used.

Definition get_state (p : ContFramePool) (_frame_no : Z) : FrameState :=
  get_state_mem (bitmap p) _frame_no.

(** [set_state] on the raw bitmap memory. *)
Definition set_state_mem (bm : Z -> Z) (_frame_no : Z) (_state : FrameState)
  : Z -> Z :=
  let frame_no := u32 (_frame_no * 2) in
  let bit_slot := Z.shiftr frame_no BYTE_SHIFT in
  let bit_shift := Z.land frame_no (BYTE - 1) in
  let zeroed := u8 (Z.land (bm bit_slot) (Z.lnot (Z.shiftl 3 bit_shift))) in
  let byte :=
    match _state with
    | Free => zeroed
    | Used => u8 (Z.lor zeroed (Z.shiftl 1 bit_shift))
    | HoS => u8 (Z.lor zeroed (Z.shiftl 3 bit_shift))
    end in
  store bm bit_slot byte.

Definition set_state (p : ContFramePool) (_frame_no : Z) (_state : FrameState)
  : ContFramePool :=
  with_bitmap p (set_state_mem (bitmap p) _frame_no _state).

(** [for (fno = from; ...; fno++) set_state(fno, st)], [count] iterations. *)
Fixpoint set_states (count : nat) (fno : Z) (st : FrameState) (bm : Z -> Z)
  : Z -> Z :=
  match count with
  | O => bm
  | S k => set_states k (fno + 1) st (set_state_mem bm fno st)
  end.

(** The constructor, applied to the content [m0] that the memory at the
    bitmap address holds beforehand.  The registration on the global list
    is [construct] below. *)
Definition init (m0 : Z -> Z) (_base_frame_no _n_frames _info_frame_no : Z)
  : ContFramePool :=
  let n_info_frames := needed_info_frames _n_frames in
  let all_free := set_states (Z.to_nat _n_frames) 0 Free m0 in
  if _info_frame_no =? 0 then
    let marked := set_states (Z.to_nat n_info_frames) 0 Used all_free in
    mkPool _base_frame_no _n_frames (u32 (_n_frames - n_info_frames))
           _info_frame_no (set_state_mem marked 0 HoS)
  else
    mkPool _base_frame_no _n_frames _n_frames _info_frame_no all_free.

(** [next = head; head = this]: the registry is the list of pools reached
    from [ContFramePool::head], most recently constructed first. *)
Definition construct (m0 : Z -> Z) (_base_frame_no _n_frames _info_frame_no : Z)
           (head : list ContFramePool) : list ContFramePool :=
  init m0 _base_frame_no _n_frames _info_frame_no :: head.

(** The scan of [get_frames]: [count] iterations are left, [fno] is the
    loop variable and [free] the running counter.  Returns the final
    [(free, start)]; [start] stays 0 when the loop ends without [break]. *)
Fixpoint scan (p : ContFramePool) (_n_frames : Z) (count : nat) (fno free : Z)
  : Z * Z :=
  match count with
  | O => (free, 0)
  | S k =>
    let free' :=
      if FrameState_eqb (get_state p fno) Free then u32 (free + 1) else 0 in
    if free' =? _n_frames then (free', u32 (fno - free' + 1))
    else scan p _n_frames k (fno + 1) free'
  end.

Definition get_frames (p : ContFramePool) (_n_frames : Z) : ContFramePool * Z :=
  if _n_frames >? nFreeFrames p then (p, 0)
  else
    let '(free, start) := scan p _n_frames (Z.to_nat (nframes p)) 0 0 in
    if negb (free =? _n_frames) then (p, 0)
    else
      let count := Z.to_nat (u32 (start + _n_frames) - start) in
      let bm := set_states count start Used (bitmap p) in
      let bm := set_state_mem bm start HoS in
      (mkPool (base_frame_no p) (nframes p) (u32 (nFreeFrames p - _n_frames))
              (info_frame_no p) bm,
       u32 (start + base_frame_no p)).

(** The loop of [mark_inaccessible]: [fno] runs over absolute frame
    numbers and each is made pool-relative before [set_state]. *)
Fixpoint mark_loop (this_base : Z) (count : nat) (fno : Z) (bm : Z -> Z)
  : Z -> Z :=
  match count with
  | O => bm
  | S k =>
    mark_loop this_base k (fno + 1)
              (set_state_mem bm (u32 (fno - this_base)) Used)
  end.

(** The last statement is [set_state(_base_frame_no, FrameState::HoS)], on
    the frame number as passed in; [nFreeFrames] is not assigned. *)
Definition mark_inaccessible (p : ContFramePool) (_base_frame_no _n_frames : Z)
  : ContFramePool :=
  let count := Z.to_nat (u32 (_base_frame_no + _n_frames) - _base_frame_no) in
  let bm := mark_loop (base_frame_no p) count _base_frame_no (bitmap p) in
  with_bitmap p (set_state_mem bm _base_frame_no HoS).

(** The [do ... while] of [_release_frames].  [reads] records, in order,
    the frame indices at which [get_state] has been evaluated.  The state
    test comes first in the loop condition and the bound test second, as
    in the source.  [None] only when the fuel runs out. *)
Fixpoint release_loop (fuel : nat) (p : ContFramePool) (fno : Z)
         (reads : list Z) : option (ContFramePool * list Z) :=
  match fuel with
  | O => None
  | S k =>
    let p1 := set_state p fno Free in
    let fno1 := u32 (fno + 1) in
    let p2 := with_nFreeFrames p1 (u32 (nFreeFrames p1 + 1)) in
    let reads1 := reads ++ [fno1] in
    if FrameState_eqb (get_state p2 fno1) Used && (fno1 <? nframes p2)
    then release_loop k p2 fno1 reads1
    else Some (p2, reads1)
  end.

Definition _release_frames_traced (p : ContFramePool) (_first_frame_no : Z)
  : option (ContFramePool * list Z) :=
  let fno := _first_frame_no in
  if negb (FrameState_eqb (get_state p fno) HoS) then Some (p, [fno])
  else release_loop (S (Z.to_nat (nframes p))) p fno [fno].

Definition _release_frames (p : ContFramePool) (_first_frame_no : Z)
  : option ContFramePool :=
  fst <$> _release_frames_traced p _first_frame_no.

(** The static [release_frames]: walk the registry from [head]. *)
Fixpoint release_frames (cursor : list ContFramePool) (_first_frame_no : Z)
  : option (list ContFramePool) :=
  match cursor with
  | [] => Some []
  | p :: next =>
    let adjusted_fno := u32 (_first_frame_no - base_frame_no p) in
    if adjusted_fno <? nframes p then
      p' ← _release_frames p adjusted_fno; Some (p' :: next)
    else
      next' ← release_frames next _first_frame_no; Some (p :: next')
  end.

(** The range test of [release_frames], as a proposition. *)
Definition in_range (p : ContFramePool) (_first_frame_no : Z) : Prop :=
  u32 (_first_frame_no - base_frame_no p) < nframes p.

(** A registry of pools whose [nframes] is an [unsigned long]. *)
Definition pools_ok (ps : list ContFramePool) : Prop :=
  Forall (fun q => nframes q < 2 ^ 32) ps.

(** Number of [Free] frames among the first [count] frames. *)
Fixpoint count_free (p : ContFramePool) (count : nat) : Z :=
  match count with
  | O => 0
  | S k =>
    count_free p k
    + (if FrameState_eqb (get_state p (Z.of_nat k)) Free then 1 else 0)
  end.

(** The invariants of a pool: its frame numbers are frame numbers of the
    32-bit machine (physical address / 4096); [nFreeFrames] counts the
    [Free] frames; a [Used] frame continues a sequence, so it is never the
    first frame and never follows a [Free] one. *)
Record pool_inv (p : ContFramePool) : Prop := mkPoolInv {
  inv_base : 0 <= base_frame_no p;
  inv_nframes : 0 <= nframes p;
  inv_top : base_frame_no p + nframes p <= 2 ^ 20;
  inv_count : nFreeFrames p = count_free p (Z.to_nat (nframes p));
  inv_sequence :
    forall f, 0 <= f < nframes p -> get_state p f = Used ->
              0 < f /\ get_state p (f - 1) <> Free
}.

(** Pool states that the interface produces from a constructed pool. *)
Inductive reachable : ContFramePool -> Prop :=
| reach_init m0 b n i :
    0 <= b -> 0 <= n -> b + n <= 2 ^ 20 -> 0 <= i < 2 ^ 20 ->
    reachable (init m0 b n i)
| reach_get_frames p n :
    reachable p -> 0 <= n < 2 ^ 32 -> reachable (fst (get_frames p n))
| reach_mark_inaccessible p b n :
    reachable p -> 0 <= b < 2 ^ 32 -> 0 <= n < 2 ^ 32 ->
    reachable (mark_inaccessible p b n)
| reach_release_frames p p' f :
    reachable p -> 0 <= f < nframes p -> _release_frames p f = Some p' ->
    reachable p'.

End CFP.

(** ** Page table (page_table.C, in its two variants) *)

Module PT.

(** The sources hold two variants of the kernel: one in which every thread
    shares the kernel page table, and one in which a thread owns its page
    table.  The two [page_table.C] differ in [load] and in how [free_page]
    flushes the TLB. *)
Inductive Variant : Type := SinglePT | MultiPT.

(** Modelled from the spec: [PAGE_SIZE] is declared in page_table.H and
    machine.H, which are not part of the sources; the spec gives 4096. *)
Definition PAGE_SIZE : Z := 4096.

(** Modelled from the spec: [KERNEL_MEM_LIMIT] is declared in page_table.H;
    the spec places the recursive window at [0x3FC00000], that is 4 MiB
    below a limit of 1 GiB. *)
Definition KERNEL_MEM_LIMIT : Z := 2 ^ 30.

(** The part of a [PageTable] object that [load] and [free_page] use. *)
Record PageTable : Type := mkPT { page_directory : Z }.

Record Machine : Type := mkMachine {
  (** 32-bit words of the current address space, by virtual address *)
  mem : Z -> Z;
  cr3 : Z;
  (** number of [write_cr3] executed so far; each one flushes the TLB *)
  tlb_flushes : nat;
  (** the pools reached from [ContFramePool::head] *)
  frame_pools : list CFP.ContFramePool;
  current_page_table : option PageTable
}.

Definition read_cr3 (s : Machine) : Z := cr3 s.

Definition write_cr3 (v : Z) (s : Machine) : Machine :=
  mkMachine (mem s) v (S (tlb_flushes s)) (frame_pools s)
            (current_page_table s).

Definition PTE_address (addr : Z) : Z :=
  Z.land (Z.lor (KERNEL_MEM_LIMIT - 4 * Z.shiftl 1 20) (Z.shiftr addr 10))
         (u32 (Z.lnot 3)).

Definition load (v : Variant) (this : PageTable) (s : Machine) : Machine :=
  let s1 := mkMachine (mem s) (cr3 s) (tlb_flushes s) (frame_pools s)
                      (Some this) in
  match v with
  | SinglePT => write_cr3 (page_directory this) s1
  | MultiPT =>
    if negb (read_cr3 s1 =? page_directory this)
    then write_cr3 (page_directory this) s1 else s1
  end.

(** [free_page].  [None] only when [release_frames] has no result. *)
Definition free_page (v : Variant) (this : PageTable) (_page_no : Z)
           (s : Machine) : option Machine :=
  let addr := PTE_address _page_no in
  if Z.land (mem s addr) 1 =? 0 then Some s
  else
    let frame_no := mem s addr / PAGE_SIZE in
    pools ← CFP.release_frames (frame_pools s) frame_no;
    let s1 := mkMachine (store (mem s) addr (Z.lor 0 2)) (cr3 s)
                        (tlb_flushes s) pools (current_page_table s) in
    Some match v with
         | SinglePT => load SinglePT this s1
         | MultiPT => write_cr3 (page_directory this) s1
         end.

End PT.

(** ** Virtual-memory pool (vm_pool.C) *)

Module VMP.

Module Region.
Record t : Type := mk { base_address : Z; size : Z }.
End Region.

(** The codes that vm_pool.C logs; their integer values are declared in
    vm_pool.H, which is not part of the sources. *)
Inductive Error : Type :=
| INVALID_SIZE | NO_FREE_REGION | NO_ALLOC_REGION | OOB_ADDR | INVALID_ADDR.

Record VMPool : Type := mkVMPool {
  base_address : Z;
  size : Z;
  page_table : PT.PageTable;
  (** the [MAX_REGIONS] entries behind the [alloc] pointer *)
  alloc : list Region.t;
  (** the [MAX_REGIONS] entries behind the [free] pointer *)
  free : list Region.t
}.

(** [for (idx = 0; idx < MAX_REGIONS; idx++) if (P(arr[idx])) goto found;]
    over an array of [MAX_REGIONS] entries, counting from [idx]. *)
Fixpoint find_slot (P : Region.t -> bool) (arr : list Region.t) (idx : nat)
  : option nat :=
  match arr with
  | [] => None
  | r :: rest => if P r then Some idx else find_slot P rest (S idx)
  end.

Definition region_at (arr : list Region.t) (idx : nat) : Region.t :=
  default (Region.mk 0 0) (arr !! idx).

Section Pool.

(** [MAX_REGIONS] is declared in vm_pool.H, which is not part of the
    sources, and the spec does not give its value. *)
Variable MAX_REGIONS : nat.

(** The two variants of the kernel share vm_pool.C. *)
Variable variant : PT.Variant.

(** The constructor, after [register_pool]; [None] when
    [assert(size > 2 * PAGE_SIZE)] fails. *)
Definition construct (_base_address _size : Z) (_page_table : PT.PageTable)
  : option VMPool :=
  if negb (_size >? 2 * PT.PAGE_SIZE) then None
  else
    let zeroed := replicate MAX_REGIONS (Region.mk 0 0) in
    Some (mkVMPool _base_address _size _page_table
            (<[0%nat := Region.mk _base_address (PT.PAGE_SIZE * 2)]> zeroed)
            (<[0%nat := Region.mk (u32 (_base_address + PT.PAGE_SIZE * 2))
                                  (u32 (_size - 2 * PT.PAGE_SIZE))]> zeroed)).

(** [allocate]: the pool afterwards, the returned address, and the error
    code written to the console on the error path. *)
Definition allocate (vp : VMPool) (_size : Z) : VMPool * Z * option Error :=
  if (_size =? 0) || (_size >? u32 (size vp - 2 * PT.PAGE_SIZE))
  then (vp, 0, Some INVALID_SIZE)
  else
    let adj_size :=
      u32 (u32 (_size + PT.PAGE_SIZE - 1) / PT.PAGE_SIZE * PT.PAGE_SIZE) in
    match find_slot (fun r => Region.size r >=? adj_size) (free vp) 0 with
    | None => (vp, 0, Some NO_FREE_REGION)
    | Some idx =>
      let new_addr := Region.base_address (region_at (free vp) idx) in
      match find_slot (fun r => Region.size r =? 0) (alloc vp) 0 with
      | None => (vp, 0, Some NO_ALLOC_REGION)
      | Some i =>
        let f := region_at (free vp) idx in
        (mkVMPool (base_address vp) (size vp) (page_table vp)
           (<[i := Region.mk new_addr adj_size]> (alloc vp))
           (<[idx := Region.mk (u32 (Region.base_address f + adj_size))
                               (u32 (Region.size f - adj_size))]> (free vp)),
         new_addr, None)
      end
    end.

(** [for (addr = from; addr < bound; addr += PAGE_SIZE) free_page(addr)].
    [None] when the fuel runs out or [free_page] has no result. *)
Fixpoint free_pages (fuel : nat) (pt : PT.PageTable) (addr bound : Z)
         (s : PT.Machine) : option PT.Machine :=
  if addr <? bound then
    match fuel with
    | O => None
    | S k =>
      s' ← PT.free_page variant pt addr s;
      free_pages k pt (u32 (addr + PT.PAGE_SIZE)) bound s'
    end
  else Some s.

Definition release (vp : VMPool) (_start_address : Z) (s : PT.Machine)
  : option (VMPool * PT.Machine * option Error) :=
  if (_start_address <? base_address vp)
     || (_start_address >=? u32 (base_address vp + size vp))
  then Some (vp, s, Some OOB_ADDR)
  else
    match find_slot (fun r => (_start_address =? Region.base_address r)
                              && (Region.size r >? 0)) (alloc vp) 0 with
    | None => Some (vp, s, Some INVALID_ADDR)
    | Some idx =>
      let region_size := Region.size (region_at (alloc vp) idx) in
      match find_slot (fun r => Region.size r =? 0) (free vp) 0 with
      | None => Some (vp, s, Some NO_FREE_REGION)
      | Some i =>
        let a := region_at (alloc vp) idx in
        let vp' :=
          mkVMPool (base_address vp) (size vp) (page_table vp)
            (<[idx := Region.mk (Region.base_address a) 0]> (alloc vp))
            (<[i := Region.mk _start_address region_size]> (free vp)) in
        let bound := u32 (_start_address + region_size) in
        let fuel := S (Z.to_nat ((bound - _start_address) / PT.PAGE_SIZE)) in
        s' ← free_pages fuel (page_table vp) _start_address bound s;
        Some (vp', s', None)
      end
    end.

Definition is_legitimate (vp : VMPool) (_address : Z) : bool :=
  if (_address >=? base_address vp)
     && (_address <? u32 (base_address vp + 2 * PT.PAGE_SIZE))
  then true
  else
    existsb (fun r =>
               let e := u32 (Region.base_address r + Region.size r) in
               (_address >=? Region.base_address r) && (_address <? e))
            (alloc vp).

(** The call sequence [allocate(1); allocate(0x2000); release(0x20002000);
    allocate(0x1000)] on a pool constructed with base [0x20000000] and size
    256 MiB: the addresses that the three [allocate] return. *)
Definition alloc_release_alloc (_page_table : PT.PageTable) (s : PT.Machine)
  : option (Z * Z * Z) :=
  vp0 ← construct 0x20000000 (256 * 2 ^ 20) _page_table;
  let '(vp1, a1, _) := allocate vp0 1 in
  let '(vp2, a2, _) := allocate vp1 0x2000 in
  '(vp3, _, _) ← release vp2 0x20002000 s;
  let '(_, a3, _) := allocate vp3 0x1000 in
  Some (a1, a2, a3).

End Pool.

(** [x] rounded up to a multiple of the page size, in unbounded
    arithmetic. *)
Definition round_up (x : Z) : Z :=
  (x + PT.PAGE_SIZE - 1) / PT.PAGE_SIZE * PT.PAGE_SIZE.

End VMP.

(** ** Scheduler (scheduler.C, in its two variants) *)

Module Sched.

(** A [Thread *] is [None] for [NULL] and otherwise the address of a TCB. *)
Abbreviation ptr := (option nat).

(** The TCB fields that the scheduler reads and writes. *)
Record Thread : Type := mkThread { next : ptr; cargo : ptr }.

Record Queue : Type := mkQueue { head : ptr; tail : ptr }.

Record Scheduler : Type := mkSched {
  (** the TCBs that have been constructed and not destroyed *)
  threads : gmap nat Thread;
  queue : Queue;
  current_thread : ptr;
  (** [termination_thread], called [control_thread] in the other variant *)
  termination_thread : nat;
  interrupts_enabled : bool;
  running : bool
}.

Definition with_threads (s : Scheduler) (t : gmap nat Thread) : Scheduler :=
  mkSched t (queue s) (current_thread s) (termination_thread s)
          (interrupts_enabled s) (running s).

Definition with_queue (s : Scheduler) (q : Queue) : Scheduler :=
  mkSched (threads s) q (current_thread s) (termination_thread s)
          (interrupts_enabled s) (running s).

Definition with_interrupts (s : Scheduler) (b : bool) : Scheduler :=
  mkSched (threads s) (queue s) (current_thread s) (termination_thread s)
          b (running s).

(** [if (Machine::interrupts_enabled()) Machine::disable_interrupts();] *)
Definition mask (s : Scheduler) : Scheduler := with_interrupts s false.

(** [if (!Machine::interrupts_enabled()) Machine::enable_interrupts();] *)
Definition unmask (s : Scheduler) : Scheduler := with_interrupts s true.

Definition set_next (t : Thread) (n : ptr) : Thread := mkThread n (cargo t).
Definition SetCargo (t : Thread) (c : ptr) : Thread := mkThread (next t) c.

(** Operations return [None] when the source dereferences or deletes a
    pointer that designates no live TCB, or when a loop does not end. *)

Definition enqueue (_thread : ptr) (s : Scheduler) : option Scheduler :=
  match tail (queue s) with
  | None => Some (with_queue s (mkQueue _thread _thread))
  | Some tl =>
    th ← threads s !! tl;
    Some (with_queue
            (with_threads s (<[tl := set_next th _thread]> (threads s)))
            (mkQueue (head (queue s)) _thread))
  end.

Definition dequeue (s : Scheduler) : option (ptr * Scheduler) :=
  match head (queue s) with
  | None => Some (None, s)
  | Some h =>
    th ← threads s !! h;
    let q := mkQueue (next th) (tail (queue s)) in
    let q := match head q with
             | None => mkQueue (head q) None
             | Some _ => q
             end in
    Some (Some h, with_queue s q)
  end.

(** [Thread::dispatch_to]: the context switch makes [_thread] the current
    thread; the thread switched to unmasks interrupts as its first action
    (in [thread_start], or on its return into [yield]). *)
Definition dispatch_to (_thread : nat) (s : Scheduler) : Scheduler :=
  mkSched (threads s) (queue s) (Some _thread) (termination_thread s)
          true true.

Definition yield (s : Scheduler) : option Scheduler :=
  let s := mask s in
  '(thread, s) ← dequeue s;
  match thread with
  | Some t => Some (dispatch_to t s)
  | None => Some (unmask s)
  end.

Definition resume (_thread : ptr) (s : Scheduler) : option Scheduler :=
  s' ← enqueue _thread (mask s); Some (unmask s').

Definition add (_thread : ptr) (s : Scheduler) : option Scheduler :=
  resume _thread s.

(** [delete thread]: the TCB stops being live. *)
Definition destroy (t : nat) (s : Scheduler) : option Scheduler :=
  _ ← threads s !! t; Some (with_threads s (delete t (threads s))).

(** One round of the loop of the termination thread. *)
Definition termination_thread_func (s : Scheduler) : option Scheduler :=
  me ← current_thread s;
  th ← threads s !! me;
  thread ← cargo th;
  s' ← destroy thread s;
  yield s'.

(** [while (prev && prev->next != _thread) prev = prev->next;] and the
    value of [prev] when the loop ends. *)
Fixpoint find_prev (fuel : nat) (thr : gmap nat Thread) (prev : ptr)
         (_thread : nat) : option ptr :=
  match prev with
  | None => Some None
  | Some pv =>
    th ← thr !! pv;
    if decide (next th = Some _thread) then Some (Some pv)
    else match fuel with
         | O => None
         | S k => find_prev k thr (next th) _thread
         end
  end.

(** [terminate(Thread *& _thread)]: the value of the caller's pointer
    afterwards, and the scheduler.  The two variants differ only in the
    statements after [dispatch_to(termination_thread)], to which control
    does not return. *)
Definition terminate (_thread : ptr) (s : Scheduler)
  : option (ptr * Scheduler) :=
  let s := mask s in
  match _thread with
  | None => Some (None, s)
  | Some t =>
    if decide (_thread = current_thread s) then
      tt ← threads s !! termination_thread s;
      let thr := <[termination_thread s := SetCargo tt _thread]> (threads s) in
      Some (_thread, dispatch_to (termination_thread s) (with_threads s thr))
    else if decide (head (queue s) = tail (queue s)) then
      if decide (head (queue s) = _thread) then
        s' ← destroy t s;
        Some (None, with_queue s' (mkQueue None None))
      else Some (_thread, s)
    else
      prev ← find_prev (base.size (threads s)) (threads s) (head (queue s)) t;
      match prev with
      | None => Some (_thread, s)
      | Some pv =>
        pth ← threads s !! pv;
        tth ← threads s !! t;
        let s1 := with_threads s (<[pv := set_next pth (next tth)]> (threads s)) in
        let s2 := if decide (_thread = tail (queue s1))
                  then with_queue s1 (mkQueue (head (queue s1)) (Some pv))
                  else s1 in
        s3 ← destroy t s2;
        Some (None, unmask s3)
      end
  end.

(** The TCBs named by [l] are live and linked through [next] in the order
    of [l], the last one with a [NULL] link. *)
Definition chain (thr : gmap nat Thread) (l : list nat) : Prop :=
  forall i x, l !! i = Some x ->
              exists th, thr !! x = Some th /\ next th = l !! S i.

(** The ready queue holds exactly the threads of [l], first to last. *)
Record queue_is (s : Scheduler) (l : list nat) : Prop := mkQueueIs {
  qi_nodup : NoDup l;
  qi_head : head (queue s) = l !! 0%nat;
  qi_tail : tail (queue s) = last l;
  qi_chain : chain (threads s) l
}.

End Sched.

(** ** Users of a frame pool *)

Module Frames.
Import CFP.

(** The frame numbers of a pool are frame numbers of the 32-bit machine
    (physical address / 4096) and [nFreeFrames] holds an
    [unsigned long]. *)
Definition within_machine (p : ContFramePool) : Prop :=
  0 <= base_frame_no p /\ 0 <= nframes p
  /\ base_frame_no p + nframes p <= 2 ^ 20
  /\ 0 <= nFreeFrames p < 2 ^ 32.

(** A sequence of [get_frames] calls on one pool, as the fault handler and
    the page-table constructor make them: the pool afterwards and the frame
    number that each call returned. *)
Fixpoint get_frames_seq (p : ContFramePool) (ns : list Z)
  : ContFramePool * list Z :=
  match ns with
  | [] => (p, [])
  | n :: ns' =>
    let r := get_frames p n in
    let rest := get_frames_seq (fst r) ns' in
    (fst rest, snd r :: snd rest)
  end.

End Frames.

(** ** Page-fault handler (page_table.C, the same in both variants) *)

Module Fault.

(** Modelled from the spec: [ENTRIES_PER_PAGE] is declared in page_table.H,
    which is not part of the sources; the spec gives a page table 1024
    entries. *)
Definition ENTRIES_PER_PAGE : nat := 1024.

(** The codes that [handle_fault] logs; their integer values are declared
    in page_table.H. *)
Inductive Error : Type := PROTECTION_FAULT | INVALID_FAULT.

Definition with_mem (s : PT.Machine) (m : Z -> Z) : PT.Machine :=
  PT.mkMachine m (PT.cr3 s) (PT.tlb_flushes s) (PT.frame_pools s)
               (PT.current_page_table s).

(** [&current_page_table->page_directory[(addr >> 22) & 0x3FF]], with four
    bytes to an entry. *)
Definition PDE_address (current_page_table : PT.PageTable) (addr : Z) : Z :=
  PT.page_directory current_page_table
  + 4 * Z.land (Z.shiftr addr 22) 0x3FF.

(** [process_mem_pool->get_frames(n)], where [process_mem_pool] designates
    the pool at position [process_mem_pool] of the registry.  [None] when
    there is no such pool. *)
Definition pool_get_frames (process_mem_pool : nat) (n : Z) (s : PT.Machine)
  : option (PT.Machine * Z) :=
  p ← PT.frame_pools s !! process_mem_pool;
  Some (PT.mkMachine (PT.mem s) (PT.cr3 s) (PT.tlb_flushes s)
          (<[process_mem_pool := fst (CFP.get_frames p n)]> (PT.frame_pools s))
          (PT.current_page_table s),
        snd (CFP.get_frames p n)).

(** [for (i = from; ...; i++) page_table[i] = 0 | 2], [count] iterations. *)
Fixpoint init_table (count : nat) (page_table : Z) (i : Z) (m : Z -> Z)
  : Z -> Z :=
  match count with
  | O => m
  | S k => init_table k page_table (i + 1) (store m (page_table + 4 * i) (Z.lor 0 2))
  end.

(** [for (ptr = head; ptr != NULL; ptr = ptr->next_pool)
       if (ptr->is_legitimate(addr)) goto found_pool;]
    over the pools linked from [head] through [next_pool]. *)
Definition claimed (head : list VMP.VMPool) (addr : Z) : bool :=
  existsb (fun ptr => VMP.is_legitimate ptr addr) head.

(** The code from the label [found_pool] on: the directory entry of the
    faulting address is reached through [current_page_table], then the
    entry of the page through the recursive window.  [None] when
    [current_page_table] is [NULL] or [process_mem_pool] designates no
    pool. *)
Definition found_pool (fault_addr : Z) (process_mem_pool : nat)
           (s : PT.Machine) : option (PT.Machine * option Error) :=
  cur ← PT.current_page_table s;
  let pde := PDE_address cur fault_addr in
  s1 ← (if Z.land (PT.mem s pde) 1 =? 0 then
          '(s', frame) ← pool_get_frames process_mem_pool 1 s;
          let m := store (PT.mem s') pde
                         (Z.lor (u32 (PT.PAGE_SIZE * frame)) 3) in
          let page_table :=
            PT.PTE_address
              (Z.land fault_addr (u32 (Z.lnot (Z.shiftl 1 22 - 1)))) in
          Some (with_mem s' (init_table ENTRIES_PER_PAGE page_table 0 m))
        else Some s);
  let pte := PT.PTE_address fault_addr in
  if Z.land (PT.mem s1 pte) 1 =? 0 then
    '(s2, frame) ← pool_get_frames process_mem_pool 1 s1;
    let m := store (PT.mem s2) pte (u32 (PT.PAGE_SIZE * frame)) in
    let m := store m pte (Z.lor (m pte) 3) in
    Some (with_mem s2 m, None)
  else Some (s1, None).

(** [handle_fault]: [err_code] is [_r->err_code] and [fault_addr] the
    content of [cr2]; [kernel_head_pool] is the list of VM pools registered
    with the kernel page table and [head_pool] the member of that name of a
    page table, the list of VM pools registered with it (page_table.H is
    not part of the sources; [PT.PageTable] holds the directory only).
    The pools of the kernel are searched first; only when none of them
    claims the address is [current_page_table->head_pool] read.  Returns
    the machine and the error code logged on the error path.  [None] when
    the code dereferences [current_page_table] and it is [NULL], or when
    [process_mem_pool] designates no pool. *)
Definition handle_fault (err_code fault_addr : Z)
           (kernel_head_pool : list VMP.VMPool)
           (head_pool : PT.PageTable -> list VMP.VMPool)
           (process_mem_pool : nat) (s : PT.Machine)
  : option (PT.Machine * option Error) :=
  if Z.land err_code 1 =? 1 then Some (s, Some PROTECTION_FAULT)
  else if claimed kernel_head_pool fault_addr
  then found_pool fault_addr process_mem_pool s
  else
    cur ← PT.current_page_table s;
    if claimed (head_pool cur) fault_addr
    then found_pool fault_addr process_mem_pool s
    else Some (s, Some INVALID_FAULT).

End Fault.

(** ** Construction of a page table (page_table.C, the same in both
       variants) *)

Module PTInit.

(** Modelled from the spec: [KERNEL_PDE_LIMIT] is declared in page_table.H,
    which is not part of the sources; the spec gives the kernel range the
    first 256 directory entries and puts the recursive entry at index
    255. *)
Definition KERNEL_PDE_LIMIT : nat := 256.

(** The constructor reaches the frames it writes through their physical
    addresses: paging is off while the first table is built, and the frames
    of the kernel pool are mapped at their own addresses afterwards.  The
    memory of the machine is read here as indexed by these addresses. *)

(** [for (i = from; ...; i++) {
       page_table = PAGE_SIZE * process_mem_pool->get_frames(1);
       for (j = 0; j < ENTRIES_PER_PAGE; j++) page_table[j] = 0 | 2;
       page_directory[i] = page_table | 3; }], [count] iterations. *)
Fixpoint kernel_tables (count : nat) (page_directory i : Z)
         (process_mem_pool : nat) (s : PT.Machine) : option PT.Machine :=
  match count with
  | O => Some s
  | S k =>
    '(s1, frame) ← Fault.pool_get_frames process_mem_pool 1 s;
    let page_table := u32 (PT.PAGE_SIZE * frame) in
    let m := Fault.init_table Fault.ENTRIES_PER_PAGE page_table 0 (PT.mem s1) in
    let m := store m (page_directory + 4 * i) (Z.lor page_table 3) in
    kernel_tables k page_directory (i + 1) process_mem_pool (Fault.with_mem s1 m)
  end.

(** [for (i = from; ...; i++) {
       page_table[i] = address | 3; address = address + PAGE_SIZE; }] *)
Fixpoint direct_map (count : nat) (page_table i address : Z) (m : Z -> Z)
  : Z -> Z :=
  match count with
  | O => m
  | S k =>
    direct_map k page_table (i + 1) (u32 (address + PT.PAGE_SIZE))
               (store m (page_table + 4 * i) (Z.lor address 3))
  end.

(** [for (i = from; ...; i++) page_directory[i] = kernel_page_directory[i]] *)
Fixpoint copy_kernel (count : nat) (page_directory kernel_page_directory i : Z)
         (m : Z -> Z) : Z -> Z :=
  match count with
  | O => m
  | S k =>
    copy_kernel k page_directory kernel_page_directory (i + 1)
                (store m (page_directory + 4 * i)
                       (m (kernel_page_directory + 4 * i)))
  end.

(** The constructor.  [kernel_mem_pool] and [process_mem_pool] designate
    pools of the registry; [kernel_page_directory] is the static variable
    of that name, 0 for [NULL].  Returns the new table, the value of
    [kernel_page_directory] afterwards, and the machine. *)
Definition construct (kernel_mem_pool process_mem_pool : nat)
           (kernel_page_directory : Z) (s : PT.Machine)
  : option (PT.PageTable * Z * PT.Machine) :=
  '(s1, frame) ← Fault.pool_get_frames kernel_mem_pool 1 s;
  let page_directory := u32 (PT.PAGE_SIZE * frame) in
  s2 ← (if kernel_page_directory =? 0 then
          s' ← kernel_tables KERNEL_PDE_LIMIT page_directory 0
                             process_mem_pool s1;
          let page_table :=
            Z.land (PT.mem s' page_directory) (u32 (Z.lnot 0xFFF)) in
          let m := direct_map Fault.ENTRIES_PER_PAGE page_table 0 0 (PT.mem s') in
          let m := Fault.init_table (Fault.ENTRIES_PER_PAGE - KERNEL_PDE_LIMIT)
                                    page_directory (Z.of_nat KERNEL_PDE_LIMIT) m in
          Some (Fault.with_mem s' m)
        else
          Some (Fault.with_mem s1
                  (copy_kernel KERNEL_PDE_LIMIT page_directory
                               kernel_page_directory 0 (PT.mem s1))));
  let m := store (PT.mem s2)
                 (page_directory + 4 * (Z.of_nat KERNEL_PDE_LIMIT - 1))
                 (Z.lor page_directory 3) in
  Some (PT.mkPT page_directory,
        (if kernel_page_directory =? 0 then page_directory
         else kernel_page_directory),
        Fault.with_mem s2 m).

(** Frame [f] belongs to pool [p] and is not [Free] there. *)
Definition taken (p : CFP.ContFramePool) (f : Z) : Prop :=
  CFP.base_frame_no p <= f < CFP.base_frame_no p + CFP.nframes p
  /\ CFP.get_state p (f - CFP.base_frame_no p) <> CFP.Free.

End PTInit.

(** ** Bookkeeping of a VM pool *)

Module Regions.

(** The bytes recorded in an array of regions. *)
Definition total_size (arr : list VMP.Region.t) : Z :=
  foldr (fun r acc => VMP.Region.size r + acc) 0 arr.

(** The bytes that a pool accounts for, allocated and free together. *)
Definition accounted (vp : VMP.VMPool) : Z :=
  total_size (VMP.alloc vp) + total_size (VMP.free vp).

(** A region that lies inside the 32-bit address space, below its top. *)
Definition in_address_space (r : VMP.Region.t) : Prop :=
  0 <= VMP.Region.base_address r
  /\ 0 <= VMP.Region.size r
  /\ VMP.Region.base_address r + VMP.Region.size r < 2 ^ 32.

End Regions.

(** ** The kernel's use of the scheduler (kernel.C, thread.C) and the
       end-of-quantum timer (scheduler.C) *)

Module Kernel.

(** [pass_on_CPU] of kernel.C, as built with [_USES_SCHEDULER_] and without
    [_USES_RR]: the running thread puts itself on the ready queue and
    yields.  The argument [_to_thread] is not used in this build. *)
Definition pass_on_CPU (s : Sched.Scheduler) : option Sched.Scheduler :=
  s1 ← Sched.resume (Sched.current_thread s) s; Sched.yield s1.

(** [n] hand-overs, each one made by the thread that is running then. *)
Fixpoint pass_on_CPU_n (n : nat) (s : Sched.Scheduler)
  : option Sched.Scheduler :=
  match n with
  | O => Some s
  | S k => s1 ← pass_on_CPU s; pass_on_CPU_n k s1
  end.

(** [thread_shutdown] of thread.C, which a thread function returns into. *)
Definition thread_shutdown (s : Sched.Scheduler)
  : option (Sched.ptr * Sched.Scheduler) :=
  Sched.terminate (Sched.current_thread s) (Sched.mask s).

(** The counter of the end-of-quantum timer and its threshold. *)
Record EOQTimer : Type := mkTimer { ticks : Z; hz : Z }.

Definition reset_ticks (t : EOQTimer) : EOQTimer := mkTimer 0 (hz t).

(** [EOQTimer::handle_interrupt].  The [yield] it calls is the scheduler's;
    should the call be dispatched to [RRScheduler::yield], that one resets
    [ticks], which is 0 here already, and is [Scheduler::yield]
    otherwise. *)
Definition handle_interrupt (t : EOQTimer) (s : Sched.Scheduler)
  : option (EOQTimer * Sched.Scheduler) :=
  let t := if Sched.running s then mkTimer (ticks t + 1) (hz t) else t in
  if ticks t >=? hz t then
    let t := mkTimer 0 (hz t) in
    s1 ← Sched.resume (Sched.current_thread s) s;
    s2 ← Sched.yield s1;
    Some (t, s2)
  else Some (t, s).

(** [n] timer interrupts in a row. *)
Fixpoint interrupts (n : nat) (t : EOQTimer) (s : Sched.Scheduler)
  : option (EOQTimer * Sched.Scheduler) :=
  match n with
  | O => Some (t, s)
  | S k => '(t1, s1) ← handle_interrupt t s; interrupts k t1 s1
  end.

(** The ready queue holds the threads of [l], first to last: the TCBs are
    live and each one but the last links to the next.  The [next] field of
    the last one is not constrained; it keeps the value it had when the
    thread was last dequeued. *)
Record ready_is (s : Sched.Scheduler) (l : list nat) : Prop := mkReadyIs {
  ri_nodup : NoDup l;
  ri_head : Sched.head (Sched.queue s) = l !! 0%nat;
  ri_tail : Sched.tail (Sched.queue s) = last l;
  ri_links :
    forall i x, l !! i = Some x ->
      exists th, Sched.threads s !! x = Some th
                 /\ forall y, l !! S i = Some y -> Sched.next th = Some y
}.

(** The threads in the order in which they run: one step moves the first
    to the end. *)
Fixpoint rotation (n : nat) (l : list nat) : list nat :=
  match n with
  | O => l
  | S k => match rotation k l with
           | [] => []
           | x :: r => r ++ [x]
           end
  end.

End Kernel.

(** * Properties *)

(** ** Bit-level facts about the frame-state bitmap *)

Section BitFacts.
Import CFP.

Lemma u32_small x : 0 <= x < 2 ^ 32 -> u32 x = x.
Proof. intros H. unfold u32. apply Z.mod_small; lia. Qed.

Lemma u32_range x : 0 <= u32 x < 2 ^ 32.
Proof. unfold u32. apply Z.mod_pos_bound. lia. Qed.

Lemma testbit_u8 y k : Z.testbit (u8 y) k = (k <? 8) && Z.testbit y k.
Proof.
  unfold u8. destruct (Z.ltb_spec k 8) as [Hk | Hk]; simpl.
  - destruct (Z.neg_nonneg_cases k) as [Hn | Hn].
    + now rewrite !Z.testbit_neg_r.
    + apply Z.mod_pow2_bits_low. lia.
  - apply Z.mod_pow2_bits_high. lia.
Qed.

Lemma testbit_3 j : Z.testbit 3 j = (j =? 0) || (j =? 1).
Proof.
  destruct (Z.neg_nonneg_cases j) as [Hn | Hn].
  - rewrite Z.testbit_neg_r by lia.
    destruct (Z.eqb_spec j 0), (Z.eqb_spec j 1); simpl; lia.
  - destruct (Z.eq_dec j 0) as [-> | H0]; [reflexivity |].
    destruct (Z.eq_dec j 1) as [-> | H1]; [reflexivity |].
    replace 3 with (Z.ones 2) by reflexivity.
    rewrite Z.ones_spec_high by lia.
    destruct (Z.eqb_spec j 0), (Z.eqb_spec j 1); simpl; lia.
Qed.

Lemma testbit_1 j : Z.testbit 1 j = (j =? 0).
Proof.
  destruct (Z.neg_nonneg_cases j) as [Hn | Hn].
  - rewrite Z.testbit_neg_r by lia. destruct (Z.eqb_spec j 0); lia.
  - replace 1 with (2 ^ 0) by reflexivity.
    rewrite Z.pow2_bits_eqb by lia. apply Z.eqb_sym.
Qed.

(** Testing a single bit with a power-of-two mask. *)
Lemma land_pow2_zero b k :
  0 <= k -> (Z.land b (2 ^ k) =? 0) = negb (Z.testbit b k).
Proof.
  intros Hk.
  assert (E : Z.land b (2 ^ k) = if Z.testbit b k then 2 ^ k else 0).
  { apply Z.bits_inj'. intros n Hn.
    rewrite Z.land_spec, Z.pow2_bits_eqb by lia.
    destruct (Z.eqb_spec k n) as [-> | Hne].
    - destruct (Z.testbit b n); simpl.
      + rewrite Z.pow2_bits_eqb by lia. now rewrite Z.eqb_refl.
      + now rewrite Z.bits_0.
    - rewrite andb_false_r. destruct (Z.testbit b k).
      + rewrite Z.pow2_bits_eqb by lia. symmetry. now apply Z.eqb_neq.
      + now rewrite Z.bits_0. }
  rewrite E. destruct (Z.testbit b k); simpl; [| reflexivity].
  apply Z.eqb_neq. apply Z.pow_nonzero; lia.
Qed.

(** The bit offset of a frame inside its byte is one of 0, 2, 4, 6. *)
Lemma shift_cases f :
  let s := Z.land (u32 (f * 2)) (BYTE - 1) in
  s = 0 \/ s = 2 \/ s = 4 \/ s = 6.
Proof.
  simpl. change (BYTE - 1) with (Z.ones 3). rewrite Z.land_ones by lia.
  unfold u32. change (2 ^ 3) with 8. change (2 ^ 32) with 4294967296.
  Z.div_mod_to_equations. lia.
Qed.

Lemma state_of_bits_state st :
  state_of_bits (state_bit0 st) (state_bit1 st) = st.
Proof. now destruct st. Qed.

(** [get_state] reads the two bits of the frame, the lower one first. *)
Lemma get_state_mem_bits bm f :
  let x := u32 (f * 2) in
  get_state_mem bm f =
  state_of_bits (Z.testbit (bm (Z.shiftr x BYTE_SHIFT)) (Z.land x (BYTE - 1)))
                (Z.testbit (bm (Z.shiftr x BYTE_SHIFT)) (Z.land x (BYTE - 1) + 1)).
Proof.
  intros x. unfold get_state_mem, state_of_bits, truthy. fold x.
  set (b := bm (Z.shiftr x BYTE_SHIFT)).
  assert (Hs := shift_cases f). simpl in Hs. fold x in Hs.
  set (s := Z.land x (BYTE - 1)) in *.
  assert (M1 : u8 (Z.shiftl 1 s) = 2 ^ s).
  { rewrite Z.shiftl_1_l. unfold u8.
    destruct Hs as [-> | [-> | [-> | ->]]]; reflexivity. }
  assert (M2 : u8 (Z.shiftl (2 ^ s) 1) = 2 ^ (s + 1)).
  { unfold u8. destruct Hs as [-> | [-> | [-> | ->]]]; reflexivity. }
  rewrite M1, M2, !land_pow2_zero by lia.
  rewrite !negb_involutive. reflexivity.
Qed.

(** The byte that [set_state] stores: the two bits of the frame are
    replaced, the other six are kept. *)
Lemma set_state_mem_bits bm f st k :
  let x := u32 (f * 2) in
  let s := Z.land x (BYTE - 1) in
  0 <= k ->
  Z.testbit (set_state_mem bm f st (Z.shiftr x BYTE_SHIFT)) k =
  if k =? s then state_bit0 st
  else if k =? s + 1 then state_bit1 st
  else (k <? 8) && Z.testbit (bm (Z.shiftr x BYTE_SHIFT)) k.
Proof.
  intros x s Hk. unfold set_state_mem, store. fold x. fold s.
  rewrite Z.eqb_refl.
  set (b := bm (Z.shiftr x BYTE_SHIFT)).
  assert (Hs := shift_cases f). simpl in Hs. fold x in Hs. fold s in Hs.
  assert (Hz : Z.testbit (u8 (Z.land b (Z.lnot (Z.shiftl 3 s)))) k =
               (k <? 8) && Z.testbit b k && negb ((k =? s) || (k =? s + 1))).
  { rewrite testbit_u8, Z.land_spec, Z.lnot_spec, Z.shiftl_spec, testbit_3 by lia.
    rewrite andb_assoc.
    replace (k - s =? 0) with (k =? s) by (destruct (Z.eqb_spec k s), (Z.eqb_spec (k - s) 0); lia).
    replace (k - s =? 1) with (k =? s + 1) by (destruct (Z.eqb_spec k (s + 1)), (Z.eqb_spec (k - s) 1); lia).
    reflexivity. }
  assert (E0 : (k - s =? 0) = (k =? s)).
  { destruct (Z.eqb_spec k s), (Z.eqb_spec (k - s) 0); lia. }
  assert (E1 : (k - s =? 1) = (k =? s + 1)).
  { destruct (Z.eqb_spec k (s + 1)), (Z.eqb_spec (k - s) 1); lia. }
  set (z := u8 (Z.land b (Z.lnot (Z.shiftl 3 s)))) in *.
  destruct st; cbn [state_bit0 state_bit1];
    rewrite ?testbit_u8, ?Z.lor_spec, ?Hz, ?Z.shiftl_spec, ?testbit_1,
      ?testbit_3, ?E0, ?E1 by lia;
    destruct (Z.eqb_spec k s), (Z.eqb_spec k (s + 1)), (Z.ltb_spec k 8),
      (Z.testbit b k); simpl; try reflexivity; lia.
Qed.

End BitFacts.

(** ** Reading back frame states *)

Section FrameStates.
Import CFP.

Lemma get_set_same bm f st :
  get_state_mem (set_state_mem bm f st) f = st.
Proof.
  rewrite get_state_mem_bits. cbv zeta.
  pose proof (shift_cases f) as Hs. cbv zeta in Hs.
  rewrite !set_state_mem_bits by lia. cbv zeta.
  rewrite Z.eqb_refl.
  replace (Z.land (u32 (f * 2)) (BYTE - 1) + 1 =? Z.land (u32 (f * 2)) (BYTE - 1))
    with false by (symmetry; apply Z.eqb_neq; lia).
  rewrite Z.eqb_refl. apply state_of_bits_state.
Qed.

Lemma get_set_other_word bm f g st :
  u32 (f * 2) <> u32 (g * 2) ->
  get_state_mem (set_state_mem bm f st) g = get_state_mem bm g.
Proof.
  intros Hne. rewrite !get_state_mem_bits. cbv zeta.
  pose proof (shift_cases f) as Hf. pose proof (shift_cases g) as Hg.
  cbv zeta in Hf, Hg.
  destruct (Z.eq_dec (Z.shiftr (u32 (g * 2)) BYTE_SHIFT)
                     (Z.shiftr (u32 (f * 2)) BYTE_SHIFT)) as [Heq | Hslot].
  - rewrite Heq.
    assert (Hsh : Z.land (u32 (g * 2)) (BYTE - 1) <> Z.land (u32 (f * 2)) (BYTE - 1)).
    { intros E. apply Hne.
      revert Heq E. unfold BYTE_SHIFT. change (BYTE - 1) with (Z.ones 3).
      rewrite !Z.land_ones, !Z.shiftr_div_pow2 by lia.
      change (2 ^ 3) with 8. intros Hd Hm.
      rewrite (Z.div_mod (u32 (f * 2)) 8), (Z.div_mod (u32 (g * 2)) 8) by lia.
      congruence. }
    rewrite !set_state_mem_bits by lia. cbv zeta.
    set (sf := Z.land (u32 (f * 2)) (BYTE - 1)) in *.
    set (sg := Z.land (u32 (g * 2)) (BYTE - 1)) in *.
    destruct (Z.eqb_spec sg sf), (Z.eqb_spec sg (sf + 1)),
      (Z.eqb_spec (sg + 1) sf), (Z.eqb_spec (sg + 1) (sf + 1)); try lia.
    replace (sg <? 8) with true by (symmetry; apply Z.ltb_lt; lia).
    replace (sg + 1 <? 8) with true by (symmetry; apply Z.ltb_lt; lia).
    reflexivity.
  - unfold set_state_mem, store.
    destruct (Z.eqb_spec (Z.shiftr (u32 (g * 2)) BYTE_SHIFT)
                         (Z.shiftr (u32 (f * 2)) BYTE_SHIFT)); [contradiction |].
    reflexivity.
Qed.

(** Frame indices below [2^31] do not alias in the bitmap. *)
Lemma get_set_other bm f g st :
  0 <= f < 2 ^ 31 -> 0 <= g < 2 ^ 31 -> f <> g ->
  get_state_mem (set_state_mem bm f st) g = get_state_mem bm g.
Proof.
  intros Hf Hg Hne. apply get_set_other_word.
  rewrite !u32_small by lia. lia.
Qed.

Lemma get_set_states count bm fno st g :
  0 <= fno -> fno + Z.of_nat count <= 2 ^ 31 -> 0 <= g < 2 ^ 31 ->
  get_state_mem (set_states count fno st bm) g =
  if (fno <=? g) && (g <? fno + Z.of_nat count) then st else get_state_mem bm g.
Proof.
  revert bm fno. induction count as [| k IH]; intros bm fno H0 Hb Hg.
  - simpl. destruct (Z.leb_spec fno g), (Z.ltb_spec g (fno + Z.of_nat 0)); simpl; try reflexivity; lia.
  - cbn [set_states]. rewrite IH by lia.
    destruct (Z.leb_spec (fno + 1) g), (Z.ltb_spec g (fno + 1 + Z.of_nat k)),
      (Z.leb_spec fno g), (Z.ltb_spec g (fno + Z.of_nat (S k)));
      simpl; try reflexivity; try lia;
      first [ assert (g = fno) by lia; subst g; apply get_set_same
            | apply get_set_other; lia ].
Qed.

End FrameStates.

(** ** The frame pool: allocation *)

Section GetFrames.
Import CFP.

(** C10.  A request for zero frames is not rejected.  On a pool that has a
    frame 0 and whose frame 0 is not [Free], [get_frames(0)] does nothing
    but [set_state(1, HoS)]: frame 1 becomes [HoS], every other frame keeps
    its state (none becomes [Used]), [nFreeFrames] is unchanged, and the
    result is [base_frame_no + 1] in [unsigned long] arithmetic. *)
Theorem get_frames_zero (p : ContFramePool) :
  1 <= nframes p ->
  0 <= nFreeFrames p < 2 ^ 32 ->
  get_state p 0 <> Free ->
  get_frames p 0 =
    (mkPool (base_frame_no p) (nframes p) (nFreeFrames p) (info_frame_no p)
            (set_state_mem (bitmap p) 1 HoS),
     u32 (1 + base_frame_no p))
  /\ get_state (fst (get_frames p 0)) 1 = HoS
  /\ (forall g, 0 <= g < 2 ^ 31 -> g <> 1 ->
                get_state (fst (get_frames p 0)) g = get_state p g)
  /\ nFreeFrames (fst (get_frames p 0)) = nFreeFrames p
  /\ snd (get_frames p 0) = u32 (base_frame_no p + 1)
  /\ (0 <= base_frame_no p < 2 ^ 32 - 1 ->
      snd (get_frames p 0) = base_frame_no p + 1).
Proof.
  intros Hn Hfree H0.
  assert (E : get_frames p 0 =
    (mkPool (base_frame_no p) (nframes p) (nFreeFrames p) (info_frame_no p)
            (set_state_mem (bitmap p) 1 HoS),
     u32 (1 + base_frame_no p))).
  { unfold get_frames.
    destruct (Z.gtb_spec 0 (nFreeFrames p)); [lia |].
    destruct (Z.to_nat (nframes p)) as [| k] eqn:Ek; [lia |].
    cbn [scan].
    destruct (get_state p 0) eqn:Es; [congruence | |];
      cbn [FrameState_eqb]; rewrite Z.eqb_refl; cbn [negb];
      change (u32 (0 - 0 + 1)) with 1; change (u32 (1 + 0) - 1) with 0;
      cbn [Z.to_nat set_states]; rewrite Z.sub_0_r, (u32_small (nFreeFrames p)) by lia;
      reflexivity. }
  rewrite E. cbn [fst snd]. unfold get_state. cbn [bitmap nFreeFrames].
  repeat split.
  - apply get_set_same.
  - intros g Hg Hne. apply get_set_other; lia.
  - f_equal. lia.
  - intros Hb. rewrite u32_small by lia. lia.
Qed.

(** The kernel pool right after its construction: frame 0 is the head of
    the info frames, so a request for zero frames marks frame 1. *)
Lemma get_frames_zero_witness :
  let p := init (fun _ => 0) 512 512 0 in
  (1 <= nframes p /\ 0 <= nFreeFrames p < 2 ^ 32 /\ get_state p 0 <> Free)
  /\ get_state (fst (get_frames p 0)) 1 = HoS
  /\ nFreeFrames (fst (get_frames p 0)) = 511
  /\ snd (get_frames p 0) = 513.
Proof.
  intros p.
  assert (H1 : 1 <= nframes p) by (vm_compute; discriminate).
  assert (H2 : 0 <= nFreeFrames p < 2 ^ 32)
    by (vm_compute; split; [discriminate | reflexivity]).
  assert (H3 : get_state p 0 <> Free) by (vm_compute; discriminate).
  split; [auto |].
  destruct (get_frames_zero p H1 H2 H3) as (_ & Hs & _ & Hf & _ & Hr).
  split; [exact Hs |]. split; [rewrite Hf; reflexivity |].
  apply Hr. vm_compute. split; [discriminate | reflexivity].
Defined.

End GetFrames.

(** ** The frame pool: construction *)

Section Construction.
Import CFP.

(** A frame outside the frames written leaves the byte alone. *)
Lemma set_state_mem_other_slot bm f st j :
  j <> Z.shiftr (u32 (f * 2)) BYTE_SHIFT ->
  set_state_mem bm f st j = bm j.
Proof.
  intros Hj. unfold set_state_mem, store.
  destruct (Z.eqb_spec j (Z.shiftr (u32 (f * 2)) BYTE_SHIFT)); [contradiction |].
  reflexivity.
Qed.

(** Byte [k] covers frames [4k .. 4k+3], two bits per frame from the low
    end of the byte. *)
Lemma frame_slot_shift f :
  0 <= f < 2 ^ 31 ->
  Z.shiftr (u32 (f * 2)) BYTE_SHIFT = f / 4
  /\ Z.land (u32 (f * 2)) (BYTE - 1) = 2 * (f mod 4).
Proof.
  intros Hf. rewrite u32_small by lia. unfold BYTE_SHIFT.
  change (BYTE - 1) with (Z.ones 3).
  rewrite Z.shiftr_div_pow2, Z.land_ones by lia. change (2 ^ 3) with 8.
  split; Z.div_mod_to_equations; lia.
Qed.

Lemma set_states_first_byte count fno st bm :
  4 <= fno -> fno + Z.of_nat count <= 2 ^ 31 ->
  set_states count fno st bm 0 = bm 0.
Proof.
  revert fno bm. induction count as [| k IH]; intros fno bm H4 Hb; [reflexivity |].
  cbn [set_states]. rewrite IH by lia.
  apply set_state_mem_other_slot.
  destruct (frame_slot_shift fno) as [-> _]; [lia |].
  Z.div_mod_to_equations. lia.
Qed.

Lemma set_states_split a b fno st bm :
  set_states (a + b) fno st bm =
  set_states b (fno + Z.of_nat a) st (set_states a fno st bm).
Proof.
  revert fno bm. induction a as [| a IH]; intros fno bm.
  - cbn [Nat.add set_states]. f_equal. lia.
  - cbn [Nat.add set_states]. rewrite IH. f_equal. lia.
Qed.

Lemma set_state_mem_bits_at bm f st j s k :
  0 <= f < 2 ^ 31 -> j = f / 4 -> s = 2 * (f mod 4) -> 0 <= k ->
  Z.testbit (set_state_mem bm f st j) k =
  if k =? s then state_bit0 st
  else if k =? s + 1 then state_bit1 st
  else (k <? 8) && Z.testbit (bm j) k.
Proof.
  intros Hf -> -> Hk. destruct (frame_slot_shift f Hf) as [E1 E2].
  rewrite <- E1, <- E2. apply set_state_mem_bits. exact Hk.
Qed.

(** Clearing the four frames of a byte leaves zero, whatever it held. *)
Lemma first_byte_cleared m0 :
  set_states 4 0 Free m0 0 = 0.
Proof.
  cbn [set_states]. cbn [Z.add Pos.add Pos.succ].
  apply Z.bits_inj'. intros k Hk. rewrite Z.bits_0.
  rewrite (set_state_mem_bits_at _ 3 Free 0 6 k) by (reflexivity || lia).
  rewrite (set_state_mem_bits_at _ 2 Free 0 4 k) by (reflexivity || lia).
  rewrite (set_state_mem_bits_at _ 1 Free 0 2 k) by (reflexivity || lia).
  rewrite (set_state_mem_bits_at _ 0 Free 0 0 k) by (reflexivity || lia).
  cbn [state_bit0 state_bit1].
  destruct (Z.eqb_spec k 6), (Z.eqb_spec k (6 + 1)), (Z.eqb_spec k 4),
    (Z.eqb_spec k (4 + 1)), (Z.eqb_spec k 2), (Z.eqb_spec k (2 + 1)),
    (Z.eqb_spec k 0), (Z.eqb_spec k (0 + 1)), (Z.ltb_spec k 8);
    simpl; try reflexivity; lia.
Qed.

(** The kernel pool [base_frame_no = 512, n_frames = 512, info_frame_no = 0]
    right after its construction. *)
Lemma init_kernel_pool (m0 : Z -> Z) :
  let p := init m0 512 512 0 in
  needed_info_frames 512 = 1
  /\ bitmap p 0 = 3
  /\ nFreeFrames p = 511
  /\ get_state p 0 = HoS
  /\ (forall f, 1 <= f < 512 -> get_state p f = Free)
  /\ (forall bm f st,
        0 <= f < 2 ^ 31 ->
        Z.testbit (set_state_mem bm f st (f / 4)) (2 * (f mod 4)) = state_bit0 st
        /\ Z.testbit (set_state_mem bm f st (f / 4)) (2 * (f mod 4) + 1)
           = state_bit1 st).
Proof.
  intros p.
  assert (Hb : forall j, bitmap p j =
    set_state_mem (set_state_mem (set_states 512 0 Free m0) 0 Used) 0 HoS j)
    by reflexivity.
  split; [reflexivity |]. split; [| split; [reflexivity |]].
  - rewrite Hb.
    change 512%nat with (4 + 508)%nat. rewrite set_states_split.
    apply Z.bits_inj'. intros k Hk.
    rewrite (set_state_mem_bits_at _ 0 HoS 0 0 k) by (reflexivity || lia).
    rewrite (set_state_mem_bits_at _ 0 Used 0 0 k) by (reflexivity || lia).
    rewrite set_states_first_byte by (simpl; lia).
    rewrite first_byte_cleared, Z.bits_0, testbit_3, andb_false_r.
    cbn [state_bit0 state_bit1].
    destruct (Z.eqb_spec k 0), (Z.eqb_spec k (0 + 1)), (Z.eqb_spec k 1);
      simpl; try reflexivity; lia.
  - split; [| split].
    + unfold get_state. rewrite (get_state_mem_bits (bitmap p) 0). cbv zeta.
      change (Z.shiftr (u32 (0 * 2)) BYTE_SHIFT) with 0.
      change (Z.land (u32 (0 * 2)) (BYTE - 1)) with 0.
      rewrite !Hb.
      rewrite !(set_state_mem_bits_at _ 0 HoS 0 0) by (reflexivity || lia).
      reflexivity.
    + intros f Hf. unfold get_state.
      change (bitmap p) with
        (set_state_mem (set_state_mem (set_states 512 0 Free m0) 0 Used) 0 HoS).
      rewrite !get_set_other by lia.
      rewrite get_set_states by (simpl; lia).
      destruct (Z.leb_spec 0 f), (Z.ltb_spec f (0 + Z.of_nat 512));
        simpl; try reflexivity; lia.
    + intros bm f st Hf. split.
      * rewrite (set_state_mem_bits_at bm f st (f / 4) (2 * (f mod 4)))
          by (reflexivity || lia || (Z.div_mod_to_equations; lia)).
        now rewrite Z.eqb_refl.
      * rewrite (set_state_mem_bits_at bm f st (f / 4) (2 * (f mod 4)))
          by (reflexivity || lia || (Z.div_mod_to_equations; lia)).
        rewrite Z.eqb_refl.
        destruct (Z.eqb_spec (2 * (f mod 4) + 1) (2 * (f mod 4))); [lia | reflexivity].
Qed.

(** C5 (as the code has it).  After constructing the kernel pool
    [base_frame_no = 512, n_frames = 512, info_frame_no = 0], whatever the
    memory at the bitmap address held before: one info frame is needed, the
    first byte of the bitmap is [0b00000011], frame 0 is [HoS], frames 1 to
    511 are [Free], and [nFreeFrames] is 511.  In a byte, frame [f] occupies
    bits [2 * (f mod 4)] (set for [Used] and [HoS]) and [2 * (f mod 4) + 1]
    (set for [HoS] only). *)
Theorem kernel_pool_after_construction (m0 : Z -> Z) :
  let p := init m0 512 512 0 in
  needed_info_frames 512 = 1
  /\ bitmap p 0 = 3
  /\ nFreeFrames p = 511
  /\ get_state p 0 = HoS
  /\ (forall f, 1 <= f < 512 -> get_state p f = Free)
  /\ (forall bm f st,
        0 <= f < 2 ^ 31 ->
        Z.testbit (set_state_mem bm f st (f / 4)) (2 * (f mod 4)) = state_bit0 st
        /\ Z.testbit (set_state_mem bm f st (f / 4)) (2 * (f mod 4) + 1)
           = state_bit1 st).
Proof. exact (init_kernel_pool m0). Qed.

(** C5, refuted as stated: for no prior content of the bitmap memory does
    the first byte read [0b11101010] (234), nor is frame 1 [Used]. *)
Lemma kernel_pool_first_byte_not_0b11101010 :
  ~ (exists m0 : Z -> Z,
        bitmap (init m0 512 512 0) 0 = 234
        \/ get_state (init m0 512 512 0) 1 = Used).
Proof.
  intros [m0 [H | H]].
  - destruct (init_kernel_pool m0) as (_ & Hb & _).
    cbv zeta in Hb. rewrite Hb in H. discriminate.
  - destruct (init_kernel_pool m0) as (_ & _ & _ & _ & Hf & _).
    cbv zeta in Hf. rewrite Hf in H by lia. discriminate.
Qed.

End Construction.

(** ** The frame pool: [mark_inaccessible] *)

Section MarkInaccessible.
Import CFP.

Lemma mark_loop_set_states this_base count fno bm :
  0 <= this_base <= fno -> fno + Z.of_nat count <= 2 ^ 32 ->
  mark_loop this_base count fno bm =
  set_states count (fno - this_base) Used bm.
Proof.
  revert fno bm. induction count as [| k IH]; intros fno bm Hb Ht; [reflexivity |].
  cbn [mark_loop set_states]. rewrite IH by lia.
  rewrite u32_small by lia. f_equal. lia.
Qed.

(** [mark_inaccessible] never assigns [nFreeFrames]. *)
Lemma mark_inaccessible_nFreeFrames p b n :
  nFreeFrames (mark_inaccessible p b n) = nFreeFrames p.
Proof. reflexivity. Qed.

(** With [this->base_frame_no <= b], the frames [b - base .. b - base + n)]
    are written [Used] and then frame [b], not [b - base], is written
    [HoS]. *)
Lemma mark_inaccessible_bitmap p b n :
  0 <= base_frame_no p <= b -> 0 <= n -> b + n < 2 ^ 32 ->
  bitmap (mark_inaccessible p b n) =
  set_state_mem
    (set_states (Z.to_nat n) (b - base_frame_no p) Used (bitmap p)) b HoS.
Proof.
  intros Hb Hn Ht. unfold mark_inaccessible. cbn [bitmap with_bitmap].
  rewrite u32_small by lia.
  replace (b + n - b) with n by lia.
  rewrite mark_loop_set_states by lia. reflexivity.
Qed.

(** C4, on the call that the boot sequence makes.  The process pool is
    constructed with [base_frame_no = 1024, n_frames = 7168] and its bitmap
    in frame 513; then [mark_inaccessible(3840, 256)] marks the hole.
    Afterwards the first frame of the hole, pool-relative index
    [3840 - 1024 = 2816], is [Used] and not [HoS]; the [HoS] mark is on index
    3840, a frame outside the hole that was [Free]; and [nFreeFrames] still
    is 7168, although 256 frames have left the [Free] state. *)
Theorem mark_inaccessible_boot_hole (m0 : Z -> Z) :
  let p := init m0 1024 7168 513 in
  let p' := mark_inaccessible p 3840 256 in
  (forall f, 0 <= f < 7168 -> get_state p f = Free)
  /\ nFreeFrames p = 7168
  /\ get_state p' (3840 - 1024) = Used
  /\ (forall f, 2816 <= f < 2816 + 256 -> get_state p' f = Used)
  /\ get_state p' 3840 = HoS
  /\ nFreeFrames p' = 7168.
Proof.
  intros p p'.
  assert (Hb : bitmap p = set_states (Z.to_nat 7168) 0 Free m0) by reflexivity.
  assert (Hfree : forall f, 0 <= f < 7168 -> get_state p f = Free).
  { intros f Hf. unfold get_state. rewrite Hb.
    rewrite get_set_states by lia.
    destruct (Z.leb_spec 0 f), (Z.ltb_spec f (0 + Z.of_nat (Z.to_nat 7168)));
      cbn [andb]; try reflexivity; lia. }
  assert (Hbase : base_frame_no p = 1024) by reflexivity.
  assert (Hused : forall f, 2816 <= f < 2816 + 256 -> get_state p' f = Used).
  { intros f Hf. unfold get_state, p'.
    rewrite mark_inaccessible_bitmap by (rewrite ?Hbase; lia).
    rewrite get_set_other by lia.
    rewrite get_set_states by (rewrite ?Hbase; lia).
    rewrite Hbase.
    destruct (Z.leb_spec (3840 - 1024) f),
      (Z.ltb_spec f (3840 - 1024 + Z.of_nat (Z.to_nat 256)));
      cbn [andb]; try reflexivity; lia. }
  split; [exact Hfree |]. split; [reflexivity |].
  split; [apply Hused; lia |]. split; [exact Hused |].
  split; [| reflexivity].
  unfold get_state, p'. rewrite mark_inaccessible_bitmap by (rewrite ?Hbase; lia).
  apply get_set_same.
Qed.

End MarkInaccessible.

(** ** The frame pool: release *)

Section Release.
Import CFP.

Lemma FrameState_eqb_eq a b : FrameState_eqb a b = true <-> a = b.
Proof. destruct a, b; simpl; split; congruence. Qed.

Lemma FrameState_eqb_neq a b : FrameState_eqb a b = false <-> a <> b.
Proof. destruct a, b; simpl; split; congruence. Qed.

Lemma u32_add_l a b : u32 (u32 a + b) = u32 (a + b).
Proof. unfold u32. apply Zplus_mod_idemp_l. Qed.

(** The [do ... while] loop on a run of [k] [Used] frames after [fno] that
    ends before frame [fno + k + 1]: the [k + 1] frames from [fno] are set
    [Free], [nFreeFrames] is incremented [k + 1] times, and [get_state] is
    evaluated at each of [fno + 1 .. fno + k + 1]. *)
Lemma release_loop_run (k : nat) :
  forall fuel p fno reads,
    (k < fuel)%nat -> 0 <= fno -> fno + Z.of_nat k + 1 < 2 ^ 31 ->
    (forall f, fno < f <= fno + Z.of_nat k ->
               get_state p f = Used /\ f < nframes p) ->
    (get_state p (fno + Z.of_nat k + 1) <> Used
     \/ nframes p <= fno + Z.of_nat k + 1) ->
    release_loop fuel p fno reads =
    Some (mkPool (base_frame_no p) (nframes p)
                 (u32 (nFreeFrames p + Z.of_nat k + 1)) (info_frame_no p)
                 (set_states (S k) fno Free (bitmap p)),
          reads ++ seqZ (fno + 1) (Z.of_nat k + 1)).
Proof.
  induction k as [| k IH]; intros fuel p fno reads Hfuel H0 Hb Hrun Hstop.
  - destruct fuel as [| fuel]; [lia |]. cbn [release_loop].
    rewrite (u32_small (fno + 1)) by lia.
    assert (Hg : get_state (with_nFreeFrames (set_state p fno Free)
                   (u32 (nFreeFrames (set_state p fno Free) + 1))) (fno + 1)
                 = get_state p (fno + 1)).
    { unfold get_state. cbn [bitmap with_nFreeFrames set_state with_bitmap].
      apply get_set_other; lia. }
    rewrite Hg. cbn [nframes with_nFreeFrames set_state with_bitmap].
    replace (FrameState_eqb (get_state p (fno + 1)) Used && (fno + 1 <? nframes p))
      with false.
    + cbn [set_states nFreeFrames set_state with_bitmap bitmap base_frame_no
             info_frame_no with_nFreeFrames].
      rewrite seqZ_cons, seqZ_nil by lia.
      change (Z.of_nat 0) with 0. rewrite Z.add_0_r. reflexivity.
    + symmetry. apply andb_false_iff.
      destruct Hstop as [Hs | Hs].
      * left. apply FrameState_eqb_neq. now rewrite Z.add_0_r in Hs.
      * right. apply Z.ltb_ge. lia.
  - destruct fuel as [| fuel]; [lia |]. cbn [release_loop].
    rewrite (u32_small (fno + 1)) by lia.
    set (p2 := with_nFreeFrames (set_state p fno Free)
                 (u32 (nFreeFrames (set_state p fno Free) + 1))).
    assert (Hg : forall f, fno < f < 2 ^ 31 -> get_state p2 f = get_state p f).
    { intros f Hf. unfold get_state, p2.
      cbn [bitmap with_nFreeFrames set_state with_bitmap].
      apply get_set_other; lia. }
    assert (Hn : nframes p2 = nframes p) by reflexivity.
    destruct (Hrun (fno + 1)) as [Hu Hlt]; [lia |].
    rewrite Hg, Hu, Hn by lia. cbn [FrameState_eqb andb].
    replace (fno + 1 <? nframes p) with true by (symmetry; apply Z.ltb_lt; lia).
    rewrite IH; try lia.
    + f_equal. f_equal.
      * unfold p2. cbn [set_states nFreeFrames set_state with_bitmap bitmap
                         base_frame_no info_frame_no with_nFreeFrames nframes].
        f_equal. rewrite <- Z.add_assoc, u32_add_l. f_equal. lia.
      * rewrite <- app_assoc. f_equal.
        rewrite (seqZ_cons (fno + 1)) by lia. cbn [app]. f_equal.
        f_equal; lia.
    + intros f Hf. rewrite Hg, Hn by lia. apply Hrun. lia.
    + rewrite Hn. destruct Hstop as [Hs | Hs]; [left | right; lia].
      rewrite Hg by lia. replace (fno + 1 + Z.of_nat k + 1)
        with (fno + Z.of_nat (S k) + 1) by lia. exact Hs.
Qed.

(** The loop ends: with the fuel that [_release_frames] supplies it always
    has a result, and the result is a pool of the same extent. *)
Lemma release_loop_total fuel :
  forall p fno reads,
    0 <= fno < nframes p -> nframes p < 2 ^ 32 ->
    (Z.to_nat (nframes p - fno) <= fuel)%nat ->
    exists p' reads',
      release_loop fuel p fno reads = Some (p', reads')
      /\ nframes p' = nframes p /\ base_frame_no p' = base_frame_no p.
Proof.
  induction fuel as [| fuel IH]; intros p fno reads Hf Hn Hfuel; [lia |].
  cbn [release_loop].
  set (p2 := with_nFreeFrames (set_state p fno Free)
               (u32 (nFreeFrames (set_state p fno Free) + 1))).
  destruct (FrameState_eqb (get_state p2 (u32 (fno + 1))) Used
            && (u32 (fno + 1) <? nframes p2)) eqn:Hc.
  - apply andb_true_iff in Hc as [_ Hlt]. apply Z.ltb_lt in Hlt.
    rewrite u32_small in Hlt |- * by lia.
    change (nframes p2) with (nframes p) in Hlt.
    destruct (IH p2 (fno + 1) (reads ++ [fno + 1])) as (p' & r' & E & E1 & E2).
    + change (nframes p2) with (nframes p). lia.
    + exact Hn.
    + change (nframes p2) with (nframes p). lia.
    + exists p', r'. split; [exact E |]. split; [exact E1 | exact E2].
  - exists p2, (reads ++ [u32 (fno + 1)]). repeat split.
Qed.

Lemma _release_frames_traced_total p f :
  nframes p < 2 ^ 32 ->
  exists p' reads,
    _release_frames_traced p f = Some (p', reads)
    /\ nframes p' = nframes p /\ base_frame_no p' = base_frame_no p.
Proof.
  intros Hn. unfold _release_frames_traced.
  destruct (negb (FrameState_eqb (get_state p f) HoS)).
  { exists p, [f]. repeat split. }
  cbn [release_loop].
  set (p2 := with_nFreeFrames (set_state p f Free)
               (u32 (nFreeFrames (set_state p f Free) + 1))).
  destruct (FrameState_eqb (get_state p2 (u32 (f + 1))) Used
            && (u32 (f + 1) <? nframes p2)) eqn:Hc.
  - apply andb_true_iff in Hc as [_ Hlt]. apply Z.ltb_lt in Hlt.
    pose proof (u32_range (f + 1)) as Hr.
    destruct (release_loop_total (Z.to_nat (nframes p)) p2 (u32 (f + 1))
                ([f] ++ [u32 (f + 1)])) as (p' & r' & E & E1 & E2).
    + lia.
    + exact Hn.
    + change (nframes p2) with (nframes p). lia.
    + exists p', r'. split; [exact E |]. split; [exact E1 | exact E2].
  - exists p2, ([f] ++ [u32 (f + 1)]). repeat split.
Qed.

Lemma release_frames_total ps f :
  pools_ok ps ->
  exists ps', release_frames ps f = Some ps' /\ pools_ok ps'.
Proof.
  unfold pools_ok. induction ps as [| p ps IH]; intros Hok.
  - exists []. split; [reflexivity | constructor].
  - inversion Hok as [| ? ? Hp Hps]; subst. cbn [release_frames].
    destruct (u32 (f - base_frame_no p) <? nframes p).
    + destruct (_release_frames_traced_total p (u32 (f - base_frame_no p)) Hp)
        as (p' & r & E & E1 & _).
      unfold _release_frames. rewrite E. cbn.
      exists (p' :: ps). split; [reflexivity |].
      constructor; [lia | exact Hps].
    + destruct (IH Hps) as (ps' & E & Hok'). rewrite E. cbn.
      exists (p :: ps'). split; [reflexivity |].
      constructor; [exact Hp | exact Hok'].
Qed.

(** Releasing the head of a run of [Used] frames that extends to the last
    frame of the pool evaluates [get_state] at index [nframes]. *)
Lemma release_reads_nframes p h :
  0 <= h < nframes p -> nframes p < 2 ^ 31 ->
  get_state p h = HoS ->
  (forall f, h < f < nframes p -> get_state p f = Used) ->
  exists p' reads,
    _release_frames_traced p h = Some (p', reads)
    /\ nframes p ∈ reads /\ last reads = Some (nframes p).
Proof.
  intros Hh Hn Hhos Hrun. unfold _release_frames_traced.
  rewrite Hhos. cbn [FrameState_eqb negb].
  rewrite (release_loop_run (Z.to_nat (nframes p - h - 1))); try lia.
  - eexists _, _. split; [reflexivity |].
    rewrite Z2Nat.id by lia.
    split.
    + apply elem_of_app. right. apply elem_of_seqZ. lia.
    + rewrite (seqZ_app (h + 1) (nframes p - h - 1) 1) by lia.
      rewrite (seqZ_cons _ 1) by lia.
      rewrite app_assoc, last_app_cons.
      change (seqZ (Z.succ (h + 1 + (nframes p - h - 1))) (Z.pred 1)) with (@nil Z).
      cbn [last]. f_equal. lia.
  - intros f Hf. split; [apply Hrun |]; lia.
Qed.

End Release.

Section ReleasePastEnd.
Import CFP.

(** C6.  There is a reachable pool state in which an allocated sequence
    extends to the last frame of the pool (here: a pool of 8 frames whose
    bitmap lives in another pool, after [get_frames(8)]), and releasing the
    head of that sequence evaluates [get_state(nframes)]: the loop condition
    tests the state of frame [fno] before it tests [fno < nframes]. *)
Theorem release_frames_reads_past_pool_end :
  exists p h,
    reachable p
    /\ 0 <= h < nframes p
    /\ get_state p h = HoS
    /\ (forall f, h < f < nframes p -> get_state p f = Used)
    /\ (exists p' reads,
          _release_frames_traced p h = Some (p', reads)
          /\ nframes p ∈ reads
          /\ last reads = Some (nframes p))
    /\ snd <$> _release_frames_traced p h = Some [0; 1; 2; 3; 4; 5; 6; 7; 8].
Proof.
  exists (fst (get_frames (init (fun _ => 0) 1024 8 513) 8)), 0.
  set (p := fst (get_frames (init (fun _ => 0) 1024 8 513) 8)).
  assert (Hn : nframes p = 8) by (vm_compute; reflexivity).
  assert (Hh : get_state p 0 = HoS) by (vm_compute; reflexivity).
  assert (Hu : forall f, 0 < f < nframes p -> get_state p f = Used).
  { intros f Hf. rewrite Hn in Hf.
    assert (f = 1 \/ f = 2 \/ f = 3 \/ f = 4 \/ f = 5 \/ f = 6 \/ f = 7) as Hc by lia.
    destruct Hc as [-> | [-> | [-> | [-> | [-> | [-> | ->]]]]]];
      vm_compute; reflexivity. }
  split; [| split; [| split; [| split; [| split]]]].
  - apply reach_get_frames; [apply reach_init |]; lia.
  - rewrite Hn. lia.
  - exact Hh.
  - exact Hu.
  - apply release_reads_nframes; [rewrite Hn; lia | rewrite Hn; lia | exact Hh | exact Hu].
  - vm_compute. reflexivity.
Qed.

End ReleasePastEnd.

(** ** The frame pool: allocation followed by release *)

Section GetRelease.
Import CFP.

Lemma count_free_range p k : 0 <= count_free p k <= Z.of_nat k.
Proof.
  induction k as [| k IH]; cbn [count_free]; [lia |].
  destruct (FrameState_eqb (get_state p (Z.of_nat k)) Free); lia.
Qed.

(** When the scan stops with [free == _n_frames], it has found a run of
    [_n_frames] free frames inside the pool, starting at [start]. *)
Lemma scan_found p n count :
  forall fno free fr st,
    1 <= n -> 0 <= free <= fno -> free <> n ->
    fno + Z.of_nat count <= 2 ^ 31 ->
    (forall f, fno - free <= f < fno -> get_state p f = Free) ->
    scan p n count fno free = (fr, st) -> fr = n ->
    0 <= st /\ st + n <= fno + Z.of_nat count
    /\ (forall f, st <= f < st + n -> get_state p f = Free).
Proof.
  induction count as [| k IH]; intros fno free fr st Hn Hfree Hne Hb Hrun Hscan Hfr.
  - cbn [scan] in Hscan. congruence.
  - cbn [scan] in Hscan.
    destruct (FrameState_eqb (get_state p fno) Free) eqn:Es.
    + apply FrameState_eqb_eq in Es.
      rewrite (u32_small (free + 1)) in Hscan by lia.
      destruct (Z.eqb_spec (free + 1) n) as [E | E].
      * inversion Hscan; subst fr st. rewrite u32_small by lia.
        split; [lia |]. split; [lia |].
        intros f Hf. destruct (Z.eq_dec f fno) as [-> | Hd]; [exact Es |].
        apply Hrun. lia.
      * assert (Hrun' : forall f, fno + 1 - (free + 1) <= f < fno + 1 ->
                                 get_state p f = Free).
        { intros f Hf. destruct (Z.eq_dec f fno) as [-> | Hd]; [exact Es |].
          apply Hrun. lia. }
        destruct (IH (fno + 1) (free + 1) fr st Hn ltac:(lia) E ltac:(lia)
                    Hrun' Hscan Hfr) as (H1 & H2 & H3).
        split; [exact H1 |]. split; [lia | exact H3].
    + destruct (Z.eqb_spec 0 n) as [E | E]; [lia |].
      assert (Hrun' : forall f, fno + 1 - 0 <= f < fno + 1 -> get_state p f = Free)
        by (intros; lia).
      destruct (IH (fno + 1) 0 fr st Hn ltac:(lia) ltac:(lia) ltac:(lia)
                  Hrun' Hscan Hfr) as (H1 & H2 & H3).
      split; [exact H1 |]. split; [lia | exact H3].
Qed.

(** What a successful [get_frames] did. *)
Lemma get_frames_success p n :
  0 <= nframes p <= 2 ^ 31 -> 0 <= nFreeFrames p < 2 ^ 32 -> 1 <= n ->
  snd (get_frames p n) <> 0 ->
  exists start,
    0 <= start /\ start + n <= nframes p /\ n <= nFreeFrames p
    /\ (forall f, start <= f < start + n -> get_state p f = Free)
    /\ get_frames p n =
       (mkPool (base_frame_no p) (nframes p) (nFreeFrames p - n)
               (info_frame_no p)
               (set_state_mem
                  (set_states (Z.to_nat n) start Used (bitmap p)) start HoS),
        u32 (start + base_frame_no p)).
Proof.
  intros Hnf Hfree Hn Hr. unfold get_frames in *.
  destruct (Z.gtb_spec n (nFreeFrames p)) as [Hgt | Hle]; [now cbn in Hr |].
  destruct (scan p n (Z.to_nat (nframes p)) 0 0) as [fr st] eqn:Hscan.
  destruct (Z.eqb_spec fr n) as [Hfr | Hfr]; cbn [negb] in *; [| now cbn in Hr].
  destruct (scan_found p n (Z.to_nat (nframes p)) 0 0 fr st Hn ltac:(lia)
              ltac:(lia) ltac:(lia) ltac:(intros; lia) Hscan Hfr)
    as (H1 & H2 & H3).
  exists st. rewrite Z.add_0_l, Z2Nat.id in H2 by lia.
  split; [exact H1 |]. split; [exact H2 |]. split; [exact Hle |].
  split; [exact H3 |].
  rewrite (u32_small (st + n)), (u32_small (nFreeFrames p - n)) by lia.
  replace (st + n - st) with n by lia. reflexivity.
Qed.

Lemma in_range_ltb q f :
  ~ in_range q f -> (u32 (f - base_frame_no q) <? nframes q) = false.
Proof. unfold in_range. intros H. apply Z.ltb_ge. lia. Qed.

(** Pools laid out over disjoint frame ranges do not claim each other's
    frames: the unsigned subtraction in the range test wraps to a large
    number for a frame below the pool. *)
Lemma disjoint_not_in_range q p f :
  0 <= base_frame_no q -> 0 <= nframes q ->
  base_frame_no q + nframes q <= 2 ^ 32 ->
  0 <= base_frame_no p -> base_frame_no p + nframes p <= 2 ^ 32 ->
  base_frame_no q + nframes q <= base_frame_no p
  \/ base_frame_no p + nframes p <= base_frame_no q ->
  base_frame_no p <= f < base_frame_no p + nframes p ->
  ~ in_range q f.
Proof.
  intros Hq0 Hqn Hq1 Hp0 Hp1 Hd Hf. unfold in_range, u32.
  destruct (Z_lt_le_dec f (base_frame_no q)) as [Hlt | Hge].
  - replace ((f - base_frame_no q) mod 2 ^ 32)
      with (f - base_frame_no q + 2 ^ 32); [lia |].
    apply Z.mod_unique with (q := -1); lia.
  - rewrite Z.mod_small by lia. lia.
Qed.

(** The walk over the registry passes the pools that do not own the frame. *)
Lemma release_frames_skip pre rest f :
  Forall (fun q => ~ in_range q f) pre ->
  release_frames (pre ++ rest) f = (pre ++.) <$> release_frames rest f.
Proof.
  induction 1 as [| q pre Hq Hpre IH]; cbn [app release_frames].
  - now destruct (release_frames rest f).
  - rewrite (in_range_ltb q f Hq), IH.
    now destruct (release_frames rest f).
Qed.

Lemma u32_add_sub a b : 0 <= a < 2 ^ 32 -> u32 (u32 (a + b) - b) = a.
Proof.
  intros Ha. unfold u32. rewrite Zminus_mod_idemp_l.
  replace (a + b - b) with a by lia. apply Z.mod_small. lia.
Qed.

(** Allocation followed by release of the returned frame number, in a
    registry where no pool registered ahead of [p] owns that number. *)
Lemma get_then_release pre p post n :
  pool_inv p -> 1 <= n < 2 ^ 32 ->
  Forall (fun q => ~ in_range q (snd (get_frames p n))) pre ->
  snd (get_frames p n) <> 0 ->
  exists p2,
    release_frames (pre ++ fst (get_frames p n) :: post) (snd (get_frames p n))
    = Some (pre ++ p2 :: post)
    /\ nFreeFrames p2 = nFreeFrames p
    /\ (forall f, 0 <= f < nframes p -> get_state p2 f = get_state p f).
Proof.
  intros [Hb Hnf Htop Hcount Hseq] Hn Hpre Hr.
  pose proof (count_free_range p (Z.to_nat (nframes p))) as Hc.
  rewrite <- Hcount, Z2Nat.id in Hc by lia.
  destruct (get_frames_success p n ltac:(lia) ltac:(lia) ltac:(lia) Hr)
    as (st & H1 & H2 & H3 & H4 & E).
  rewrite release_frames_skip by exact Hpre.
  rewrite E in *. cbn [fst snd] in *. cbn [release_frames base_frame_no nframes].
  rewrite u32_add_sub by lia.
  replace (st <? nframes p) with true by (symmetry; apply Z.ltb_lt; lia).
  unfold _release_frames, _release_frames_traced.
  set (p1 := mkPool _ _ _ _ _).
  assert (G : forall f, 0 <= f < 2 ^ 31 ->
            get_state p1 f =
            if Z.eq_dec f st then HoS
            else if (st <=? f) && (f <? st + n) then Used else get_state p f).
  { intros f Hf. unfold get_state, p1. cbn [bitmap].
    destruct (Z.eq_dec f st) as [-> | Hd]; [apply get_set_same |].
    rewrite get_set_other by lia. rewrite get_set_states by lia.
    now rewrite Z2Nat.id by lia. }
  rewrite G by lia. destruct (Z.eq_dec st st) as [_ | ?]; [| contradiction].
  cbn [FrameState_eqb negb].
  assert (Hnf1 : nframes p1 = nframes p) by reflexivity.
  assert (Hrun : forall f, st < f <= st + Z.of_nat (Z.to_nat (n - 1)) ->
                           get_state p1 f = Used /\ f < nframes p1).
  { intros f Hf. rewrite G by lia. destruct (Z.eq_dec f st); [lia |].
    destruct (Z.leb_spec st f), (Z.ltb_spec f (st + n)); cbn [andb]; try lia.
    split; [reflexivity | rewrite Hnf1; lia]. }
  assert (Hstop : get_state p1 (st + Z.of_nat (Z.to_nat (n - 1)) + 1) <> Used
                  \/ nframes p1 <= st + Z.of_nat (Z.to_nat (n - 1)) + 1).
  { rewrite Z2Nat.id by lia. replace (st + (n - 1) + 1) with (st + n) by lia.
    rewrite Hnf1.
    destruct (Z_lt_le_dec (st + n) (nframes p)) as [Hlt | Hge]; [left | right; lia].
    rewrite G by lia. destruct (Z.eq_dec (st + n) st); [lia |].
    destruct (Z.leb_spec st (st + n)), (Z.ltb_spec (st + n) (st + n));
      cbn [andb]; try lia.
    intros Hu. destruct (Hseq (st + n) ltac:(lia) Hu) as [_ Hp].
    apply Hp. apply H4. lia. }
  rewrite (release_loop_run (Z.to_nat (n - 1)) (S (Z.to_nat (nframes p1))) p1 st
             [st] ltac:(rewrite Hnf1; lia) H1 ltac:(lia) Hrun Hstop).
  cbn [fmap option_fmap option_map fst mbind option_bind].
  eexists. split; [reflexivity |]. split.
  - unfold p1. cbn [nFreeFrames]. rewrite Z2Nat.id by lia.
    rewrite u32_small by lia. lia.
  - intros f Hf. unfold get_state at 1. cbn [bitmap].
    rewrite get_set_states by lia.
    destruct (Z.leb_spec st f), (Z.ltb_spec f (st + Z.of_nat (S (Z.to_nat (n - 1)))));
      cbn [andb]; [symmetry; apply H4; lia | | |];
      change (get_state_mem (bitmap p1) f) with (get_state p1 f);
      rewrite G by lia; (destruct (Z.eq_dec f st); [lia |]);
      destruct (Z.leb_spec st f), (Z.ltb_spec f (st + n)); cbn [andb]; try lia;
      reflexivity.
Qed.

(** C7.  On a pool that satisfies the invariants, a successful
    [get_frames(n)] with [n >= 1] followed by [release_frames] of the frame
    number it returned leaves [nFreeFrames] as it was before the allocation.
    The pool sits anywhere in the registry, behind pools that do not own the
    returned frame number. *)
Theorem get_frames_release_frames_nFreeFrames pre p post n :
  pool_inv p -> 1 <= n < 2 ^ 32 ->
  Forall (fun q => ~ in_range q (snd (get_frames p n))) pre ->
  snd (get_frames p n) <> 0 ->
  exists p2,
    release_frames (pre ++ fst (get_frames p n) :: post) (snd (get_frames p n))
    = Some (pre ++ p2 :: post)
    /\ nFreeFrames p2 = nFreeFrames p.
Proof.
  intros Hinv Hn Hpre Hr.
  destruct (get_then_release pre p post n Hinv Hn Hpre Hr) as (p2 & E & Hf & _).
  exists p2. split; [exact E | exact Hf].
Qed.

(** Two small pools, the one allocated from registered second. *)
Lemma get_frames_release_frames_nFreeFrames_witness :
  let q := init (fun _ => 0) 2048 4 514 in
  let p := init (fun _ => 0) 1024 4 513 in
  (pool_inv p /\ 1 <= 2 < 2 ^ 32
   /\ Forall (fun q => ~ in_range q (snd (get_frames p 2))) [q]
   /\ snd (get_frames p 2) <> 0)
  /\ exists p2,
       release_frames ([q] ++ fst (get_frames p 2) :: []) (snd (get_frames p 2))
       = Some ([q] ++ p2 :: [])
       /\ nFreeFrames p2 = nFreeFrames p.
Proof.
  intros q p.
  assert (Hinv : pool_inv p).
  { constructor.
    - vm_compute. discriminate.
    - vm_compute. discriminate.
    - vm_compute. discriminate.
    - vm_compute. reflexivity.
    - intros f Hf Hu. change (nframes p) with 4 in Hf.
      assert (f = 0 \/ f = 1 \/ f = 2 \/ f = 3) as Hc by lia.
      destruct Hc as [-> | [-> | [-> | ->]]]; vm_compute in Hu; discriminate. }
  assert (Hn : 1 <= 2 < 2 ^ 32) by lia.
  assert (Hpre : Forall (fun q => ~ in_range q (snd (get_frames p 2))) [q]).
  { constructor; [| constructor]. vm_compute. discriminate. }
  assert (Hr : snd (get_frames p 2) <> 0) by (vm_compute; discriminate).
  split; [auto |].
  exact (get_frames_release_frames_nFreeFrames [q] p [] 2 Hinv Hn Hpre Hr).
Defined.

End GetRelease.

(** ** The page table: [free_page] *)

Section FreePage.
Import PT.

Lemma release_frames_owner pre pp post f :
  Forall (fun q => ~ CFP.in_range q f) pre -> CFP.in_range pp f ->
  CFP.release_frames (pre ++ pp :: post) f =
  (fun pp' => pre ++ pp' :: post)
    <$> CFP._release_frames pp (u32 (f - CFP.base_frame_no pp)).
Proof.
  intros Hpre Hin. rewrite release_frames_skip by exact Hpre.
  cbn [CFP.release_frames].
  replace (u32 (f - CFP.base_frame_no pp) <? CFP.nframes pp) with true
    by (symmetry; apply Z.ltb_lt; exact Hin).
  now destruct (CFP._release_frames pp (u32 (f - CFP.base_frame_no pp))).
Qed.

(** What [free_page] does, in both variants of page_table.C. *)
Lemma free_page_effect v this _page_no s :
  CFP.pools_ok (frame_pools s) ->
  let addr := PTE_address _page_no in
  (Z.land (mem s addr) 1 = 0 -> free_page v this _page_no s = Some s)
  /\ (Z.land (mem s addr) 1 <> 0 ->
      exists pools' s',
        CFP.release_frames (frame_pools s) (mem s addr / PAGE_SIZE) = Some pools'
        /\ CFP.pools_ok pools'
        /\ free_page v this _page_no s = Some s'
        /\ frame_pools s' = pools'
        /\ mem s' addr = 2
        /\ (forall a, a <> addr -> mem s' a = mem s a)
        /\ cr3 s' = page_directory this
        /\ tlb_flushes s' = S (tlb_flushes s)).
Proof.
  intros Hok addr. unfold free_page. fold addr. split.
  - intros H. rewrite H. reflexivity.
  - intros H. destruct (Z.eqb_spec (Z.land (mem s addr) 1) 0) as [E | _]; [contradiction |].
    destruct (release_frames_total (frame_pools s) (mem s addr / PAGE_SIZE) Hok)
      as (pools' & E & Hok').
    rewrite E. cbn [mbind option_bind].
    exists pools'. eexists. split; [reflexivity |]. split; [exact Hok' |].
    split; [reflexivity |].
    destruct v; cbn [load write_cr3 frame_pools mem cr3 tlb_flushes];
      (split; [reflexivity |]); (split; [unfold store; now rewrite Z.eqb_refl |]);
      (split; [| split; reflexivity]);
      intros a Ha; unfold store;
      (destruct (Z.eqb_spec a addr); [contradiction | reflexivity]).
Qed.

End FreePage.

(** ** The VM pool: [allocate] *)

Section Allocate.
Import VMP.

Lemma find_slot_none P arr idx :
  Forall (fun r => P r = false) arr -> find_slot P arr idx = None.
Proof.
  intros H. revert idx. induction H as [| r arr Hr _ IH]; intros idx;
    cbn [find_slot]; [reflexivity |].
  rewrite Hr. apply IH.
Qed.

(** Below the size limit, the adjusted size is the rounded-up request. *)
Lemma adj_size_round_up s :
  0 <= s -> s + PT.PAGE_SIZE - 1 < 2 ^ 32 ->
  u32 (u32 (s + PT.PAGE_SIZE - 1) / PT.PAGE_SIZE * PT.PAGE_SIZE) = round_up s.
Proof.
  intros H0 H1. unfold round_up, PT.PAGE_SIZE in *.
  rewrite (u32_small (s + 4096 - 1)) by lia.
  apply u32_small. Z.div_mod_to_equations. lia.
Qed.

Lemma allocate_invalid_size vp s :
  2 * PT.PAGE_SIZE < size vp < 2 ^ 32 ->
  s = 0 \/ s > size vp - 2 * PT.PAGE_SIZE ->
  allocate vp s = (vp, 0, Some INVALID_SIZE).
Proof.
  intros Hsz Hs. unfold allocate. rewrite u32_small by (unfold PT.PAGE_SIZE in *; lia).
  destruct Hs as [-> | Hs]; [reflexivity |].
  destruct (Z.gtb_spec s (size vp - 2 * PT.PAGE_SIZE)); [| lia].
  now rewrite orb_true_r.
Qed.

Lemma allocate_no_free_region vp s :
  2 * PT.PAGE_SIZE < size vp < 2 ^ 32 ->
  0 < s <= size vp - 2 * PT.PAGE_SIZE ->
  Forall (fun r => Region.size r < round_up s) (free vp) ->
  allocate vp s = (vp, 0, Some NO_FREE_REGION).
Proof.
  intros Hsz Hs Hfree. unfold allocate.
  rewrite u32_small by (unfold PT.PAGE_SIZE in *; lia).
  destruct (Z.eqb_spec s 0); [lia |].
  destruct (Z.gtb_spec s (size vp - 2 * PT.PAGE_SIZE)); [lia |].
  cbn [orb]. rewrite adj_size_round_up by (unfold PT.PAGE_SIZE in *; lia).
  rewrite find_slot_none; [reflexivity |].
  eapply Forall_impl; [exact Hfree |]. cbn beta. intros r Hr.
  destruct (Z.geb_spec (Region.size r) (round_up s)); [lia | reflexivity].
Qed.

Lemma allocate_boundary_size vp :
  2 * PT.PAGE_SIZE < size vp < 2 ^ 32 ->
  snd (allocate vp (size vp - 2 * PT.PAGE_SIZE)) <> Some INVALID_SIZE.
Proof.
  intros Hsz. unfold allocate.
  rewrite u32_small by (unfold PT.PAGE_SIZE in *; lia).
  destruct (Z.eqb_spec (size vp - 2 * PT.PAGE_SIZE) 0); [lia |].
  destruct (Z.gtb_spec (size vp - 2 * PT.PAGE_SIZE) (size vp - 2 * PT.PAGE_SIZE)); [lia |].
  cbn [orb].
  destruct (find_slot _ (free vp) 0); [| cbn; discriminate].
  destruct (find_slot _ (alloc vp) 0); cbn; discriminate.
Qed.

(** C9.  On a pool whose size passed the constructor's assertion, a request
    [s] that is zero, or larger than [size - 2*PAGE_SIZE], or for which every
    [free[]] slot is smaller than [s] rounded up to a page multiple, makes
    [allocate] return 0 with [alloc[]] and [free[]] (the whole pool)
    unchanged; the first two log [INVALID_SIZE], the third [NO_FREE_REGION].
    A request of exactly [size - 2*PAGE_SIZE] does not fail with
    [INVALID_SIZE]. *)
Theorem allocate_rejects vp s :
  2 * PT.PAGE_SIZE < size vp < 2 ^ 32 ->
  0 <= s < 2 ^ 32 ->
  (s = 0 \/ s > size vp - 2 * PT.PAGE_SIZE
   \/ Forall (fun r => Region.size r < round_up s) (free vp) ->
   exists e, allocate vp s = (vp, 0, Some e))
  /\ (s = 0 \/ s > size vp - 2 * PT.PAGE_SIZE ->
      allocate vp s = (vp, 0, Some INVALID_SIZE))
  /\ (0 < s <= size vp - 2 * PT.PAGE_SIZE ->
      Forall (fun r => Region.size r < round_up s) (free vp) ->
      allocate vp s = (vp, 0, Some NO_FREE_REGION))
  /\ snd (allocate vp (size vp - 2 * PT.PAGE_SIZE)) <> Some INVALID_SIZE.
Proof.
  intros Hsz Hs. split; [| split; [| split]].
  - intros H.
    destruct (Z.eq_dec s 0) as [E0 | N0].
    { exists INVALID_SIZE. apply allocate_invalid_size; auto. }
    destruct (Z_gt_le_dec s (size vp - 2 * PT.PAGE_SIZE)) as [Hgt | Hle].
    { exists INVALID_SIZE. apply allocate_invalid_size; auto. }
    destruct H as [H | [H | H]]; [lia | lia |].
    exists NO_FREE_REGION. apply allocate_no_free_region; auto. lia.
  - apply allocate_invalid_size. exact Hsz.
  - apply allocate_no_free_region. exact Hsz.
  - apply allocate_boundary_size. exact Hsz.
Qed.

(** A pool over [0x20000000, +256 MiB) right after construction. *)
Lemma allocate_rejects_witness :
  let vp := mkVMPool 0x20000000 (256 * 2 ^ 20) (PT.mkPT 0x202000)
              [Region.mk 0x20000000 0x2000; Region.mk 0 0]
              [Region.mk 0x20002000 (256 * 2 ^ 20 - 0x2000); Region.mk 0 0] in
  (2 * PT.PAGE_SIZE < size vp < 2 ^ 32 /\ 0 <= 0 < 2 ^ 32)
  /\ allocate vp 0 = (vp, 0, Some INVALID_SIZE)
  /\ snd (allocate vp (size vp - 2 * PT.PAGE_SIZE)) <> Some INVALID_SIZE.
Proof.
  intros vp.
  assert (H1 : 2 * PT.PAGE_SIZE < size vp < 2 ^ 32) by (vm_compute; auto).
  assert (H2 : 0 <= 0 < 2 ^ 32) by lia.
  split; [auto |].
  destruct (allocate_rejects vp 0 H1 H2) as (_ & Hi & _ & Hb).
  split; [apply Hi; left; reflexivity | exact Hb].
Defined.

End Allocate.

(** ** The VM pool: allocate, release, allocate *)

Section AllocReleaseAlloc.
Import VMP.

Lemma free_page_total v this a s :
  CFP.pools_ok (PT.frame_pools s) ->
  exists s', PT.free_page v this a s = Some s'
             /\ CFP.pools_ok (PT.frame_pools s').
Proof.
  intros Hok. destruct (free_page_effect v this a s Hok) as [H0 H1].
  destruct (Z.eq_dec (Z.land (PT.mem s (PT.PTE_address a)) 1) 0) as [E | E].
  - exists s. split; [apply H0; exact E | exact Hok].
  - destruct (H1 E) as (pools' & s' & _ & Hok' & Ef & Ep & _).
    exists s'. split; [exact Ef | now rewrite Ep].
Qed.

(** [release] on an address that is found in [alloc[]], with an empty
    [free[]] slot at hand. *)
Lemma release_found v vp a s idx i bound fuel :
  (a <? base_address vp) || (a >=? u32 (base_address vp + size vp)) = false ->
  find_slot (fun r => (a =? Region.base_address r) && (Region.size r >? 0))
            (alloc vp) 0 = Some idx ->
  find_slot (fun r => Region.size r =? 0) (free vp) 0 = Some i ->
  bound = u32 (a + Region.size (region_at (alloc vp) idx)) ->
  fuel = S (Z.to_nat ((bound - a) / PT.PAGE_SIZE)) ->
  release v vp a s =
  s' ← free_pages v fuel (page_table vp) a bound s;
  Some (mkVMPool (base_address vp) (size vp) (page_table vp)
          (<[idx := Region.mk (Region.base_address (region_at (alloc vp) idx)) 0]>
             (alloc vp))
          (<[i := Region.mk a (Region.size (region_at (alloc vp) idx))]> (free vp)),
        s', None).
Proof.
  intros Hb Ha Hf -> ->. unfold release. rewrite Hb, Ha, Hf. reflexivity.
Qed.

(** The page loop over a single page. *)
Lemma free_pages_one v k pt a bound s :
  a < bound -> bound <= u32 (a + PT.PAGE_SIZE) ->
  free_pages v (S k) pt a bound s = PT.free_page v pt a s.
Proof.
  intros H1 H2. cbn [free_pages].
  replace (a <? bound) with true by (symmetry; apply Z.ltb_lt; lia).
  destruct (PT.free_page v pt a s) as [s' |]; cbn [mbind option_bind]; [| reflexivity].
  destruct k; cbn [free_pages];
    (replace (u32 (a + PT.PAGE_SIZE) <? bound) with false
      by (symmetry; apply Z.ltb_ge; lia)); reflexivity.
Qed.

(** With at least three regions per array, and whatever the machine state
    makes of the [free_page] call: the sequence returns [0x20002000],
    [0x20003000] and then [0x20005000].  The released page went to
    [free[1]], and the first-fit scan of the last [allocate] stops at
    [free[0]], the remainder of the pool, which starts at [0x20005000]. *)
Lemma alloc_release_alloc_steps m v pt s s' :
  PT.free_page v pt 0x20002000 s = Some s' ->
  alloc_release_alloc (S (S (S m))) v pt s
  = Some (0x20002000, 0x20003000, 0x20005000).
Proof.
  intros E. unfold alloc_release_alloc.
  set (c := construct _ _ _ _). vm_compute in c. subst c.
  cbn [mbind option_bind].
  set (r1 := allocate _ 1). vm_compute in r1. subst r1. cbv beta iota zeta.
  set (r2 := allocate _ 0x2000). vm_compute in r2. subst r2. cbv beta iota zeta.
  rewrite (release_found v _ _ s 1%nat 1%nat 0x20003000 2)
    by (vm_compute; reflexivity).
  cbn [page_table].
  rewrite free_pages_one by (vm_compute; congruence).
  rewrite E. cbn [mbind option_bind].
  set (r3 := allocate _ 0x1000). vm_compute in r3. subst r3.
  reflexivity.
Qed.

Lemma alloc_release_alloc_None m v pt s :
  PT.free_page v pt 0x20002000 s = None ->
  alloc_release_alloc (S (S (S m))) v pt s = None.
Proof.
  intros E. unfold alloc_release_alloc.
  set (c := construct _ _ _ _). vm_compute in c. subst c.
  cbn [mbind option_bind].
  set (r1 := allocate _ 1). vm_compute in r1. subst r1. cbv beta iota zeta.
  set (r2 := allocate _ 0x2000). vm_compute in r2. subst r2. cbv beta iota zeta.
  rewrite (release_found v _ _ s 1%nat 1%nat 0x20003000 2)
    by (vm_compute; reflexivity).
  cbn [page_table].
  rewrite free_pages_one by (vm_compute; congruence).
  rewrite E. reflexivity.
Qed.

(** C3 (as the code has it).  For a pool constructed with base
    [0x20000000] and size 256 MiB, with room for at least three regions per
    array: [allocate(1)] returns [0x20002000], [allocate(0x2000)] returns
    [0x20003000], and after [release(0x20002000)] the call [allocate(0x1000)]
    returns [0x20005000]. *)
Theorem alloc_release_alloc_first_fit MAX_REGIONS v pt s :
  (3 <= MAX_REGIONS)%nat ->
  CFP.pools_ok (PT.frame_pools s) ->
  alloc_release_alloc MAX_REGIONS v pt s
  = Some (0x20002000, 0x20003000, 0x20005000).
Proof.
  intros HM Hok.
  destruct MAX_REGIONS as [| [| [| m]]]; try lia.
  destruct (free_page_total v pt 0x20002000 s Hok) as (s' & E & _).
  exact (alloc_release_alloc_steps m v pt s s' E).
Qed.

(** Three regions per array, and a machine on which no page is present. *)
Lemma alloc_release_alloc_first_fit_witness :
  let s := PT.mkMachine (fun _ => 2) 0x202000 0 [] None in
  ((3 <= 3)%nat /\ CFP.pools_ok (PT.frame_pools s))
  /\ alloc_release_alloc 3 PT.MultiPT (PT.mkPT 0x202000) s
     = Some (0x20002000, 0x20003000, 0x20005000).
Proof.
  intros s.
  assert (H1 : (3 <= 3)%nat) by lia.
  assert (H2 : CFP.pools_ok (PT.frame_pools s)) by constructor.
  split; [auto |].
  exact (alloc_release_alloc_first_fit 3 PT.MultiPT (PT.mkPT 0x202000) s H1 H2).
Defined.

(** C3, refuted as stated: whatever the capacity of the region arrays, the
    variant of the kernel and the machine state, the sequence does not
    return [0x20002000], [0x20003000], [0x20002000]. *)
Lemma alloc_release_alloc_not_reused :
  ~ (exists MAX_REGIONS v pt s,
        alloc_release_alloc MAX_REGIONS v pt s
        = Some (0x20002000, 0x20003000, 0x20002000)).
Proof.
  intros (M & v & pt & s & H).
  destruct M as [| [| [| m]]].
  - vm_compute in H. discriminate.
  - vm_compute in H. discriminate.
  - unfold alloc_release_alloc in H.
    set (c := construct _ _ _ _) in H. vm_compute in c. subst c.
    cbn [mbind option_bind] in H.
    set (r1 := allocate _ 1) in H. vm_compute in r1. subst r1.
    cbv beta iota zeta in H.
    set (r2 := allocate _ 0x2000) in H. vm_compute in r2. subst r2.
    cbv beta iota zeta in H.
    destruct (release v _ _ s) as [[[vp3 s'] e] |]; cbn [mbind option_bind] in H;
      [| discriminate].
    destruct (allocate vp3 0x1000) as [[vp4 a3] e3]. discriminate.
  - destruct (PT.free_page v pt 0x20002000 s) as [s' |] eqn:E.
    + rewrite (alloc_release_alloc_steps m v pt s s' E) in H. discriminate.
    + rewrite (alloc_release_alloc_None m v pt s E) in H. discriminate.
Qed.

End AllocReleaseAlloc.


(** ** The scheduler: queue and [terminate] *)

Section Scheduler.
Import Sched.

(** [enqueue] appends at the tail, for a live thread that is not queued and
    whose [next] is [NULL] (as it is after construction). *)
Lemma enqueue_appends s l t th :
  queue_is s l -> t ∉ l -> threads s !! t = Some th -> next th = None ->
  exists s', enqueue (Some t) s = Some s' /\ queue_is s' (l ++ [t])
             /\ current_thread s' = current_thread s.
Proof.
  intros [Hnd Hh Ht Hc] Hnotin Hlive Hnext. unfold enqueue.
  destruct (last l) as [tl |] eqn:Hlast; rewrite Ht.
  - pose proof (last_Some_elem_of _ _ Hlast) as Hin.
    assert (Hlen : l !! (length l - 1)%nat = Some tl).
    { rewrite <- Hlast, last_lookup. f_equal. lia. }
    destruct (Hc _ _ Hlen) as (thl & Hthl & _). rewrite Hthl.
    cbn [mbind option_bind]. eexists. split; [reflexivity |].
    split; [| reflexivity]. constructor; cbn [queue threads with_queue with_threads head tail].
    + apply NoDup_app. split; [exact Hnd |]. split; [| apply NoDup_singleton].
      intros x Hx Hx'. apply list_elem_of_singleton in Hx'. subst. contradiction.
    + rewrite Hh. destruct l; [discriminate | reflexivity].
    + now rewrite last_snoc.
    + intros i x Hi.
      assert (Hll : (0 < length l)%nat) by (destruct l; [discriminate | cbn; lia]).
      destruct (decide (i < length l)%nat) as [Hlt | Hge].
      * rewrite lookup_app_l in Hi by lia.
        destruct (Hc _ _ Hi) as (thx & Hthx & Hnx).
        destruct (decide (x = tl)) as [-> | Hne].
        -- assert (i = (length l - 1)%nat).
           { eapply NoDup_lookup; eauto. }
           subst i. rewrite lookup_insert_eq. eexists. split; [reflexivity |].
           cbn [next set_next]. replace (S (length l - 1)) with (length l) by lia.
           rewrite lookup_app_r by lia. now rewrite Nat.sub_diag.
        -- rewrite lookup_insert_ne by congruence. exists thx. split; [exact Hthx |].
           rewrite Hnx. destruct (decide (S i < length l)%nat).
           ++ now rewrite lookup_app_l by lia.
           ++ assert (i = (length l - 1)%nat) by lia. subst i. congruence.
      * rewrite lookup_app_r in Hi by lia.
        apply list_lookup_singleton_Some in Hi as [Hi <-].
        assert (i = length l) by lia. subst i.
        assert (t <> tl) by (intros ->; contradiction).
        rewrite lookup_insert_ne by congruence. exists th. split; [exact Hlive |].
        rewrite Hnext. symmetry. apply lookup_ge_None. rewrite length_app. cbn. lia.
  - apply last_None in Hlast. subst l. eexists. split; [reflexivity |].
    split; [| reflexivity]. constructor; cbn [queue threads with_queue head tail app].
    + apply NoDup_singleton.
    + reflexivity.
    + reflexivity.
    + intros i x Hi. destruct i; [| discriminate]. injection Hi as <-.
      exists th. split; [exact Hlive | exact Hnext].
Qed.

(** [dequeue] removes the head, and returns [NULL] on the empty queue. *)
Lemma dequeue_removes_head s l :
  queue_is s l ->
  match l with
  | [] => dequeue s = Some (None, s)
  | x :: l' =>
    exists s', dequeue s = Some (Some x, s') /\ queue_is s' l'
               /\ threads s' = threads s
  end.
Proof.
  intros [Hnd Hh Ht Hc]. unfold dequeue. destruct l as [| x l'].
  - rewrite Hh. reflexivity.
  - rewrite Hh. cbn [lookup list_lookup].
    destruct (Hc 0%nat x eq_refl) as (th & Hth & Hnx). rewrite Hth.
    cbn [mbind option_bind]. eexists. split; [reflexivity |].
    split; [| reflexivity]. cbn [head tail]. rewrite Hnx.
    apply NoDup_cons in Hnd as [Hx Hnd'].
    destruct l' as [| y l'']; cbn [lookup list_lookup].
    + constructor; cbn [queue with_queue head tail threads]; try reflexivity.
      * constructor.
      * intros i z Hi. discriminate.
    + constructor; cbn [queue with_queue head tail threads].
      * exact Hnd'.
      * reflexivity.
      * rewrite Ht. reflexivity.
      * intros i z Hi. apply (Hc (S i) z). exact Hi.
Qed.


Lemma chain_length thr l : chain thr l -> NoDup l -> (length l <= base.size thr)%nat.
Proof.
  intros Hc Hnd.
  rewrite <- (size_dom thr).
  rewrite <- (size_list_to_set (C := gset nat) l Hnd).
  apply subseteq_size. intros x Hx. apply elem_of_list_to_set in Hx.
  apply list_elem_of_lookup in Hx as [i Hi].
  destruct (Hc i x Hi) as (th & Hth & _). apply elem_of_dom. eauto.
Qed.

(** The walk of [terminate] finds the predecessor of a queued thread that
    is not the head. *)
Lemma find_prev_found thr pre p t post :
  let l := pre ++ p :: t :: post in
  chain thr l -> NoDup l ->
  forall k i fuel,
    (i + k = length pre)%nat -> (k <= fuel)%nat ->
    find_prev fuel thr (l !! i) t = Some (Some p).
Proof.
  intros l Hc Hnd.
  assert (Hp : l !! length pre = Some p).
  { unfold l. rewrite lookup_app_r by lia. now rewrite Nat.sub_diag. }
  assert (Ht : l !! S (length pre) = Some t).
  { unfold l. rewrite lookup_app_r by lia.
    now replace (S (length pre) - length pre)%nat with 1%nat by lia. }
  induction k as [| k IH]; intros i fuel Hi Hfuel.
  - assert (i = length pre) by lia. subst i. rewrite Hp.
    destruct (Hc _ _ Hp) as (th & Hth & Hnx).
    destruct fuel; cbn [find_prev]; rewrite Hth; cbn [mbind option_bind];
      rewrite Hnx, Ht; (destruct (decide (Some t = Some t)); [reflexivity | contradiction]).
  - destruct fuel as [| fuel]; [lia |].
    assert (His : is_Some (l !! i)).
    { apply lookup_lt_is_Some. unfold l. rewrite length_app. cbn. lia. }
    destruct His as [x Hx]. rewrite Hx.
    destruct (Hc _ _ Hx) as (th & Hth & Hnx).
    cbn [find_prev]. rewrite Hth. cbn [mbind option_bind].
    destruct (decide (next th = Some t)) as [E | _].
    + rewrite Hnx in E.
      assert (S i = S (length pre)) by (eapply NoDup_lookup; eauto). lia.
    + rewrite Hnx. apply IH; lia.
Qed.

(** The walk of [terminate] for the head of the queue runs off the end. *)
Lemma find_prev_head thr l t :
  chain thr l -> NoDup l -> l !! 0%nat = Some t ->
  forall k i fuel,
    (i + k = length l)%nat -> (k <= fuel)%nat ->
    find_prev fuel thr (l !! i) t = Some None.
Proof.
  intros Hc Hnd H0.
  induction k as [| k IH]; intros i fuel Hi Hfuel.
  - rewrite (proj2 (lookup_ge_None l i)) by lia. now destruct fuel.
  - destruct fuel as [| fuel]; [lia |].
    assert (His : is_Some (l !! i)) by (apply lookup_lt_is_Some; lia).
    destruct His as [x Hx]. rewrite Hx.
    destruct (Hc _ _ Hx) as (th & Hth & Hnx).
    cbn [find_prev]. rewrite Hth. cbn [mbind option_bind].
    destruct (decide (next th = Some t)) as [E | _].
    + rewrite Hnx in E.
      assert (S i = 0%nat) by (eapply NoDup_lookup; eauto). lia.
    + rewrite Hnx. apply IH; lia.
Qed.

(** In a queue of two or more, head and tail differ. *)
Lemma head_tail_differ s x y l :
  queue_is s (x :: y :: l) -> head (queue s) <> tail (queue s).
Proof.
  intros [Hnd Hh Ht _]. rewrite Hh, Ht. cbn [lookup list_lookup].
  rewrite last_cons_cons. intros E. symmetry in E.
  apply last_Some_elem_of in E. apply NoDup_cons in Hnd as [Hx _]. contradiction.
Qed.

(** [terminate] on the head of a queue of two or more threads returns
    without unlinking or destroying it. *)
Lemma terminate_head s x y l :
  queue_is s (x :: y :: l) -> current_thread s <> Some x ->
  terminate (Some x) s = Some (Some x, mask s).
Proof.
  intros Hq Hcur. pose proof (head_tail_differ s x y l Hq) as Hne.
  destruct Hq as [Hnd Hh Ht Hc]. unfold terminate.
  cbn [mask with_interrupts current_thread queue threads].
  destruct (decide (Some x = current_thread s)); [congruence |].
  destruct (decide (head (queue s) = tail (queue s))); [contradiction |].
  rewrite Hh.
  rewrite (find_prev_head (threads s) (x :: y :: l) x Hc Hnd eq_refl
             (length (x :: y :: l)) 0 _ eq_refl (chain_length _ _ Hc Hnd)).
  reflexivity.
Qed.

(** [terminate] on the only queued thread destroys it and empties the
    queue; this path returns with interrupts still masked. *)
Lemma terminate_single s t :
  queue_is s [t] -> current_thread s <> Some t ->
  exists s',
    terminate (Some t) s = Some (None, s')
    /\ queue_is s' []
    /\ threads s' !! t = None
    /\ interrupts_enabled s' = false.
Proof.
  intros [Hnd Hh Ht Hc] Hcur. unfold terminate.
  cbn [mask with_interrupts current_thread queue threads].
  destruct (decide (Some t = current_thread s)); [congruence |].
  rewrite Hh, Ht. cbn [lookup list_lookup last].
  destruct (decide (Some t = Some t)); [| contradiction].
  destruct (Hc 0%nat t eq_refl) as (th & Hth & _).
  unfold destroy. change (threads (mask s)) with (threads s).
  rewrite Hth. cbn [mbind option_bind].
  eexists. split; [reflexivity |]. split; [| split; [| reflexivity]].
  - constructor; cbn [queue with_queue head tail]; try reflexivity.
    + constructor.
    + intros i x Hi. discriminate.
  - cbn [threads with_queue with_threads]. apply lookup_delete_eq.
Qed.

Lemma lookup_remove_le (pre post : list nat) p t i :
  (i <= length pre)%nat ->
  (pre ++ p :: post) !! i = (pre ++ p :: t :: post) !! i.
Proof.
  intros Hi. destruct (decide (i < length pre)%nat).
  - now rewrite !lookup_app_l by lia.
  - rewrite !lookup_app_r by lia.
    now replace (i - length pre)%nat with 0%nat by lia.
Qed.

Lemma lookup_remove_gt (pre post : list nat) p t i :
  (length pre < i)%nat ->
  (pre ++ p :: post) !! i = (pre ++ p :: t :: post) !! S i.
Proof.
  intros Hi. rewrite !lookup_app_r by lia.
  replace (S i - length pre)%nat with (S (i - length pre)) by lia.
  destruct (i - length pre)%nat eqn:E; [lia | reflexivity].
Qed.

(** [terminate] on a queued thread other than the head unlinks it, destroys
    it, and keeps the others in their order. *)
Lemma terminate_queued s pre p t post :
  queue_is s (pre ++ p :: t :: post) -> current_thread s <> Some t ->
  exists s',
    terminate (Some t) s = Some (None, s')
    /\ queue_is s' (pre ++ p :: post)
    /\ threads s' !! t = None
    /\ interrupts_enabled s' = true.
Proof.
  intros Hq Hcur. set (l := pre ++ p :: t :: post) in *.
  assert (Hne : head (queue s) <> tail (queue s)).
  { destruct pre as [| h pre']; [apply (head_tail_differ s p t post Hq) |].
    destruct pre' as [| h' pre''];
      [apply (head_tail_differ s h p (t :: post) Hq)
      | apply (head_tail_differ s h h' (pre'' ++ p :: t :: post) Hq)]. }
  destruct Hq as [Hnd Hh Ht Hc]. unfold terminate.
  cbn [mask with_interrupts current_thread queue threads].
  destruct (decide (Some t = current_thread s)); [congruence |].
  destruct (decide (head (queue s) = tail (queue s))); [contradiction |].
  assert (Hlen : (length pre <= base.size (threads s))%nat).
  { pose proof (chain_length _ _ Hc Hnd) as Hl. unfold l in Hl.
    rewrite length_app in Hl. lia. }
  rewrite Hh.
  pose proof (find_prev_found (threads s) pre p t post Hc Hnd (length pre) 0%nat
                (base.size (threads s)) eq_refl Hlen) as Hfp.
  fold l in Hfp. rewrite Hfp. clear Hfp.
  cbn [mbind option_bind].
  assert (Hp : l !! length pre = Some p).
  { unfold l. rewrite lookup_app_r by lia. now rewrite Nat.sub_diag. }
  assert (Hti : l !! S (length pre) = Some t).
  { unfold l. rewrite lookup_app_r by lia.
    now replace (S (length pre) - length pre)%nat with 1%nat by lia. }
  destruct (Hc _ _ Hp) as (pth & Hpth & Hpn).
  destruct (Hc _ _ Hti) as (tth & Htth & Htn).
  assert (Hpt : p <> t).
  { intros ->. assert (length pre = S (length pre)) by (eapply NoDup_lookup; eauto). lia. }
  rewrite Hpth, Htth. cbn [mbind option_bind].
  unfold destroy.
  set (s2 := if decide (Some t = tail (queue (with_threads _ _))) then _ else _).
  assert (Hthr2 : threads s2 = <[p := set_next pth (next tth)]> (threads s)).
  { unfold s2. destruct (decide _); reflexivity. }
  rewrite Hthr2, lookup_insert_ne, Htth by congruence.
  cbn [mbind option_bind]. eexists. split; [reflexivity |].
  split; [| split; [| reflexivity]].
  - constructor; cbn [queue threads unmask with_interrupts with_threads].
    + unfold l in Hnd. rewrite NoDup_app in Hnd |- *.
      destruct Hnd as (H1 & H2 & H3). split; [exact H1 |].
      apply NoDup_cons in H3 as [H3 H4]. apply NoDup_cons in H4 as [H4 H5].
      split.
      * intros x Hx Hx'. apply (H2 x Hx). apply elem_of_cons in Hx' as [-> | Hx'];
          [left | right; right; exact Hx'].
      * apply NoDup_cons. split; [| exact H5].
        intros Hin. apply H3. right. exact Hin.
    + assert (Hq2 : head (queue s2) = head (queue s)).
      { unfold s2. destruct (decide _); reflexivity. }
      change (head (queue s2) = (pre ++ p :: post) !! 0%nat).
      rewrite Hq2, Hh. symmetry. apply lookup_remove_le. lia.
    + unfold s2.
      change (queue (with_threads (mask s)
                (<[p:=set_next pth (next tth)]> (threads s)))) with (queue s).
      rewrite Ht. unfold l. rewrite !last_app_cons.
      destruct post as [| z post'].
      * cbn [last]. destruct (decide (Some t = Some t)); [reflexivity | contradiction].
      * rewrite !last_cons_cons.
        destruct (decide (Some t = last (z :: post'))) as [E | _].
        2:{ change (tail (queue s) = last (z :: post')).
            rewrite Ht. unfold l. now rewrite last_app_cons, !last_cons_cons. }
        symmetry in E. apply last_Some_elem_of in E.
        unfold l in Hnd. apply NoDup_app in Hnd as (_ & _ & H3).
        apply NoDup_cons in H3 as [_ H4]. apply NoDup_cons in H4 as [H4 _].
        contradiction.
    + intros i x Hi.
      destruct (decide (i <= length pre)%nat) as [Hle | Hgt].
      * rewrite lookup_remove_le with (t := t) in Hi by lia. fold l in Hi.
        destruct (decide (x = p)) as [-> | Hxp].
        -- assert (i = length pre) by (eapply NoDup_lookup; eauto). subst i.
           rewrite lookup_delete_ne, lookup_insert_eq by congruence.
           eexists. split; [reflexivity |]. cbn [next set_next].
           rewrite Htn. symmetry. apply lookup_remove_gt. lia.
        -- assert (Hxt : x <> t).
           { intros ->. assert (i = S (length pre)) by (eapply NoDup_lookup; eauto). lia. }
           rewrite lookup_delete_ne, lookup_insert_ne by congruence.
           destruct (Hc _ _ Hi) as (th & Hth & Hnx). exists th.
           split; [exact Hth |]. rewrite Hnx. symmetry.
           assert (i <> length pre) by (intros ->; congruence).
           apply lookup_remove_le. lia.
      * rewrite lookup_remove_gt with (t := t) in Hi by lia. fold l in Hi.
        assert (Hxp : x <> p).
        { intros ->. assert (S i = length pre) by (eapply NoDup_lookup; eauto). lia. }
        assert (Hxt : x <> t).
        { intros ->. assert (S i = S (length pre)) by (eapply NoDup_lookup; eauto). lia. }
        rewrite lookup_delete_ne, lookup_insert_ne by congruence.
        destruct (Hc _ _ Hi) as (th & Hth & Hnx). exists th.
        split; [exact Hth |]. rewrite Hnx. symmetry.
        apply lookup_remove_gt. lia.
  - cbn [threads unmask with_interrupts with_threads]. apply lookup_delete_eq.
Qed.

(** A queue of two freshly constructed threads is well formed, so the
    lemmas above apply to it. *)
Example queue_of_two_threads :
  let tcb := mkThread None None in
  let s0 := mkSched {[ 1%nat := tcb; 2%nat := tcb; 3%nat := tcb; 9%nat := tcb ]}
                    (mkQueue None None) (Some 3%nat) 9 true true in
  exists s2,
    (s1 ← enqueue (Some 1%nat) s0; enqueue (Some 2%nat) s1) = Some s2
    /\ queue_is s2 [1%nat; 2%nat]
    /\ terminate (Some 1%nat) s2 = Some (Some 1%nat, mask s2).
Proof.
  intros tcb s0.
  assert (H0 : queue_is s0 []).
  { constructor; try reflexivity; [constructor | intros i x Hi; discriminate]. }
  destruct (enqueue_appends s0 [] 1%nat tcb H0) as (s1 & E1 & H1 & C1);
    [apply not_elem_of_nil | reflexivity | reflexivity |].
  assert (T1 : threads s1 !! 2%nat = Some tcb).
  { vm_compute in E1. injection E1 as <-. reflexivity. }
  destruct (enqueue_appends s1 [1%nat] 2%nat tcb H1) as (s2 & E2 & H2 & C2);
    [rewrite list_elem_of_singleton; discriminate | exact T1 | reflexivity |].
  exists s2. rewrite E1. cbn [mbind option_bind]. split; [exact E2 |].
  split; [exact H2 |].
  apply (terminate_head s2 1%nat 2%nat [] H2).
  rewrite C2, C1. discriminate.
Qed.

(** C2, on a sequence that re-enqueues a dequeued thread.  Threads 1 and 2
    are enqueued, thread 1 is dequeued and enqueued again, and then
    [dequeue] is called three times.  The first two of these return 2 and 1,
    in FIFO order, and the queue then holds no thread; the third returns
    thread 2 instead of [NULL].  [enqueue] does not clear the [next] field of
    the thread it appends, and [dequeue] does not clear that of the thread it
    removes, so thread 1 came back with [next] still designating thread 2. *)
Theorem reenqueue_breaks_fifo :
  let tcb := mkThread None None in
  let s0 := mkSched {[ 1%nat := tcb; 2%nat := tcb; 9%nat := tcb ]}
                    (mkQueue None None) None 9 true false in
  (s1 ← enqueue (Some 1%nat) s0;
   s2 ← enqueue (Some 2%nat) s1;
   '(d1, s3) ← dequeue s2;
   s4 ← enqueue (Some 1%nat) s3;
   '(d2, s5) ← dequeue s4;
   '(d3, s6) ← dequeue s5;
   '(d4, s7) ← dequeue s6;
   Some ([d1; d2; d3; d4], head (queue s6), next <$> threads s6 !! 1%nat))
  = Some ([Some 1%nat; Some 2%nat; Some 1%nat; Some 2%nat],
          Some 2%nat, Some (Some 2%nat)).
Proof. vm_compute. reflexivity. Qed.

(** C1, on the head of a queue of two.  Threads 1 and 2 are queued, thread
    3 is running.  [terminate(1)] returns with the queue as it was, thread 1
    still live and the caller's pointer not cleared (and interrupts left
    masked): the walk starts at the head and looks for a thread whose [next]
    is thread 1, which the head itself never is.  [terminate(2)] on the same
    state unlinks and destroys thread 2 and moves the tail to thread 1. *)
Theorem terminate_head_of_queue_not_unlinked :
  let tcb := mkThread None None in
  let s0 := mkSched {[ 1%nat := tcb; 2%nat := tcb; 3%nat := tcb; 9%nat := tcb ]}
                    (mkQueue None None) (Some 3%nat) 9 true true in
  exists s2,
    (s1 ← enqueue (Some 1%nat) s0; enqueue (Some 2%nat) s1) = Some s2
    /\ queue s2 = mkQueue (Some 1%nat) (Some 2%nat)
    /\ (exists s3,
          terminate (Some 1%nat) s2 = Some (Some 1%nat, s3)
          /\ queue s3 = queue s2
          /\ threads s3 = threads s2
          /\ threads s3 !! 1%nat = Some (mkThread (Some 2%nat) None)
          /\ interrupts_enabled s3 = false)
    /\ (exists s3,
          terminate (Some 2%nat) s2 = Some (None, s3)
          /\ queue s3 = mkQueue (Some 1%nat) (Some 1%nat)
          /\ threads s3 !! 2%nat = None
          /\ threads s3 !! 1%nat = Some (mkThread None None)
          /\ interrupts_enabled s3 = true).
Proof.
  intros tcb s0. eexists. split; [vm_compute; reflexivity |].
  split; [reflexivity |]. split.
  - eexists. split; [vm_compute; reflexivity |].
    repeat split; vm_compute; reflexivity.
  - eexists. split; [vm_compute; reflexivity |].
    repeat split; vm_compute; reflexivity.
Qed.

End Scheduler.

(** ** The frame pool: states, counting and the invariants *)

Section PoolInvariants.
Import CFP.

(** X1.  [set_state] followed by [get_state]: the frame written reads back
    the state written, every other frame reads back what it held, and the
    bookkeeping fields are untouched. *)
Theorem set_state_get_state p f g st :
  0 <= f < 2 ^ 31 -> 0 <= g < 2 ^ 31 ->
  get_state (set_state p f st) g = (if Z.eq_dec g f then st else get_state p g)
  /\ nFreeFrames (set_state p f st) = nFreeFrames p
  /\ nframes (set_state p f st) = nframes p
  /\ base_frame_no (set_state p f st) = base_frame_no p.
Proof.
  intros Hf Hg. split; [| repeat split].
  unfold get_state, set_state. cbn [bitmap with_bitmap].
  destruct (Z.eq_dec g f) as [-> | Hne]; [apply get_set_same |].
  apply get_set_other; lia.
Qed.

Lemma set_state_get_state_witness :
  let p := init (fun _ => 0) 512 512 0 in
  (0 <= 5 < 2 ^ 31 /\ 0 <= 6 < 2 ^ 31)
  /\ get_state (set_state p 5 Used) 5 = Used
  /\ get_state (set_state p 5 Used) 6 = get_state p 6.
Proof.
  intros p.
  assert (H1 : 0 <= 5 < 2 ^ 31) by lia.
  assert (H2 : 0 <= 6 < 2 ^ 31) by lia.
  split; [auto |].
  destruct (set_state_get_state p 5 5 Used H1 H1) as [E1 _].
  destruct (set_state_get_state p 5 6 Used H1 H2) as [E2 _].
  split; [exact E1 | exact E2].
Defined.

(** The number of info frames, bounded from both sides. *)
Lemma needed_info_frames_bounds n :
  0 <= n ->
  (n =? 0) = false -> 1 <= needed_info_frames n <= n.
Proof.
  intros Hn Hz. apply Z.eqb_neq in Hz.
  unfold needed_info_frames, INFO_FRAME_CAPACITY, FRAME_SIZE.
  change (4096 * 4) with 16384.
  destruct (Z.gtb_spec (n mod 16384) 0); Z.div_mod_to_equations; lia.
Qed.

Lemma needed_info_frames_le n :
  0 <= n -> 0 <= needed_info_frames n <= n.
Proof.
  intros Hn. destruct (Z.eqb_spec n 0) as [-> | Hne]; [vm_compute; split; discriminate |].
  pose proof (needed_info_frames_bounds n Hn ltac:(apply Z.eqb_neq; exact Hne)). lia.
Qed.

(** [needed_info_frames(n)] is [n / INFO_FRAME_CAPACITY] rounded up. *)
Lemma needed_info_frames_ceiling n :
  1 <= n ->
  (needed_info_frames n - 1) * INFO_FRAME_CAPACITY < n
  <= needed_info_frames n * INFO_FRAME_CAPACITY.
Proof.
  intros Hn. unfold needed_info_frames, INFO_FRAME_CAPACITY, FRAME_SIZE.
  change (4096 * 4) with 16384.
  destruct (Z.gtb_spec (n mod 16384) 0); Z.div_mod_to_equations; lia.
Qed.

(** Counting [Free] frames depends on the states only. *)
Lemma count_free_ext p q M :
  (forall f, 0 <= f < Z.of_nat M -> get_state q f = get_state p f) ->
  count_free q M = count_free p M.
Proof.
  induction M as [| M IH]; intros H; [reflexivity |].
  cbn [count_free]. rewrite IH by (intros; apply H; lia).
  rewrite H by lia. reflexivity.
Qed.

(** Taking the frames [[a, b)] out of the [Free] state lowers the count by
    their number. *)
Lemma count_free_mark p q a b M :
  0 <= a <= b ->
  (forall f, 0 <= f < Z.of_nat M -> ~ (a <= f < b) -> get_state q f = get_state p f) ->
  (forall f, a <= f < b -> f < Z.of_nat M ->
             get_state p f = Free /\ get_state q f <> Free) ->
  count_free q M = count_free p M - Z.max 0 (Z.min b (Z.of_nat M) - a).
Proof.
  intros Hab. induction M as [| M IH]; intros Hout Hin.
  - cbn [count_free]. lia.
  - cbn [count_free]. rewrite IH; [| intros; apply Hout; lia | intros; apply Hin; lia].
    destruct (Z_le_dec a (Z.of_nat M)) as [Ha | Ha];
      [destruct (Z_lt_dec (Z.of_nat M) b) as [Hb | Hb] |].
    + destruct (Hin (Z.of_nat M)) as [E1 E2]; try lia.
      rewrite E1. cbn [FrameState_eqb].
      apply FrameState_eqb_neq in E2. rewrite E2. lia.
    + rewrite Hout by lia.
      destruct (FrameState_eqb (get_state p (Z.of_nat M)) Free); lia.
    + rewrite Hout by lia.
      destruct (FrameState_eqb (get_state p (Z.of_nat M)) Free); lia.
Qed.

Lemma count_free_all_free p M :
  (forall f, 0 <= f < Z.of_nat M -> get_state p f = Free) ->
  count_free p M = Z.of_nat M.
Proof.
  induction M as [| M IH]; intros H; [reflexivity |].
  cbn [count_free]. rewrite IH by (intros; apply H; lia).
  rewrite H by lia. cbn [FrameState_eqb]. lia.
Qed.


(** The states that the constructor leaves behind, frame by frame. *)
Lemma init_states m0 b n i g :
  0 <= n <= 2 ^ 31 -> 0 <= g < n ->
  get_state (init m0 b n i) g =
  if i =? 0 then
    if g =? 0 then HoS
    else if g <? needed_info_frames n then Used else Free
  else Free.
Proof.
  intros Hn Hg. unfold init, get_state.
  destruct (needed_info_frames_le n ltac:(lia)) as [Hk0 Hkn].
  destruct (Z.eqb_spec i 0) as [Hi | Hi]; cbn [bitmap].
  - destruct (Z.eqb_spec g 0) as [-> | Hg0]; [apply get_set_same |].
    rewrite get_set_other by lia.
    rewrite get_set_states by lia.
    rewrite get_set_states by lia.
    rewrite !Z2Nat.id by lia.
    destruct (Z.leb_spec 0 g); [| lia]. cbn [andb].
    destruct (Z.ltb_spec g (0 + needed_info_frames n));
      destruct (Z.ltb_spec g (needed_info_frames n)); try lia; [reflexivity |].
    destruct (Z.ltb_spec g (0 + n)); [reflexivity | lia].
  - rewrite get_set_states by lia. rewrite Z2Nat.id by lia.
    destruct (Z.leb_spec 0 g); [| lia].
    destruct (Z.ltb_spec g (0 + n)); [reflexivity | lia].
Qed.

(** X2.  A pool constructed with its management information in a frame
    outside the pool ([_info_frame_no != 0]) has every frame [Free],
    counts them all, and satisfies the pool invariants. *)
Theorem init_external_info_frame m0 b n i :
  0 <= b -> 0 <= n -> b + n <= 2 ^ 20 -> i <> 0 ->
  (forall f, 0 <= f < n -> get_state (init m0 b n i) f = Free)
  /\ nFreeFrames (init m0 b n i) = n
  /\ pool_inv (init m0 b n i).
Proof.
  intros Hb Hn Htop Hi.
  assert (Hst : forall f, 0 <= f < n -> get_state (init m0 b n i) f = Free).
  { intros f Hf. rewrite init_states by lia.
    destruct (Z.eqb_spec i 0); [lia | reflexivity]. }
  assert (Hfields : base_frame_no (init m0 b n i) = b
                    /\ nframes (init m0 b n i) = n
                    /\ nFreeFrames (init m0 b n i) = n).
  { unfold init. destruct (Z.eqb_spec i 0); [lia |]. repeat split. }
  destruct Hfields as (Eb & En & Ef).
  split; [exact Hst |]. split; [exact Ef |].
  constructor; rewrite ?Eb, ?En, ?Ef; try lia.
  - rewrite count_free_all_free; [lia |].
    intros f Hf. apply Hst. lia.
  - intros f Hf HU. rewrite Hst in HU by lia. discriminate.
Qed.

Lemma init_external_info_frame_witness :
  let p := init (fun _ => 255) 1024 7168 513 in
  nFreeFrames p = 7168 /\ pool_inv p.
Proof.
  intros p.
  exact (proj2 (init_external_info_frame (fun _ => 255) 1024 7168 513
                  ltac:(lia) ltac:(lia) ltac:(lia) ltac:(lia))).
Defined.

(** X3.  A pool constructed with its management information inside the
    pool ([_info_frame_no == 0]) reserves its first
    [k = needed_info_frames(n)] frames as one sequence, [k] being
    [n / INFO_FRAME_CAPACITY] rounded up: frame 0 is [HoS], the other info
    frames are [Used], every later frame is [Free], [nFreeFrames] counts
    the later frames, and the pool invariants hold. *)
Theorem init_internal_info_frame m0 b n :
  0 <= b -> 1 <= n -> b + n <= 2 ^ 20 ->
  let p := init m0 b n 0 in
  let k := needed_info_frames n in
  (k - 1) * INFO_FRAME_CAPACITY < n <= k * INFO_FRAME_CAPACITY
  /\ 1 <= k <= n
  /\ get_state p 0 = HoS
  /\ (forall f, 1 <= f < k -> get_state p f = Used)
  /\ (forall f, k <= f < n -> get_state p f = Free)
  /\ nFreeFrames p = n - k
  /\ pool_inv p.
Proof.
  intros Hb Hn Htop p k.
  assert (Hkn : 1 <= k <= n).
  { apply needed_info_frames_bounds; [lia |]. apply Z.eqb_neq. lia. }
  assert (Hst : forall f, 0 <= f < n ->
            get_state p f = if f =? 0 then HoS else if f <? k then Used else Free).
  { intros f Hf. unfold p. rewrite init_states by lia. reflexivity. }
  assert (H0 : get_state p 0 = HoS) by (rewrite Hst by lia; reflexivity).
  assert (HU : forall f, 1 <= f < k -> get_state p f = Used).
  { intros f Hf. rewrite Hst by lia.
    destruct (Z.eqb_spec f 0); [lia |]. destruct (Z.ltb_spec f k); [easy | lia]. }
  assert (HF : forall f, k <= f < n -> get_state p f = Free).
  { intros f Hf. rewrite Hst by lia.
    destruct (Z.eqb_spec f 0); [lia |]. destruct (Z.ltb_spec f k); [lia | easy]. }
  assert (Ef : nFreeFrames p = n - k).
  { unfold p, init. cbn [Z.eqb nFreeFrames]. fold k. apply u32_small. lia. }
  split; [exact (needed_info_frames_ceiling n Hn) |].
  repeat (split; [assumption || lia |]).
  assert (Eb : base_frame_no p = b) by reflexivity.
  assert (En : nframes p = n) by reflexivity.
  constructor; rewrite ?Eb, ?En, ?Ef; try lia.
  - set (q := mkPool b n n 0 (set_states (Z.to_nat n) 0 Free m0)).
    rewrite (count_free_mark q p 0 k); try lia.
    + rewrite count_free_all_free.
      * rewrite Z2Nat.id by lia. lia.
      * intros f Hf. unfold q, get_state. cbn [bitmap].
        rewrite get_set_states by lia.
        destruct (Z.leb_spec 0 f); [| lia].
        destruct (Z.ltb_spec f (0 + Z.of_nat (Z.to_nat n))); [reflexivity | lia].
    + intros f Hf Hout. rewrite HF by lia. unfold q, get_state. cbn [bitmap].
      rewrite get_set_states by lia.
      destruct (Z.leb_spec 0 f); [| lia].
      destruct (Z.ltb_spec f (0 + Z.of_nat (Z.to_nat n))); [reflexivity | lia].
    + intros f Hf Hlt. split.
      * unfold q, get_state. cbn [bitmap]. rewrite get_set_states by lia.
        destruct (Z.leb_spec 0 f); [| lia].
        destruct (Z.ltb_spec f (0 + Z.of_nat (Z.to_nat n))); [reflexivity | lia].
      * destruct (Z.eq_dec f 0) as [-> | Hne]; [rewrite H0; discriminate |].
        rewrite HU by lia. discriminate.
  - intros f Hf Hused.
    destruct (Z.eq_dec f 0) as [-> | Hne]; [rewrite H0 in Hused; discriminate |].
    split; [lia |].
    destruct (Z_lt_dec f k) as [Hlt | Hge]; [| rewrite HF in Hused by lia; discriminate].
    destruct (Z.eq_dec (f - 1) 0) as [E | E]; [rewrite E, H0; discriminate |].
    rewrite HU by lia. discriminate.
Qed.

Lemma init_internal_info_frame_witness :
  let p := init (fun _ => 255) 512 512 0 in
  nFreeFrames p = 512 - needed_info_frames 512 /\ pool_inv p.
Proof.
  intros p.
  pose proof (init_internal_info_frame (fun _ => 255) 512 512
                ltac:(lia) ltac:(lia) ltac:(lia)) as H.
  exact (conj (proj1 (proj2 (proj2 (proj2 (proj2 (proj2 H))))))
              (proj2 (proj2 (proj2 (proj2 (proj2 (proj2 H))))))).
Defined.


(** A run of [Free] frames is counted. *)
Lemma count_free_run p a b M :
  0 <= a <= b ->
  (forall f, a <= f < b -> f < Z.of_nat M -> get_state p f = Free) ->
  Z.max 0 (Z.min b (Z.of_nat M) - a) <= count_free p M.
Proof.
  intros Hab. induction M as [| M IH]; intros Hrun.
  - cbn [count_free]. lia.
  - cbn [count_free].
    assert (IH' := IH ltac:(intros; apply Hrun; lia)).
    destruct (Z_le_dec a (Z.of_nat M)) as [Ha | Ha];
      [destruct (Z_lt_dec (Z.of_nat M) b) as [Hb | Hb] |].
    + rewrite (Hrun (Z.of_nat M)) by lia. cbn [FrameState_eqb]. lia.
    + destruct (FrameState_eqb (get_state p (Z.of_nat M)) Free); lia.
    + destruct (FrameState_eqb (get_state p (Z.of_nat M)) Free); lia.
Qed.

(** The scan of [get_frames], with what it has established so far: the
    last [free] frames before [fno] are [Free], the frame before them is
    not, and no run of [n] [Free] frames lies wholly before [fno].  It
    ends at the lowest such run, or finds that there is none. *)
Lemma scan_first_fit p n count :
  forall fno free,
  1 <= n -> 0 <= free <= fno -> free < n ->
  fno + Z.of_nat count <= 2 ^ 31 ->
  (forall f, fno - free <= f < fno -> get_state p f = Free) ->
  (free < fno -> get_state p (fno - free - 1) <> Free) ->
  (forall s, 0 <= s -> s + n <= fno ->
             ~ (forall f, s <= f < s + n -> get_state p f = Free)) ->
  (exists start,
      scan p n count fno free = (n, start)
      /\ 0 <= start /\ start + n <= fno + Z.of_nat count
      /\ (forall f, start <= f < start + n -> get_state p f = Free)
      /\ (forall s, 0 <= s < start ->
                    ~ (forall f, s <= f < s + n -> get_state p f = Free)))
  \/ (exists fr,
      scan p n count fno free = (fr, 0) /\ fr <> n
      /\ forall s, 0 <= s -> s + n <= fno + Z.of_nat count ->
                   ~ (forall f, s <= f < s + n -> get_state p f = Free)).
Proof.
  induction count as [| count IH]; intros fno free Hn Hfree Hlt Hbound Hrun Hprev Hnone.
  - right. exists free. cbn [scan]. split; [reflexivity |]. split; [lia |].
    intros s Hs Hsn. apply Hnone; lia.
  - cbn [scan].
    destruct (FrameState_eqb (get_state p fno) Free) eqn:Est.
    + apply FrameState_eqb_eq in Est.
      rewrite u32_small by lia.
      destruct (Z.eqb_spec (free + 1) n) as [Efn | Efn].
      * left. exists (fno - free). rewrite Efn.
        rewrite u32_small by lia.
        split; [f_equal; f_equal; lia |].
        split; [lia |]. split; [lia |]. split.
        -- intros f Hf. destruct (Z.eq_dec f fno) as [-> | Hne]; [exact Est |].
           apply Hrun. lia.
        -- intros s Hs Hall.
           destruct (Z_le_dec (s + n) fno) as [Hle | Hgt];
             [exact (Hnone s ltac:(lia) Hle Hall) |].
           apply Hprev; [lia |]. apply Hall. lia.
      * destruct (IH (fno + 1) (free + 1)) as [Hfound | Hnot]; try lia.
        -- intros f Hf. destruct (Z.eq_dec f fno) as [-> | Hne]; [exact Est |].
           apply Hrun. lia.
        -- intros Hp. replace (fno + 1 - (free + 1) - 1) with (fno - free - 1) by lia.
           apply Hprev. lia.
        -- intros s Hs Hsn Hall.
           destruct (Z_le_dec (s + n) fno) as [Hle | Hgt];
             [exact (Hnone s Hs Hle Hall) |].
           apply Hprev; [lia |]. apply Hall. lia.
        -- left. destruct Hfound as (start & E & H1 & H2 & H3 & H4).
           exists start. rewrite E. repeat split; try assumption; lia.
        -- right. destruct Hnot as (fr & E & H1 & H2).
           exists fr. rewrite E. repeat split; try assumption.
           intros s Hs Hsn. apply H2; lia.
    + apply FrameState_eqb_neq in Est.
      destruct (Z.eqb_spec 0 n) as [E0 | E0]; [lia |].
      destruct (IH (fno + 1) 0) as [Hfound | Hnot]; try lia.
      * intros _. replace (fno + 1 - 0 - 1) with fno by lia. exact Est.
      * intros s Hs Hsn Hall.
        destruct (Z_le_dec (s + n) fno) as [Hle | Hgt];
          [exact (Hnone s Hs Hle Hall) |].
        apply Est. apply Hall. lia.
      * left. destruct Hfound as (start & E & H1 & H2 & H3 & H4).
        exists start. rewrite E. repeat split; try assumption; lia.
      * right. destruct Hnot as (fr & E & H1 & H2).
        exists fr. rewrite E. repeat split; try assumption.
        intros s Hs Hsn. apply H2; lia.
Qed.

(** The states after [get_frames] has marked the run at [start]. *)
Lemma get_frames_marks bm start n g :
  0 <= start -> 1 <= n -> start + n <= 2 ^ 31 -> 0 <= g < 2 ^ 31 ->
  get_state_mem
    (set_state_mem (set_states (Z.to_nat n) start Used bm) start HoS) g =
  if g =? start then HoS
  else if (start <=? g) && (g <? start + n) then Used
       else get_state_mem bm g.
Proof.
  intros Hs Hn Htop Hg.
  destruct (Z.eqb_spec g start) as [-> | Hne]; [apply get_set_same |].
  rewrite get_set_other by lia.
  rewrite get_set_states by lia.
  rewrite Z2Nat.id by lia. reflexivity.
Qed.

(** The two outcomes of [get_frames] for a request of at least one frame. *)
Lemma get_frames_cases p n :
  0 <= nframes p <= 2 ^ 31 -> 0 <= nFreeFrames p < 2 ^ 32 -> 1 <= n ->
  (get_frames p n = (p, 0)
   /\ (nFreeFrames p < n
       \/ forall s, 0 <= s -> s + n <= nframes p ->
                    ~ (forall f, s <= f < s + n -> get_state p f = Free)))
  \/ (exists start,
      0 <= start /\ start + n <= nframes p /\ n <= nFreeFrames p
      /\ (forall f, start <= f < start + n -> get_state p f = Free)
      /\ (forall s, 0 <= s < start ->
                    ~ (forall f, s <= f < s + n -> get_state p f = Free))
      /\ get_frames p n =
         (mkPool (base_frame_no p) (nframes p) (nFreeFrames p - n)
                 (info_frame_no p)
                 (set_state_mem
                    (set_states (Z.to_nat n) start Used (bitmap p)) start HoS),
          u32 (start + base_frame_no p))).
Proof.
  intros Hnf Hfree Hn. unfold get_frames.
  destruct (Z.gtb_spec n (nFreeFrames p)) as [Hgt | Hle];
    [left; split; [reflexivity | left; lia] |].
  destruct (scan_first_fit p n (Z.to_nat (nframes p)) 0 0) as [Hfound | Hnot];
    try lia.
  - right. destruct Hfound as (start & E & H1 & H2 & H3 & H4).
    rewrite Z2Nat.id in H2 by lia.
    exists start. rewrite E. rewrite Z.eqb_refl. cbn [negb].
    repeat (split; [assumption || lia |]).
    rewrite (u32_small (start + n)) by lia.
    rewrite (u32_small (nFreeFrames p - n)) by lia.
    replace (start + n - start) with n by lia. reflexivity.
  - left. destruct Hnot as (fr & E & H1 & H2). rewrite E.
    destruct (Z.eqb_spec fr n) as [Heq | Hne]; [contradiction |].
    split; [reflexivity |]. right.
    intros s Hs Hsn. apply H2; [lia |]. rewrite Z2Nat.id by lia. lia.
Qed.


(** A positive count means that some frame is [Free]. *)
Lemma count_free_pos p M :
  1 <= count_free p M ->
  exists g, 0 <= g < Z.of_nat M /\ get_state p g = Free.
Proof.
  induction M as [| M IH]; cbn [count_free]; intros H; [lia |].
  destruct (FrameState_eqb (get_state p (Z.of_nat M)) Free) eqn:E.
  - apply FrameState_eqb_eq in E. exists (Z.of_nat M). split; [lia | exact E].
  - destruct (IH ltac:(lia)) as (g & Hg & HF). exists g. split; [lia | exact HF].
Qed.

(** The bounds that the pool invariants give. *)
Lemma pool_inv_bounds p :
  pool_inv p ->
  0 <= nframes p <= 2 ^ 20 /\ 0 <= nFreeFrames p <= nframes p.
Proof.
  intros [Hb Hn Htop Hcount _].
  pose proof (count_free_range p (Z.to_nat (nframes p))) as HR.
  rewrite Z2Nat.id in HR by lia. lia.
Qed.

(** X4.  [get_frames] is first fit.  When the pool holds a run of [n]
    [Free] frames, [get_frames(n)] succeeds and returns the lowest frame at
    which such a run starts: the [n] frames from the returned one on were
    [Free] in the pool and lie inside it, and no run of [n] [Free] frames
    starts at a lower frame.  The returned frame becomes [HoS], the rest of
    the run [Used], no other frame changes, and [nFreeFrames] drops by
    [n]. *)
Theorem get_frames_first_fit p n s0 :
  pool_inv p -> 1 <= n ->
  0 <= s0 -> s0 + n <= nframes p ->
  (forall f, s0 <= f < s0 + n -> get_state p f = Free) ->
  exists start,
    0 <= start <= s0
    /\ snd (get_frames p n) = base_frame_no p + start
    /\ start + n <= nframes p
    /\ (forall f, start <= f < start + n -> get_state p f = Free)
    /\ (forall s, 0 <= s < start ->
                  ~ (forall f, s <= f < s + n -> get_state p f = Free))
    /\ get_state (fst (get_frames p n)) start = HoS
    /\ (forall f, start < f < start + n ->
                  get_state (fst (get_frames p n)) f = Used)
    /\ (forall f, 0 <= f < nframes p -> ~ (start <= f < start + n) ->
                  get_state (fst (get_frames p n)) f = get_state p f)
    /\ nFreeFrames (fst (get_frames p n)) = nFreeFrames p - n.
Proof.
  intros Hinv Hn Hs0 Hs0n Hrun.
  destruct (pool_inv_bounds p Hinv) as [Hnf Hfr].
  pose proof (inv_base p Hinv) as Hb. pose proof (inv_top p Hinv) as Htop.
  assert (Hcnt : n <= nFreeFrames p).
  { rewrite (inv_count p Hinv).
    pose proof (count_free_run p s0 (s0 + n) (Z.to_nat (nframes p))
                  ltac:(lia) ltac:(intros; apply Hrun; lia)) as H.
    rewrite Z2Nat.id in H by lia. lia. }
  destruct (get_frames_cases p n) as [[_ [Hlt | Hnone]] | Hok]; try lia.
  - exfalso. exact (Hnone s0 Hs0 Hs0n Hrun).
  - destruct Hok as (start & H1 & H2 & H3 & H4 & H5 & E).
    exists start. rewrite E. cbn [fst snd nFreeFrames].
    unfold get_state at 3 4 5. cbn [bitmap].
    split.
    { destruct (Z_le_dec start s0) as [Hle | Hgt]; [lia |].
      exfalso. exact (H5 s0 ltac:(lia) Hrun). }
    split; [rewrite u32_small; lia |].
    split; [exact H2 |]. split; [exact H4 |].
    split; [exact H5 |].
    split; [rewrite get_frames_marks by lia; rewrite Z.eqb_refl; reflexivity |].
    split.
    { intros f Hf. rewrite get_frames_marks by lia.
      destruct (Z.eqb_spec f start); [lia |].
      destruct (Z.leb_spec start f); [| lia].
      destruct (Z.ltb_spec f (start + n)); [reflexivity | lia]. }
    split; [| reflexivity].
    intros f Hf Hout. rewrite get_frames_marks by lia.
    destruct (Z.eqb_spec f start); [lia |].
    destruct (Z.leb_spec start f); destruct (Z.ltb_spec f (start + n));
      try lia; reflexivity.
Qed.

(** A pool over a cleared bitmap: every frame is [Free]. *)
Lemma cleared_pool_inv b n i :
  0 <= b -> 0 <= n -> b + n <= 2 ^ 20 ->
  pool_inv (mkPool b n n i (fun _ => 0)).
Proof.
  intros Hb Hn Htop.
  assert (HF : forall f, get_state (mkPool b n n i (fun _ => 0)) f = Free).
  { intros f. unfold get_state, get_state_mem. cbn [bitmap].
    rewrite Z.land_0_l. reflexivity. }
  constructor; cbn [base_frame_no nframes nFreeFrames]; try assumption.
  - rewrite count_free_all_free by (intros; apply HF). rewrite Z2Nat.id; lia.
  - intros f Hf HU. rewrite HF in HU. discriminate.
Qed.

(** A pool of eight frames with its bitmap in a frame of another pool, as
    the kernel builds its process pool. *)
Lemma eight_frame_pool_inv :
  pool_inv (init (fun _ => 0) 1024 8 513)
  /\ forall f, 0 <= f < 8 -> get_state (init (fun _ => 0) 1024 8 513) f = Free.
Proof.
  assert (HF : forall f, 0 <= f < 8 ->
                 get_state (init (fun _ => 0) 1024 8 513) f = Free).
  { intros f Hf.
    assert (f = 0 \/ f = 1 \/ f = 2 \/ f = 3 \/ f = 4 \/ f = 5 \/ f = 6 \/ f = 7)
      as Hc by lia.
    repeat (destruct Hc as [-> | Hc]; [reflexivity |]). subst f. reflexivity. }
  split; [| exact HF].
  constructor.
  - vm_compute. discriminate.
  - vm_compute. discriminate.
  - vm_compute. discriminate.
  - vm_compute. reflexivity.
  - intros f Hf Hu. rewrite HF in Hu by exact Hf. discriminate.
Qed.

(** The same pool after [get_frames(3)]: frame 0 [HoS], frames 1 and 2
    [Used], the rest [Free]. *)
Lemma allocated_pool_inv :
  pool_inv (fst (get_frames (init (fun _ => 0) 1024 8 513) 3)).
Proof.
  constructor.
  - vm_compute. discriminate.
  - vm_compute. discriminate.
  - vm_compute. discriminate.
  - vm_compute. reflexivity.
  - intros f Hf Hu. change (nframes _) with 8 in Hf.
    assert (f = 0 \/ f = 1 \/ f = 2 \/ f = 3 \/ f = 4 \/ f = 5 \/ f = 6 \/ f = 7)
      as Hc by lia.
    repeat (destruct Hc as [-> | Hc];
            [split; [vm_compute in Hu; (lia || discriminate Hu) |
                     vm_compute in Hu; vm_compute; discriminate] |]).
    subst f. vm_compute in Hu. discriminate Hu.
Qed.

Lemma get_frames_first_fit_witness :
  let p := init (fun _ => 0) 1024 8 513 in
  exists start,
    0 <= start <= 2
    /\ snd (get_frames p 3) = base_frame_no p + start
    /\ (forall f, start <= f < start + 3 -> get_state p f = Free)
    /\ nFreeFrames (fst (get_frames p 3)) = nFreeFrames p - 3.
Proof.
  intros p.
  destruct eight_frame_pool_inv as [Hinv HF].
  destruct (get_frames_first_fit p 3 2 Hinv ltac:(lia) ltac:(lia)
              ltac:(vm_compute; discriminate)
              ltac:(intros; apply HF; lia))
    as (start & Hs & Hr & _ & Hfree & _ & _ & _ & _ & Hn).
  exists start. exact (conj Hs (conj Hr (conj Hfree Hn))).
Defined.

(** X5.  [get_frames] fails, returning 0 and leaving the pool as it was,
    when fewer than [n] frames are free or when no [n] consecutive frames
    are [Free]. *)
Theorem get_frames_without_run p n :
  0 <= nframes p <= 2 ^ 31 -> 0 <= nFreeFrames p < 2 ^ 32 -> 1 <= n ->
  (nFreeFrames p < n
   \/ forall s, 0 <= s -> s + n <= nframes p ->
                exists f, s <= f < s + n /\ get_state p f <> Free) ->
  get_frames p n = (p, 0).
Proof.
  intros Hnf Hfr Hn Hno.
  destruct (get_frames_cases p n Hnf Hfr Hn) as [[E _] | Hok]; [exact E |].
  exfalso. destruct Hok as (start & H1 & H2 & H3 & H4 & _).
  destruct Hno as [Hlt | Hno]; [lia |].
  destruct (Hno start H1 H2) as (f & Hf & Hne). apply Hne, H4, Hf.
Qed.

Lemma get_frames_without_run_witness :
  let p := init (fun _ => 0) 1024 8 513 in
  get_frames p 9 = (p, 0).
Proof.
  intros p.
  apply get_frames_without_run.
  - vm_compute. split; discriminate.
  - vm_compute. split; [discriminate | reflexivity].
  - lia.
  - left. vm_compute. reflexivity.
Defined.

(** X6.  [get_frames] with a request of at least one frame keeps the pool
    invariants, whether it succeeds or fails. *)
Theorem get_frames_pool_inv p n :
  pool_inv p -> 1 <= n -> pool_inv (fst (get_frames p n)).
Proof.
  intros Hinv Hn.
  destruct (pool_inv_bounds p Hinv) as [Hnf Hfr].
  destruct (get_frames_cases p n) as [[E _] | Hok]; try lia.
  { rewrite E. exact Hinv. }
  destruct Hok as (start & H1 & H2 & H3 & H4 & H5 & E).
  rewrite E. cbn [fst].
  set (p' := mkPool _ _ _ _ _).
  assert (Hst : forall g, 0 <= g < 2 ^ 31 ->
            get_state p' g = if g =? start then HoS
                             else if (start <=? g) && (g <? start + n) then Used
                                  else get_state p g).
  { intros g Hg. unfold p', get_state. cbn [bitmap].
    apply get_frames_marks; lia. }
  destruct Hinv as [Hb Hn0 Htop Hcount Hseq].
  assert (Eb : base_frame_no p' = base_frame_no p) by reflexivity.
  assert (Enf : nframes p' = nframes p) by reflexivity.
  assert (Efr : nFreeFrames p' = nFreeFrames p - n) by reflexivity.
  constructor; rewrite ?Eb, ?Enf, ?Efr; try assumption.
  - rewrite (count_free_mark p p' start (start + n)); [| lia | |].
    + rewrite Z2Nat.id by lia. lia.
    + intros f Hf Hout. rewrite Z2Nat.id in Hf by lia. rewrite Hst by lia.
      destruct (Z.eqb_spec f start); [lia |].
      destruct (Z.leb_spec start f); destruct (Z.ltb_spec f (start + n));
        try lia; reflexivity.
    + intros f Hf Hlt. split; [apply H4; lia |].
      rewrite Hst by lia.
      destruct (Z.eqb_spec f start); [discriminate |].
      destruct (Z.leb_spec start f); [| lia].
      destruct (Z.ltb_spec f (start + n)); [discriminate | lia].
  - intros f Hf HU. rewrite Hst in HU by lia.
    destruct (Z.eqb_spec f start) as [-> | Hne]; [discriminate |].
    destruct (Z_le_dec start f) as [Hle | Hgt];
      [destruct (Z_lt_dec f (start + n)) as [Hlt | Hge] |].
    + split; [lia |]. rewrite Hst by lia.
      destruct (Z.eqb_spec (f - 1) start); [discriminate |].
      destruct (Z.leb_spec start (f - 1)); [| lia].
      destruct (Z.ltb_spec (f - 1) (start + n)); [discriminate | lia].
    + destruct (Z.leb_spec start f); [| lia].
      destruct (Z.ltb_spec f (start + n)); [lia |]. cbn [andb] in HU.
      destruct (Hseq f Hf HU) as [Hpos Hprev]. split; [exact Hpos |].
      rewrite Hst by lia.
      destruct (Z.eqb_spec (f - 1) start); [discriminate |].
      destruct (Z.leb_spec start (f - 1)); destruct (Z.ltb_spec (f - 1) (start + n));
        cbn [andb]; try discriminate; exact Hprev.
    + destruct (Z.leb_spec start f); [lia |]. cbn [andb] in HU.
      destruct (Hseq f Hf HU) as [Hpos Hprev]. split; [exact Hpos |].
      rewrite Hst by lia.
      destruct (Z.eqb_spec (f - 1) start); [lia |].
      destruct (Z.leb_spec start (f - 1)); [lia |]. exact Hprev.
Qed.

Lemma get_frames_pool_inv_witness :
  pool_inv (fst (get_frames (init (fun _ => 0) 1024 8 513) 3)).
Proof.
  exact (get_frames_pool_inv _ 3 (proj1 eight_frame_pool_inv) ltac:(lia)).
Defined.




(** X8.  [release_frames] changes no pool unless the frame number is the
    [HoS] frame of the pool that owns it: a frame number in the range of no
    registered pool is rejected by the loop over the registry, and a frame
    in the state [Free] or [Used] by the first check of
    [_release_frames]. *)
Theorem release_frames_rejects ps f :
  Forall (fun q => ~ in_range q f) ps
  \/ (exists pre pp post,
        ps = pre ++ pp :: post
        /\ Forall (fun q => ~ in_range q f) pre
        /\ in_range pp f
        /\ get_state pp (u32 (f - base_frame_no pp)) <> HoS) ->
  release_frames ps f = Some ps.
Proof.
  intros [H | (pre & pp & post & -> & Hpre & Hin & Hst)].
  - pose proof (release_frames_skip ps [] f H) as E.
    rewrite app_nil_r in E. rewrite E. cbn. rewrite app_nil_r. reflexivity.
  - rewrite (release_frames_owner pre pp post f Hpre Hin).
    unfold _release_frames, _release_frames_traced.
    apply FrameState_eqb_neq in Hst. rewrite Hst. reflexivity.
Qed.

Lemma release_frames_rejects_witness :
  let p := fst (get_frames (init (fun _ => 0) 1024 8 513) 3) in
  release_frames [p] 512 = Some [p]
  /\ release_frames [p] 1025 = Some [p].
Proof.
  intros p. split.
  - apply release_frames_rejects. left.
    constructor; [| constructor]. vm_compute. discriminate.
  - apply release_frames_rejects. right. exists [], p, [].
    split; [reflexivity |]. split; [constructor |].
    split; [vm_compute; reflexivity | vm_compute; discriminate].
Defined.

(** The frames after [h] that continue its sequence: [k] of them are
    [Used], and the next one is not, or the pool ends. *)
Lemma used_run p h (m : nat) :
  exists k : nat,
    (k <= m)%nat
    /\ (forall f, h < f <= h + Z.of_nat k -> get_state p f = Used)
    /\ (k = m \/ get_state p (h + Z.of_nat k + 1) <> Used).
Proof.
  induction m as [| m (k & Hk & Hrun & Hstop)].
  - exists 0%nat. split; [lia |]. split; [intros; lia | left; reflexivity].
  - destruct Hstop as [-> | Hstop].
    + destruct (FrameState_eqb (get_state p (h + Z.of_nat m + 1)) Used) eqn:E.
      * apply FrameState_eqb_eq in E.
        exists (S m). split; [lia |]. split; [| left; reflexivity].
        intros f Hf. destruct (Z.eq_dec f (h + Z.of_nat m + 1)) as [-> | Hne];
          [exact E | apply Hrun; lia].
      * apply FrameState_eqb_neq in E.
        exists m. split; [lia |]. split; [exact Hrun | right; exact E].
    + exists k. split; [lia |]. split; [exact Hrun | right; exact Hstop].
Qed.

(** X9.  [_release_frames] at the head of a sequence frees exactly that
    sequence: the [HoS] frame and the [Used] frames that follow it, up to
    the next frame that is not [Used] or to the end of the pool.  No other
    frame changes, [nFreeFrames] grows by the length of the sequence, and
    the pool invariants are kept. *)
Theorem release_frames_sequence p h :
  pool_inv p -> 0 <= h < nframes p -> get_state p h = HoS ->
  exists len p',
    _release_frames p h = Some p'
    /\ 1 <= len /\ h + len <= nframes p
    /\ (forall f, h < f < h + len -> get_state p f = Used)
    /\ (h + len < nframes p -> get_state p (h + len) <> Used)
    /\ (forall f, h <= f < h + len -> get_state p' f = Free)
    /\ (forall f, 0 <= f < nframes p -> ~ (h <= f < h + len) ->
                  get_state p' f = get_state p f)
    /\ nFreeFrames p' = nFreeFrames p + len
    /\ pool_inv p'.
Proof.
  intros Hinv Hh HoSh.
  destruct (pool_inv_bounds p Hinv) as [Hnf Hfr].
  destruct (used_run p h (Z.to_nat (nframes p - 1 - h))) as (k & Hk & Hrun & Hstop).
  assert (Hstop' : get_state p (h + Z.of_nat k + 1) <> Used
                   \/ nframes p <= h + Z.of_nat k + 1).
  { destruct Hstop as [-> | Hne]; [right; lia | left; exact Hne]. }
  assert (Hrun' : forall f, h < f <= h + Z.of_nat k ->
                    get_state p f = Used /\ f < nframes p).
  { intros f Hf. split; [apply Hrun; exact Hf | lia]. }
  exists (Z.of_nat k + 1).
  unfold _release_frames, _release_frames_traced.
  rewrite HoSh. cbn [FrameState_eqb negb].
  rewrite (release_loop_run k (S (Z.to_nat (nframes p))) p h [h]
             ltac:(lia) ltac:(lia) ltac:(lia) Hrun' Hstop').
  cbn [fmap option_fmap option_map fst].
  eexists. split; [reflexivity |].
  set (p' := mkPool _ _ _ _ _).
  assert (Hst : forall g, 0 <= g < 2 ^ 31 ->
            get_state p' g = if (h <=? g) && (g <? h + (Z.of_nat k + 1))
                             then Free else get_state p g).
  { intros g Hg. unfold p', get_state. cbn [bitmap].
    rewrite get_set_states by lia.
    replace (h + Z.of_nat (S k)) with (h + (Z.of_nat k + 1)) by lia.
    reflexivity. }
  assert (HF : forall f, h <= f < h + (Z.of_nat k + 1) -> get_state p' f = Free).
  { intros f Hf. rewrite Hst by lia.
    destruct (Z.leb_spec h f); [| lia].
    destruct (Z.ltb_spec f (h + (Z.of_nat k + 1))); [reflexivity | lia]. }
  assert (HO : forall f, 0 <= f < nframes p -> ~ (h <= f < h + (Z.of_nat k + 1)) ->
                 get_state p' f = get_state p f).
  { intros f Hf Hout. rewrite Hst by lia.
    destruct (Z.leb_spec h f); destruct (Z.ltb_spec f (h + (Z.of_nat k + 1)));
      try lia; reflexivity. }
  assert (Efr : nFreeFrames p' = nFreeFrames p + (Z.of_nat k + 1)).
  { unfold p'. cbn [nFreeFrames]. rewrite u32_small by lia. lia. }
  split; [lia |]. split; [lia |].
  split; [intros f Hf; apply Hrun; lia |].
  split.
  { intros Hlt. destruct Hstop' as [Hne | Hge]; [| lia].
    replace (h + (Z.of_nat k + 1)) with (h + Z.of_nat k + 1) by lia. exact Hne. }
  split; [exact HF |]. split; [exact HO |]. split; [exact Efr |].
  assert (Eb : base_frame_no p' = base_frame_no p) by reflexivity.
  assert (Enf : nframes p' = nframes p) by reflexivity.
  destruct Hinv as [Hb Hn0 Htop Hcount Hseq].
  constructor; rewrite ?Eb, ?Enf, ?Efr; try assumption.
  - rewrite (count_free_mark p' p h (h + (Z.of_nat k + 1))) in Hcount; [| lia | |].
    + rewrite Z2Nat.id in Hcount by lia. lia.
    + intros f Hf Hout. rewrite Z2Nat.id in Hf by lia. symmetry. apply HO; lia.
    + intros f Hf Hlt. split; [apply HF; lia |].
      destruct (Z.eq_dec f h) as [-> | Hne]; [rewrite HoSh; discriminate |].
      rewrite Hrun by lia. discriminate.
  - intros f Hf HU.
    destruct (Z_le_dec h f) as [Hle | Hgt];
      [destruct (Z_lt_dec f (h + (Z.of_nat k + 1))) as [Hlt | Hge] |].
    + rewrite HF in HU by lia. discriminate.
    + rewrite HO in HU by lia.
      destruct (Hseq f Hf HU) as [Hpos Hprev]. split; [exact Hpos |].
      destruct (Z.eq_dec f (h + (Z.of_nat k + 1))) as [-> | Hne].
      * exfalso. destruct Hstop' as [Hne | Hge']; [| lia].
        apply Hne. replace (h + Z.of_nat k + 1) with (h + (Z.of_nat k + 1)) by lia.
        exact HU.
      * rewrite HO by lia. exact Hprev.
    + rewrite HO in HU by lia.
      destruct (Hseq f Hf HU) as [Hpos Hprev]. split; [exact Hpos |].
      rewrite HO by lia. exact Hprev.
Qed.

Lemma release_frames_sequence_witness :
  let p := fst (get_frames (init (fun _ => 0) 1024 8 513) 3) in
  exists len p',
    _release_frames p 0 = Some p'
    /\ 1 <= len
    /\ nFreeFrames p' = nFreeFrames p + len
    /\ pool_inv p'.
Proof.
  intros p.
  destruct (release_frames_sequence p 0 allocated_pool_inv ltac:(vm_compute; split; [discriminate | reflexivity])
              ltac:(vm_compute; reflexivity))
    as (len & p' & E & Hl & _ & _ & _ & _ & _ & Hn & Hi).
  exists len, p'. exact (conj E (conj Hl (conj Hn Hi))).
Defined.


(** [_release_frames] at a [HoS] frame: the frames it frees and the pool it
    leaves, whatever the states of the other frames are. *)
Lemma _release_frames_run p h :
  0 <= h < nframes p -> nframes p < 2 ^ 31 -> get_state p h = HoS ->
  exists len,
    1 <= len /\ h + len <= nframes p
    /\ (forall f, h < f < h + len -> get_state p f = Used)
    /\ (h + len < nframes p -> get_state p (h + len) <> Used)
    /\ _release_frames p h =
       Some (mkPool (base_frame_no p) (nframes p) (u32 (nFreeFrames p + len))
                    (info_frame_no p)
                    (set_states (Z.to_nat len) h Free (bitmap p))).
Proof.
  intros Hh Hn HoSh.
  destruct (used_run p h (Z.to_nat (nframes p - 1 - h))) as (k & Hk & Hrun & Hstop).
  assert (Hstop' : get_state p (h + Z.of_nat k + 1) <> Used
                   \/ nframes p <= h + Z.of_nat k + 1).
  { destruct Hstop as [-> | Hne]; [right; lia | left; exact Hne]. }
  assert (Hrun' : forall f, h < f <= h + Z.of_nat k ->
                    get_state p f = Used /\ f < nframes p).
  { intros f Hf. split; [apply Hrun; exact Hf | lia]. }
  exists (Z.of_nat k + 1).
  split; [lia |]. split; [lia |].
  split; [intros f Hf; apply Hrun; lia |].
  split.
  { intros Hlt. destruct Hstop' as [Hne | Hge]; [| lia].
    replace (h + (Z.of_nat k + 1)) with (h + Z.of_nat k + 1) by lia. exact Hne. }
  unfold _release_frames, _release_frames_traced.
  rewrite HoSh. cbn [FrameState_eqb negb].
  rewrite (release_loop_run k (S (Z.to_nat (nframes p))) p h [h]
             ltac:(lia) ltac:(lia) ltac:(lia) Hrun' Hstop').
  cbn [fmap option_fmap option_map fst].
  replace (Z.to_nat (Z.of_nat k + 1)) with (S k) by lia.
  rewrite Z.add_assoc. reflexivity.
Qed.

(** The states after a run has been set [Free]. *)
Lemma released_states p h len fr g :
  0 <= h -> 0 <= len -> h + len <= 2 ^ 31 -> 0 <= g < 2 ^ 31 ->
  get_state (mkPool (base_frame_no p) (nframes p) fr (info_frame_no p)
                    (set_states (Z.to_nat len) h Free (bitmap p))) g
  = if (h <=? g) && (g <? h + len) then Free else get_state p g.
Proof.
  intros Hh Hl Htop Hg. unfold get_state. cbn [bitmap].
  rewrite get_set_states by lia. rewrite Z2Nat.id by lia. reflexivity.
Qed.

(** [get_frames] changes [Free] frames only, and keeps the extent of the
    pool. *)
Lemma get_frames_keeps q m :
  Frames.within_machine q -> 1 <= m ->
  Frames.within_machine (fst (get_frames q m))
  /\ base_frame_no (fst (get_frames q m)) = base_frame_no q
  /\ nframes (fst (get_frames q m)) = nframes q
  /\ (forall g, 0 <= g < nframes q -> get_state q g <> Free ->
                get_state (fst (get_frames q m)) g = get_state q g).
Proof.
  intros (Hb & Hn & Htop & Hfr) Hm.
  destruct (get_frames_cases q m) as [[E _] | (st & H1 & H2 & H3 & H4 & _ & E)];
    try lia; rewrite E; cbn [fst].
  - split; [exact (conj Hb (conj Hn (conj Htop Hfr))) |].
    split; [reflexivity |]. split; [reflexivity |]. reflexivity.
  - split.
    { unfold Frames.within_machine. cbn [base_frame_no nframes nFreeFrames]. lia. }
    split; [reflexivity |]. split; [reflexivity |].
    intros g Hg Hne. unfold get_state at 1. cbn [bitmap].
    rewrite get_frames_marks by lia.
    destruct (Z.eqb_spec g st) as [-> | Hd]; [exfalso; apply Hne, H4; lia |].
    destruct (Z.leb_spec st g); destruct (Z.ltb_spec g (st + m)); cbn [andb];
      try reflexivity.
    exfalso. apply Hne, H4. lia.
Qed.

Lemma get_frames_seq_keeps ms :
  forall q,
  Frames.within_machine q -> Forall (fun m => 1 <= m) ms ->
  Frames.within_machine (fst (Frames.get_frames_seq q ms))
  /\ base_frame_no (fst (Frames.get_frames_seq q ms)) = base_frame_no q
  /\ nframes (fst (Frames.get_frames_seq q ms)) = nframes q
  /\ (forall g, 0 <= g < nframes q -> get_state q g <> Free ->
                get_state (fst (Frames.get_frames_seq q ms)) g = get_state q g).
Proof.
  induction ms as [| m ms IH]; intros q Hq Hms.
  - cbn [Frames.get_frames_seq fst]. repeat split; try reflexivity; apply Hq.
  - inversion Hms as [| ? ? Hm Hms']; subst.
    cbn [Frames.get_frames_seq fst].
    destruct (get_frames_keeps q m Hq Hm) as (Hq1 & Eb1 & En1 & Hk1).
    destruct (IH _ Hq1 Hms') as (Hq2 & Eb2 & En2 & Hk2).
    split; [exact Hq2 |]. split; [congruence |]. split; [congruence |].
    intros g Hg Hne. rewrite Hk2.
    + apply Hk1; assumption.
    + rewrite En1. exact Hg.
    + rewrite Hk1 by assumption. exact Hne.
Qed.

(** No call of a sequence of [get_frames] calls returns frames of a range
    in which no frame is [Free]. *)
Lemma get_frames_seq_avoids ms :
  forall q lo hi i m r,
  Frames.within_machine q -> Forall (fun m => 1 <= m) ms ->
  0 <= lo < hi -> hi <= nframes q ->
  (forall g, lo <= g < hi -> get_state q g <> Free) ->
  ms !! i = Some m -> snd (Frames.get_frames_seq q ms) !! i = Some r ->
  r <> 0 ->
  (r + m <= base_frame_no q + lo \/ base_frame_no q + hi <= r)
  /\ base_frame_no q <= r /\ r + m <= base_frame_no q + nframes q.
Proof.
  induction ms as [| m0 ms IH]; intros q lo hi i m r Hq Hms Hlo Hhi Hbusy Hi Hr Hne;
    [discriminate |].
  inversion Hms as [| ? ? Hm0 Hms']; subst.
  cbn [Frames.get_frames_seq snd] in Hr.
  destruct i as [| i].
  - injection Hi as <-. injection Hr as Hr.
    destruct Hq as (Hb & Hn & Htop & Hfr).
    destruct (get_frames_cases q m0) as [[E _] | (st & H1 & H2 & _ & H4 & _ & E)];
      try lia.
    { exfalso. apply Hne. rewrite <- Hr, E. reflexivity. }
    rewrite E in Hr. cbn [snd] in Hr. rewrite u32_small in Hr by lia.
    split; [| lia].
    destruct (Z_le_dec (st + m0) lo) as [Hl | Hl]; [left; lia |].
    destruct (Z_le_dec hi st) as [Hl' | Hl']; [right; lia |].
    exfalso. apply (Hbusy (Z.max st lo)); [lia |]. apply H4. lia.
  - destruct (get_frames_keeps q m0 Hq Hm0) as (Hq1 & Eb1 & En1 & Hk1).
    rewrite <- Eb1, <- En1.
    apply (IH (fst (get_frames q m0)) lo hi i m r); try assumption.
    + rewrite En1. exact Hhi.
    + intros g Hg. rewrite Hk1; [apply Hbusy; exact Hg | lia | apply Hbusy; exact Hg].
Qed.

(** X10.  What [mark_inaccessible] protects its range against, and what
    not.  In every sequence of [get_frames] calls on the pool after the
    marking, each for at least one frame, every successful call returns
    frames inside the pool that do not overlap the marked range, and the
    frames of the range still are not [Free] after the sequence.  The
    marked frames are [Used] with no [HoS] frame of their own when the
    length of the range is at most the base frame number of the pool (the
    [HoS] mark then lands past the range); so [_release_frames] of a
    sequence that ends directly before the range goes on through it and
    sets every frame of the range [Free]. *)
Theorem mark_inaccessible_protects p b n ms :
  Frames.within_machine p ->
  base_frame_no p <= b -> 1 <= n -> b + n <= base_frame_no p + nframes p ->
  Forall (fun m => 1 <= m) ms ->
  let q := fst (Frames.get_frames_seq (mark_inaccessible p b n) ms) in
  let rs := snd (Frames.get_frames_seq (mark_inaccessible p b n) ms) in
  let lo := b - base_frame_no p in
  (forall i m r, ms !! i = Some m -> rs !! i = Some r -> r <> 0 ->
      (r + m <= b \/ b + n <= r)
      /\ base_frame_no p <= r /\ r + m <= base_frame_no p + nframes p)
  /\ (forall g, lo <= g < lo + n -> get_state q g <> Free)
  /\ (n <= base_frame_no p ->
      forall h, 0 <= h < lo -> get_state q h = HoS ->
        (forall f, h < f < lo -> get_state q f = Used) ->
        exists q',
          _release_frames q h = Some q'
          /\ forall g, lo <= g < lo + n -> get_state q' g = Free).
Proof.
  intros Hp Hb Hn Hin Hms q rs lo.
  pose proof Hp as (Hb0 & Hnf & Htop & Hfr).
  set (p' := mark_inaccessible p b n) in *.
  assert (Hp' : Frames.within_machine p') by exact Hp.
  assert (Eb : base_frame_no p' = base_frame_no p) by reflexivity.
  assert (Enf : nframes p' = nframes p) by reflexivity.
  assert (Hst : forall g, lo <= g < lo + n ->
                  get_state p' g = if Z.eq_dec g b then HoS else Used).
  { intros g Hg. unfold get_state, p'.
    rewrite mark_inaccessible_bitmap by lia.
    destruct (Z.eq_dec g b) as [-> | Hne]; [apply get_set_same |].
    rewrite get_set_other by lia.
    rewrite get_set_states by lia. rewrite Z2Nat.id by lia. fold lo.
    destruct (Z.leb_spec lo g); [| lia].
    destruct (Z.ltb_spec g (lo + n)); [reflexivity | lia]. }
  assert (Hbusy : forall g, lo <= g < lo + n -> get_state p' g <> Free).
  { intros g Hg. rewrite Hst by exact Hg. destruct (Z.eq_dec g b); discriminate. }
  destruct (get_frames_seq_keeps ms p' Hp' Hms) as (Hq & Ebq & Enq & Hkeep).
  fold q in Hq, Ebq, Enq, Hkeep.
  split; [| split].
  - intros i m r Hi Hr Hne.
    destruct (get_frames_seq_avoids ms p' lo (lo + n) i m r Hp' Hms
                ltac:(lia) ltac:(rewrite Enf; lia) Hbusy Hi Hr Hne) as (H1 & H2 & H3).
    rewrite Eb, ?Enf in *. split; [lia |]. split; assumption.
  - intros g Hg. rewrite Hkeep; [apply Hbusy; exact Hg | rewrite Enf; lia |].
    apply Hbusy. exact Hg.
  - intros Hnb h Hh HoSh Hseq.
    assert (Hused : forall g, lo <= g < lo + n -> get_state q g = Used).
    { intros g Hg. rewrite Hkeep; [| rewrite Enf; lia | apply Hbusy; exact Hg].
      rewrite Hst by exact Hg. destruct (Z.eq_dec g b); [lia | reflexivity]. }
    destruct (_release_frames_run q h ltac:(rewrite Enq, Enf; lia)
                ltac:(rewrite Enq, Enf; lia) HoSh)
      as (len & Hl1 & Hl2 & _ & Hstop & Erel).
    rewrite Enq, Enf in Hl2, Hstop.
    assert (Hlen : lo + n <= h + len).
    { destruct (Z_le_dec (lo + n) (h + len)) as [Hle | Hgt]; [exact Hle |].
      exfalso. apply Hstop; [lia |].
      destruct (Z_lt_dec (h + len) lo) as [Hlt | Hge];
        [apply Hseq; lia | apply Hused; lia]. }
    rewrite Erel. eexists. split; [reflexivity |].
    intros g Hg. rewrite released_states by lia.
    destruct (Z.leb_spec h g); [| lia].
    destruct (Z.ltb_spec g (h + len)); [reflexivity | lia].
Qed.

(** A pool of sixteen frames based at frame 1024 with a hole of four frames
    in it.  Two requests are served around the hole; releasing the first
    one then frees the hole as well. *)
Lemma mark_inaccessible_protects_witness :
  let p := init (fun _ => 0) 1024 16 513 in
  let q := fst (Frames.get_frames_seq (mark_inaccessible p 1028 4) [4; 6]) in
  snd (Frames.get_frames_seq (mark_inaccessible p 1028 4) [4; 6]) = [1024; 1032]
  /\ (1032 + 6 <= 1028 \/ 1028 + 4 <= 1032)
  /\ exists q',
       _release_frames q 0 = Some q'
       /\ forall g, 4 <= g < 8 -> get_state q' g = Free.
Proof.
  intros p q.
  assert (Hp : Frames.within_machine p).
  { vm_compute. repeat split; discriminate. }
  destruct (mark_inaccessible_protects p 1028 4 [4; 6] Hp
              ltac:(vm_compute; discriminate) ltac:(lia)
              ltac:(vm_compute; discriminate)
              ltac:(repeat constructor; lia))
    as (Hres & _ & Hrel).
  split; [reflexivity |]. split.
  - exact (proj1 (Hres 1%nat 6 1032 eq_refl eq_refl ltac:(lia))).
  - apply (Hrel ltac:(vm_compute; discriminate) 0).
    + vm_compute. split; [discriminate | reflexivity].
    + reflexivity.
    + intros f Hf.
      assert (f = 1 \/ f = 2 \/ f = 3) as [-> | [-> | ->]] by
          (change (1028 - base_frame_no p) with 4 in Hf; lia); reflexivity.
Defined.

(** One frame taken with [get_frames(1)] and released again, in a registry
    where no pool registered ahead of [p] owns the frame: the release frees
    the frame and the [Used] frames that directly follow it in [p]. *)
Lemma get_one_then_release pre p post :
  Frames.within_machine p ->
  Forall (fun q => ~ in_range q (snd (get_frames p 1))) pre ->
  snd (get_frames p 1) <> 0 ->
  let st := snd (get_frames p 1) - base_frame_no p in
  exists len p2,
    release_frames (pre ++ fst (get_frames p 1) :: post) (snd (get_frames p 1))
    = Some (pre ++ p2 :: post)
    /\ 0 <= st /\ 1 <= len /\ st + len <= nframes p
    /\ get_state p st = Free
    /\ (forall f, st < f < st + len -> get_state p f = Used)
    /\ (st + len < nframes p -> get_state p (st + len) <> Used)
    /\ (forall f, st <= f < st + len -> get_state p2 f = Free)
    /\ (forall f, 0 <= f < nframes p -> ~ (st <= f < st + len) ->
                  get_state p2 f = get_state p f)
    /\ nFreeFrames p2 = u32 (nFreeFrames p - 1 + len).
Proof.
  intros (Hb & Hn & Htop & Hfr) Hpre Hr st.
  destruct (get_frames_cases p 1) as [[E _] | (s0 & H1 & H2 & H3 & H4 & _ & E)];
    try lia.
  { exfalso. apply Hr. rewrite E. reflexivity. }
  assert (Est : st = s0).
  { unfold st. rewrite E. cbn [snd]. rewrite u32_small by lia. lia. }
  clearbody st. subst st.
  rewrite E in Hpre |- *. cbn [fst snd] in Hpre |- *.
  set (p1 := mkPool _ _ _ _ _) in *.
  assert (Ein : in_range p1 (u32 (s0 + base_frame_no p))).
  { unfold in_range, p1. cbn [base_frame_no nframes].
    rewrite u32_add_sub by lia. lia. }
  rewrite (release_frames_owner pre p1 post _ Hpre Ein).
  change (base_frame_no p1) with (base_frame_no p).
  rewrite u32_add_sub by lia.
  assert (G : forall f, 0 <= f < 2 ^ 31 ->
            get_state p1 f = if f =? s0 then HoS else get_state p f).
  { intros f Hf. unfold get_state at 1, p1. cbn [bitmap].
    rewrite get_frames_marks by lia.
    destruct (Z.eqb_spec f s0); [reflexivity |].
    destruct (Z.leb_spec s0 f); destruct (Z.ltb_spec f (s0 + 1)); cbn [andb];
      try reflexivity. lia. }
  assert (HoS1 : get_state p1 s0 = HoS) by (rewrite G by lia; now rewrite Z.eqb_refl).
  destruct (_release_frames_run p1 s0 ltac:(unfold p1; cbn [nframes]; lia)
              ltac:(unfold p1; cbn [nframes]; lia) HoS1)
    as (len & Hl1 & Hl2 & Hused & Hstop & Erel).
  change (nframes p1) with (nframes p) in Hl2, Hstop.
  rewrite Erel. cbn [fmap option_fmap option_map].
  exists len. eexists. split; [reflexivity |].
  split; [exact H1 |]. split; [exact Hl1 |]. split; [exact Hl2 |].
  split; [apply H4; lia |].
  split.
  { intros f Hf. rewrite <- (Hused f Hf). rewrite G by lia.
    destruct (Z.eqb_spec f s0); [lia | reflexivity]. }
  split.
  { intros Hlt Hu. apply (Hstop Hlt). rewrite G by lia.
    destruct (Z.eqb_spec (s0 + len) s0); [lia | exact Hu]. }
  split.
  { intros f Hf. rewrite released_states by lia.
    destruct (Z.leb_spec s0 f); [| lia].
    destruct (Z.ltb_spec f (s0 + len)); [reflexivity | lia]. }
  split.
  { intros f Hf Hout. rewrite released_states by lia.
    destruct (Z.leb_spec s0 f); destruct (Z.ltb_spec f (s0 + len)); cbn [andb];
      try lia; rewrite G by lia;
      (destruct (Z.eqb_spec f s0); [lia | reflexivity]). }
  unfold p1. cbn [nFreeFrames]. reflexivity.
Qed.

End PoolInvariants.

(** ** The page table: what [free_page] releases *)

Section FreePageRelease.
Import PT.

(** C8 (as the code has it).  [free_page(p)] reads the PTE of [p] through
    the recursive window.  When its present bit is clear, nothing changes.
    Otherwise the PTE becomes [0x2] and no other word changes, [cr3] is
    rewritten with the address of the page directory, flushing the TLB
    once, and the frame number, the PTE divided by the page size, is handed
    to [release_frames].  That call acts on the first pool of the registry
    whose range holds the number.  When the frame heads a sequence there,
    it and the [Used] frames after it become [Free] and [nFreeFrames] is
    incremented once for each; no other frame changes.  When the frame is
    [Free] or [Used] there, or no pool holds the number, the pools stay as
    they were. *)
Theorem free_page_spec v this _page_no s :
  CFP.pools_ok (frame_pools s) ->
  let addr := PTE_address _page_no in
  let frame_no := mem s addr / PAGE_SIZE in
  (Z.land (mem s addr) 1 = 0 -> free_page v this _page_no s = Some s)
  /\ (Z.land (mem s addr) 1 <> 0 ->
      exists s',
        free_page v this _page_no s = Some s'
        /\ mem s' addr = 2
        /\ (forall a, a <> addr -> mem s' a = mem s a)
        /\ cr3 s' = page_directory this
        /\ tlb_flushes s' = S (tlb_flushes s)
        /\ (Forall (fun q => ~ CFP.in_range q frame_no) (frame_pools s) ->
            frame_pools s' = frame_pools s)
        /\ (forall pre pp post,
              frame_pools s = pre ++ pp :: post ->
              Forall (fun q => ~ CFP.in_range q frame_no) pre ->
              CFP.in_range pp frame_no ->
              let h := u32 (frame_no - CFP.base_frame_no pp) in
              (CFP.get_state pp h <> CFP.HoS -> frame_pools s' = frame_pools s)
              /\ (CFP.get_state pp h = CFP.HoS -> CFP.nframes pp < 2 ^ 31 ->
                  exists len pp',
                    frame_pools s' = pre ++ pp' :: post
                    /\ 1 <= len /\ h + len <= CFP.nframes pp
                    /\ (forall f, h < f < h + len ->
                                  CFP.get_state pp f = CFP.Used)
                    /\ (h + len < CFP.nframes pp ->
                        CFP.get_state pp (h + len) <> CFP.Used)
                    /\ (forall f, h <= f < h + len ->
                                  CFP.get_state pp' f = CFP.Free)
                    /\ (forall f, 0 <= f < CFP.nframes pp ->
                                  ~ (h <= f < h + len) ->
                                  CFP.get_state pp' f = CFP.get_state pp f)
                    /\ CFP.nFreeFrames pp' = u32 (CFP.nFreeFrames pp + len)
                    /\ CFP.base_frame_no pp' = CFP.base_frame_no pp
                    /\ CFP.nframes pp' = CFP.nframes pp))).
Proof.
  intros Hok addr frame_no.
  destruct (free_page_effect v this _page_no s Hok) as [H0 H1].
  split; [exact H0 |]. intros Hp.
  destruct (H1 Hp) as (pools' & s' & E & _ & Ef & Epools & Hm & Hother & Hcr3 & Htlb).
  fold addr in E. fold frame_no in E.
  exists s'. split; [exact Ef |]. split; [exact Hm |]. split; [exact Hother |].
  split; [exact Hcr3 |]. split; [exact Htlb |]. rewrite Epools. split.
  - intros Hnone.
    pose proof (release_frames_skip (frame_pools s) [] frame_no Hnone) as Es.
    rewrite app_nil_r in Es. rewrite Es in E. cbn in E.
    rewrite app_nil_r in E. congruence.
  - intros pre pp post Hs Hpre Hin h.
    rewrite Hs, (release_frames_owner pre pp post frame_no Hpre Hin) in E.
    fold h in E. split.
    + intros Hst. unfold CFP._release_frames, CFP._release_frames_traced in E.
      apply FrameState_eqb_neq in Hst. rewrite Hst in E. cbn in E. congruence.
    + intros Hst Hn.
      assert (Hh : 0 <= h < CFP.nframes pp).
      { split; [apply u32_range | exact Hin]. }
      destruct (_release_frames_run pp h Hh Hn Hst)
        as (len & Hl1 & Hl2 & Hused & Hstop & Erel).
      rewrite Erel in E. cbn [fmap option_fmap option_map] in E.
      injection E as <-.
      exists len. eexists. split; [reflexivity |].
      split; [exact Hl1 |]. split; [exact Hl2 |]. split; [exact Hused |].
      split; [exact Hstop |].
      assert (Hst' : forall g, 0 <= g < 2 ^ 31 ->
                CFP.get_state
                  (CFP.mkPool (CFP.base_frame_no pp) (CFP.nframes pp)
                     (u32 (CFP.nFreeFrames pp + len)) (CFP.info_frame_no pp)
                     (CFP.set_states (Z.to_nat len) h CFP.Free (CFP.bitmap pp))) g
                = if (h <=? g) && (g <? h + len) then CFP.Free
                  else CFP.get_state pp g).
      { intros g Hg. unfold CFP.get_state. cbn [CFP.bitmap].
        rewrite get_set_states by lia. rewrite Z2Nat.id by lia. reflexivity. }
      split.
      { intros f Hf. rewrite Hst' by lia.
        destruct (Z.leb_spec h f); [| lia].
        destruct (Z.ltb_spec f (h + len)); [reflexivity | lia]. }
      split.
      { intros f Hf Hout. rewrite Hst' by lia.
        destruct (Z.leb_spec h f); destruct (Z.ltb_spec f (h + len));
          try lia; reflexivity. }
      split; [reflexivity |]. split; reflexivity.
Qed.

(** The page at [0x20002000] backed by process frame 1024, in the state
    that the boot sequence and one page fault leave behind: the frame is
    [Free] again afterwards. *)
Lemma free_page_spec_witness :
  let kernel := CFP.init (fun _ => 0) 512 512 0 in
  let process := fst (CFP.get_frames (CFP.init (fun _ => 0) 1024 7168 513) 1) in
  let pte := PTE_address 0x20002000 in
  let s := mkMachine (fun a => if a =? pte then 1024 * 4096 + 3 else 2)
                     0x202000 0 [process; kernel] None in
  CFP.pools_ok (frame_pools s)
  /\ Z.land (mem s pte) 1 <> 0
  /\ exists s' process',
       free_page SinglePT (mkPT 0x202000) 0x20002000 s = Some s'
       /\ mem s' pte = 2
       /\ cr3 s' = 0x202000
       /\ tlb_flushes s' = 1%nat
       /\ frame_pools s' = [process'; kernel]
       /\ CFP.get_state process' 0 = CFP.Free.
Proof.
  intros kernel process pte s.
  assert (Hok : CFP.pools_ok (frame_pools s)).
  { repeat constructor; vm_compute; reflexivity. }
  assert (Hp : Z.land (mem s pte) 1 <> 0) by (vm_compute; discriminate).
  split; [exact Hok |]. split; [exact Hp |].
  destruct (free_page_spec SinglePT (mkPT 0x202000) 0x20002000 s Hok) as [_ H].
  destruct (H Hp) as (s' & E & Hm & _ & Hc & Ht & _ & Hrel).
  destruct (Hrel [] process [kernel] eq_refl ltac:(constructor)
              ltac:(vm_compute; reflexivity)) as [_ Hhos].
  destruct (Hhos ltac:(vm_compute; reflexivity) ltac:(vm_compute; reflexivity))
    as (len & process' & Epools & Hl & _ & _ & _ & Hfree & _).
  exists s', process'. split; [exact E |]. split; [exact Hm |].
  split; [exact Hc |]. split; [exact Ht |]. split; [exact Epools |].
  apply Hfree. change (u32 (mem s (PTE_address 0x20002000) / PAGE_SIZE
                             - CFP.base_frame_no process)) with 0. lia.
Defined.

(** C8, refuted as stated: a present PTE does not make [free_page] return
    a frame to a pool.  The fault handler writes the entry 3 (frame 0) when
    the process pool is exhausted; [free_page] of that page overwrites the
    entry and leaves every pool as it was, frame 0 being a frame of no
    pool. *)
Lemma free_page_present_frame_not_returned :
  ~ (forall v this _page_no s,
        CFP.pools_ok (frame_pools s) ->
        Z.land (mem s (PTE_address _page_no)) 1 <> 0 ->
        exists s',
          free_page v this _page_no s = Some s'
          /\ frame_pools s' <> frame_pools s).
Proof.
  intros H.
  set (process := fst (CFP.get_frames (CFP.init (fun _ => 0) 1024 8 513) 8)).
  set (s := mkMachine (fun a => if a =? PTE_address 0x20002000 then 3 else 2)
                      0x202000 0 [process] None).
  destruct (H MultiPT (mkPT 0x202000) 0x20002000 s) as (s' & E & Hne).
  - repeat constructor; vm_compute; reflexivity.
  - vm_compute. discriminate.
  - apply Hne. vm_compute in E. injection E as <-. reflexivity.
Qed.

End FreePageRelease.

(** ** The page table: the recursive window, [load], [free_page] and the
       page-fault handler *)

Section PageTableFacts.
Import PT.

Lemma lor_window x :
  0 <= x < 2 ^ 22 -> Z.lor 0x3FC00000 x = 0x3FC00000 + x.
Proof.
  intros Hx. rewrite <- Z.lxor_lor, <- Z.add_nocarry_lxor; try reflexivity;
    apply Z.bits_inj'; intros n Hn; rewrite Z.land_spec, Z.bits_0;
    (destruct (Z_lt_dec n 22) as [Hlt | Hge];
     [ change 0x3FC00000 with (Z.shiftl 255 22);
       rewrite Z.shiftl_spec_low by lia; reflexivity
     | rewrite <- (Z.mod_small x (2 ^ 22)) by lia;
       rewrite Z.mod_pow2_bits_high by lia; apply andb_false_r ]).
Qed.

(** Clearing the low [k] bits of a 32-bit word. *)
Lemma land_clear_low k y :
  0 <= k <= 32 -> 0 <= y < 2 ^ 32 ->
  Z.land y (Z.shiftl (Z.ones (32 - k)) k) = 2 ^ k * (y / 2 ^ k).
Proof.
  intros Hk Hy.
  replace (2 ^ k * (y / 2 ^ k)) with (Z.shiftl (Z.shiftr y k) k)
    by (rewrite Z.shiftl_mul_pow2, Z.shiftr_div_pow2 by lia; lia).
  apply Z.bits_inj'. intros n Hn. rewrite Z.land_spec.
  destruct (Z_lt_dec n k) as [Hlt | Hge].
  - rewrite !Z.shiftl_spec_low by lia. apply andb_false_r.
  - rewrite !Z.shiftl_spec by lia. rewrite Z.shiftr_spec by lia.
    replace (n - k + k) with n by lia.
    destruct (Z_lt_dec n 32) as [Hlt | Hge'].
    + rewrite Z.ones_spec_low by lia. apply andb_true_r.
    + rewrite Z.ones_spec_high by lia. rewrite andb_false_r.
      rewrite <- (Z.mod_small y (2 ^ 32)) by lia.
      rewrite Z.mod_pow2_bits_high by lia. reflexivity.
Qed.

(** The address of the entry that maps [a], as arithmetic. *)
Lemma PTE_address_value a :
  0 <= a < 2 ^ 32 -> PTE_address a = 0x3FC00000 + 4 * (a / PAGE_SIZE).
Proof.
  intros Ha. unfold PTE_address, KERNEL_MEM_LIMIT, PAGE_SIZE.
  change (2 ^ 30 - 4 * Z.shiftl 1 20) with 0x3FC00000.
  rewrite Z.shiftr_div_pow2 by lia.
  assert (Hq : 0 <= a / 2 ^ 10 < 2 ^ 22)
    by (split; [apply Z.div_pos; lia | apply Z.div_lt_upper_bound; lia]).
  rewrite lor_window by exact Hq.
  change (u32 (Z.lnot 3)) with (Z.shiftl (Z.ones (32 - 2)) 2).
  rewrite land_clear_low by lia.
  change (2 ^ 10) with 1024 in *. change (2 ^ 2) with 4.
  Z.div_mod_to_equations. lia.
Qed.

(** X11.  [PTE_address] computes the slot of the recursive window: entry
    number [a / PAGE_SIZE] of the 4 MiB window at [0x3FC00000].  The
    address is word aligned, lies in the window, and two addresses have the
    same entry exactly when they lie on the same page. *)
Theorem PTE_address_window a b :
  0 <= a < 2 ^ 32 -> 0 <= b < 2 ^ 32 ->
  PTE_address a = 0x3FC00000 + 4 * (a / PAGE_SIZE)
  /\ 0x3FC00000 <= PTE_address a < 0x40000000
  /\ PTE_address a mod 4 = 0
  /\ (PTE_address a = PTE_address b <-> a / PAGE_SIZE = b / PAGE_SIZE).
Proof.
  intros Ha Hb. rewrite !PTE_address_value by assumption.
  unfold PAGE_SIZE.
  split; [reflexivity |]. split; [Z.div_mod_to_equations; lia |].
  split; [Z.div_mod_to_equations; lia | lia].
Qed.

Lemma PTE_address_window_witness :
  PTE_address 0x20002abc = 0x3FC00000 + 4 * (0x20002abc / PAGE_SIZE).
Proof.
  exact (proj1 (PTE_address_window 0x20002abc 0 ltac:(lia) ltac:(lia))).
Defined.

(** X12.  [load] makes the table current and leaves [cr3] holding its
    directory.  The variant with one page table per thread writes [cr3],
    and so flushes the TLB, only when [cr3] held another value; the
    single-table variant flushes on every call. *)
Theorem load_sets_current v this s :
  let s' := load v this s in
  current_page_table s' = Some this
  /\ cr3 s' = page_directory this
  /\ mem s' = mem s /\ frame_pools s' = frame_pools s
  /\ tlb_flushes s' =
     match v with
     | SinglePT => S (tlb_flushes s)
     | MultiPT => if cr3 s =? page_directory this then tlb_flushes s
                  else S (tlb_flushes s)
     end
  /\ load MultiPT this (load v this s) = load v this s.
Proof.
  intros s'. unfold s', load, write_cr3, read_cr3.
  destruct v; cbn [current_page_table cr3 mem frame_pools tlb_flushes].
  - rewrite Z.eqb_refl. cbn [negb]. repeat split.
  - destruct (Z.eqb_spec (cr3 s) (page_directory this)) as [E | E];
      cbn [negb current_page_table cr3 mem frame_pools tlb_flushes].
    + rewrite E, Z.eqb_refl. repeat split.
    + rewrite Z.eqb_refl. repeat split.
Qed.

(** X13.  [free_page] of a page that is not mapped changes nothing; in
    particular a page that has just been freed can be freed again without
    effect, so no frame is released twice. *)
Theorem free_page_twice v this a s s' :
  free_page v this a s = Some s' ->
  Z.land (mem s' (PTE_address a)) 1 = 0
  /\ free_page v this a s' = Some s'.
Proof.
  intros H.
  assert (Hbit : Z.land (mem s' (PTE_address a)) 1 = 0).
  { unfold free_page in H.
    destruct (Z.eqb_spec (Z.land (mem s (PTE_address a)) 1) 0) as [E | E].
    - injection H as <-. exact E.
    - destruct (CFP.release_frames _ _) as [pools |]; [| discriminate].
      cbn [mbind option_bind] in H. injection H as <-.
      destruct v; unfold load, write_cr3; cbn [mem]; unfold store;
        rewrite Z.eqb_refl; reflexivity. }
  split; [exact Hbit |].
  unfold free_page. rewrite Hbit. reflexivity.
Qed.


Lemma free_page_twice_witness :
  let p := fst (CFP.get_frames (CFP.init (fun _ => 0) 1024 8 513) 1) in
  let s := mkMachine (fun _ => 1024 * PAGE_SIZE + 3) 0 0 [p] None in
  exists s',
    free_page MultiPT (mkPT 0x200000) 0x20000000 s = Some s'
    /\ CFP.nFreeFrames <$> frame_pools s' = [8]
    /\ free_page MultiPT (mkPT 0x200000) 0x20000000 s' = Some s'.
Proof.
  intros p s.
  destruct (free_page MultiPT (mkPT 0x200000) 0x20000000 s) as [s' |] eqn:E;
    [| vm_compute in E; discriminate].
  exists s'. split; [reflexivity |]. split.
  - vm_compute in E. injection E as <-. reflexivity.
  - exact (proj2 (free_page_twice _ _ _ _ _ E)).
Defined.

End PageTableFacts.

Section PageFaults.
Import PT Fault.

(** A present entry for frame [r]: [PAGE_SIZE * r | 3]. *)
Lemma entry_value r :
  0 <= r < 2 ^ 20 ->
  Z.lor (u32 (PAGE_SIZE * r)) 3 = PAGE_SIZE * r + 3
  /\ Z.land (PAGE_SIZE * r + 3) 1 = 1
  /\ (PAGE_SIZE * r + 3) / PAGE_SIZE = r.
Proof.
  intros Hr. unfold PAGE_SIZE.
  rewrite u32_small by lia.
  assert (E : Z.lor (4096 * r) 3 = 4096 * r + 3).
  { rewrite <- Z.lxor_lor, <- Z.add_nocarry_lxor; try reflexivity;
      apply Z.bits_inj'; intros n Hn; rewrite Z.land_spec, Z.bits_0;
      (destruct (Z_lt_dec n 12) as [Hlt | Hge];
       [ replace (4096 * r) with (Z.shiftl r 12)
           by (rewrite Z.shiftl_mul_pow2 by lia; lia);
         rewrite Z.shiftl_spec_low by lia; reflexivity
       | rewrite <- (Z.mod_small 3 (2 ^ 12)) by lia;
         rewrite Z.mod_pow2_bits_high by lia; apply andb_false_r ]). }
  split; [exact E |]. split.
  - change (Z.land (4096 * r + 3) 1) with (Z.land (4096 * r + 3) (Z.ones 1)).
    rewrite Z.land_ones by lia.
    change (2 ^ 1) with 2. Z.div_mod_to_equations. lia.
  - Z.div_mod_to_equations. lia.
Qed.

Lemma store_same m i v :
  store m i v i = v.
Proof.
  unfold store. rewrite Z.eqb_refl. reflexivity.
Qed.

(** What [pool_get_frames] returns, and that it leaves the memory alone. *)
Lemma pool_get_frames_eq pi n s p :
  frame_pools s !! pi = Some p ->
  pool_get_frames pi n s =
  Some (mkMachine (mem s) (cr3 s) (tlb_flushes s)
                  (<[pi := fst (CFP.get_frames p n)]> (frame_pools s))
                  (current_page_table s),
        snd (CFP.get_frames p n)).
Proof. intros E. unfold pool_get_frames. rewrite E. reflexivity. Qed.

(** [get_frames] keeps the extent of the pool, and the frame number it
    returns is a frame number of the machine; 0 when it fails. *)
Lemma get_frames_bounds p n :
  0 <= CFP.base_frame_no p -> 0 <= CFP.nframes p ->
  CFP.base_frame_no p + CFP.nframes p <= 2 ^ 20 ->
  0 <= CFP.nFreeFrames p < 2 ^ 32 -> 1 <= n ->
  CFP.base_frame_no (fst (CFP.get_frames p n)) = CFP.base_frame_no p
  /\ CFP.nframes (fst (CFP.get_frames p n)) = CFP.nframes p
  /\ 0 <= CFP.nFreeFrames (fst (CFP.get_frames p n)) < 2 ^ 32
  /\ 0 <= snd (CFP.get_frames p n) < 2 ^ 20.
Proof.
  intros Hb Hnf Htop Hfr Hn.
  destruct (get_frames_cases p n) as [[E _] | (st & H1 & H2 & H3 & _ & _ & E)];
    try lia; rewrite E; cbn [fst snd CFP.base_frame_no CFP.nframes CFP.nFreeFrames].
  - repeat split; lia.
  - rewrite u32_small by lia. repeat split; lia.
Qed.

(** The walk over a list of VM pools finds none that claims the address. *)
Lemma claimed_false l a :
  (forall vp, In vp l -> VMP.is_legitimate vp a = false) ->
  claimed l a = false.
Proof.
  intros Hl. unfold claimed.
  destruct (existsb _ l) eqn:Ex; [| reflexivity].
  apply existsb_exists in Ex. destruct Ex as (vp & Hin & Hleg).
  rewrite (Hl vp Hin) in Hleg. discriminate.
Qed.

(** Past the two checks the handler is at [found_pool]. *)
Lemma handle_fault_found err a kp up pi s cur :
  Z.land err 1 <> 1 ->
  claimed kp a || claimed (up cur) a = true ->
  current_page_table s = Some cur ->
  handle_fault err a kp up pi s = found_pool a pi s.
Proof.
  intros Herr Hleg Hcur. unfold handle_fault.
  destruct (Z.eqb_spec (Z.land err 1) 1) as [E | _]; [contradiction |].
  destruct (claimed kp a); [reflexivity |].
  rewrite Hcur. cbn [mbind option_bind]. cbn [orb] in Hleg. rewrite Hleg.
  reflexivity.
Qed.

(** X14.  The error paths of [handle_fault].  A protection fault (bit 0 of
    the error code set) is reported as [PROTECTION_FAULT] before anything
    else is read.  Otherwise, with a page table loaded, a fault at an
    address that no VM pool of the kernel and no VM pool of the current
    page table claims is reported as [INVALID_FAULT].  In both cases
    neither memory nor frame pools change.  With no page table loaded
    ([current_page_table] is [NULL]) a fault that is not a protection fault
    has no result: the handler dereferences [current_page_table], for its
    [head_pool] or, when a pool of the kernel claims the address, for its
    page directory. *)
Theorem handle_fault_rejects err a kp up pi s :
  (Z.land err 1 = 1 ->
   handle_fault err a kp up pi s = Some (s, Some PROTECTION_FAULT))
  /\ (forall cur,
        Z.land err 1 <> 1 -> current_page_table s = Some cur ->
        (forall vp, In vp (kp ++ up cur) -> VMP.is_legitimate vp a = false) ->
        handle_fault err a kp up pi s = Some (s, Some INVALID_FAULT))
  /\ (Z.land err 1 <> 1 -> current_page_table s = None ->
      handle_fault err a kp up pi s = None).
Proof.
  unfold handle_fault. split; [| split].
  - intros E. rewrite E. reflexivity.
  - intros cur Herr Hcur H.
    destruct (Z.eqb_spec (Z.land err 1) 1) as [E | _]; [contradiction |].
    rewrite (claimed_false kp a) by (intros vp Hin; apply H, in_or_app; auto).
    rewrite Hcur. cbn [mbind option_bind].
    rewrite (claimed_false (up cur) a) by (intros vp Hin; apply H, in_or_app; auto).
    reflexivity.
  - intros Herr Hcur.
    destruct (Z.eqb_spec (Z.land err 1) 1) as [E | _]; [contradiction |].
    unfold found_pool. rewrite Hcur.
    destruct (claimed kp a); reflexivity.
Qed.

(** The kernel page table is loaded and one VM pool is registered with it;
    a protection fault, a fault below the pool, and the same fault with no
    page table loaded. *)
Lemma handle_fault_rejects_witness :
  let vp := VMP.mkVMPool 0x20000000 (256 * 2 ^ 20) (mkPT 0x200000) [] [] in
  let s := mkMachine (fun _ => 2) 0x200000 0 [] (Some (mkPT 0x200000)) in
  let s0 := mkMachine (fun _ => 2) 0x200000 0 [] None in
  handle_fault 7 0x20000abc [vp] (fun _ => []) 0 s = Some (s, Some PROTECTION_FAULT)
  /\ handle_fault 6 0x1000 [vp] (fun _ => []) 0 s = Some (s, Some INVALID_FAULT)
  /\ handle_fault 6 0x1000 [vp] (fun _ => []) 0 s0 = None.
Proof.
  intros vp s s0. split; [| split].
  - exact (proj1 (handle_fault_rejects 7 0x20000abc [vp] (fun _ => []) 0 s) eq_refl).
  - apply (proj1 (proj2 (handle_fault_rejects 6 0x1000 [vp] (fun _ => []) 0 s))
             (mkPT 0x200000)).
    + vm_compute. discriminate.
    + reflexivity.
    + intros q [<- | []]. vm_compute. reflexivity.
  - apply (proj2 (proj2 (handle_fault_rejects 6 0x1000 [vp] (fun _ => []) 0 s0))).
    + vm_compute. discriminate.
    + reflexivity.
Defined.

(** The handler past its two checks, on a present directory entry. *)
Lemma handle_fault_page err a kp up pi s cur p :
  Z.land err 1 <> 1 ->
  claimed kp a || claimed (up cur) a = true ->
  current_page_table s = Some cur ->
  Z.land (mem s (PDE_address cur a)) 1 <> 0 ->
  Z.land (mem s (PTE_address a)) 1 = 0 ->
  frame_pools s !! pi = Some p ->
  handle_fault err a kp up pi s =
  Some (mkMachine
          (store (store (mem s) (PTE_address a)
                        (u32 (PAGE_SIZE * snd (CFP.get_frames p 1))))
                 (PTE_address a)
                 (Z.lor (u32 (PAGE_SIZE * snd (CFP.get_frames p 1))) 3))
          (cr3 s) (tlb_flushes s)
          (<[pi := fst (CFP.get_frames p 1)]> (frame_pools s))
          (current_page_table s), None).
Proof.
  intros Herr Hleg Hcur Hpde Hpte Hp.
  rewrite (handle_fault_found err a kp up pi s cur Herr Hleg Hcur).
  unfold found_pool. rewrite Hcur. cbn [mbind option_bind].
  destruct (Z.eqb_spec (Z.land (mem s (PDE_address cur a)) 1) 0) as [E | _];
    [contradiction |].
  cbn [mbind option_bind]. rewrite Hpte, Z.eqb_refl.
  rewrite (pool_get_frames_eq pi 1 s p Hp). cbn [mbind option_bind].
  unfold with_mem. cbn [mem cr3 tlb_flushes frame_pools current_page_table].
  rewrite store_same, ?Hcur. reflexivity.
Qed.




(** X16.  The handler does not check the result of [get_frames]: when the
    process pool has no free frame, [get_frames(1)] returns 0 and the
    handler still marks the page present, backed by frame 0, and reports
    no error. *)
Theorem handle_fault_exhausted_pool err a kp up pi s cur p :
  Z.land err 1 <> 1 ->
  claimed kp a || claimed (up cur) a = true ->
  current_page_table s = Some cur ->
  Z.land (mem s (PDE_address cur a)) 1 <> 0 ->
  Z.land (mem s (PTE_address a)) 1 = 0 ->
  frame_pools s !! pi = Some p -> CFP.nFreeFrames p = 0 ->
  exists s',
    handle_fault err a kp up pi s = Some (s', None)
    /\ mem s' (PTE_address a) = 3
    /\ (forall x, x <> PTE_address a -> mem s' x = mem s x)
    /\ frame_pools s' = frame_pools s.
Proof.
  intros Herr Hleg Hcur Hpde Hpte Hp Hfree.
  rewrite (handle_fault_page err a kp up pi s cur p) by assumption.
  assert (E : CFP.get_frames p 1 = (p, 0)).
  { unfold CFP.get_frames. rewrite Hfree. reflexivity. }
  rewrite E. cbn [fst snd].
  eexists. split; [reflexivity |]. cbn [mem frame_pools].
  split; [unfold store at 1; rewrite Z.eqb_refl; reflexivity |].
  split; [| apply list_insert_id; exact Hp].
  intros x Hx. unfold store. destruct (Z.eqb_spec x (PTE_address a)); [contradiction |].
  reflexivity.
Qed.

Lemma handle_fault_exhausted_pool_witness :
  let vp := VMP.mkVMPool 0x20000000 (256 * 2 ^ 20) (mkPT 0x200000) [] [] in
  let p := fst (CFP.get_frames (CFP.init (fun _ => 0) 1024 8 513) 8) in
  let s := mkMachine (fun x => if x <? 0x3FC00000 then 7 else 2) 0x200000 0
                     [p] (Some (mkPT 0x200000)) in
  exists s',
    handle_fault 2 0x20000abc [vp] (fun _ => []) 0 s = Some (s', None)
    /\ mem s' (PTE_address 0x20000abc) = 3.
Proof.
  intros vp p s.
  destruct (handle_fault_exhausted_pool 2 0x20000abc [vp] (fun _ => []) 0 s (mkPT 0x200000) p
              ltac:(vm_compute; discriminate) ltac:(vm_compute; reflexivity)
              eq_refl ltac:(vm_compute; discriminate)
              ltac:(vm_compute; reflexivity) eq_refl
              ltac:(vm_compute; reflexivity))
    as (s' & E & H3 & _).
  exists s'. split; [exact E | exact H3].
Defined.

(** X17.  A page mapped by the fault handler and then freed with
    [free_page], on a process pool whose frame numbers are frame numbers of
    the machine and from which the handler got a frame.  The entry of the
    page is not present afterwards and no other word of memory differs from
    before the fault.  [free_page] releases the frame together with the
    [Used] frames that directly follow it in the pool, [len] frames in
    all: these are [Free] afterwards, every other frame has the state it
    had before the fault, and [nFreeFrames] is its value before the fault
    plus [len - 1].  When the frame after the one handed out is not
    [Used], as in every pool that satisfies the invariants, [len] is 1 and
    the pool is back where it was.  A [Used] frame there that heads no
    sequence, such as the first frame of a range marked by
    [mark_inaccessible], is set free along with the page. *)
Theorem handle_fault_then_free_page v this err a kp up s cur pre p post :
  Z.land err 1 <> 1 ->
  claimed kp a || claimed (up cur) a = true ->
  current_page_table s = Some cur ->
  Z.land (mem s (PDE_address cur a)) 1 <> 0 ->
  Z.land (mem s (PTE_address a)) 1 = 0 ->
  frame_pools s = pre ++ p :: post -> Frames.within_machine p ->
  snd (CFP.get_frames p 1) <> 0 ->
  Forall (fun q => ~ CFP.in_range q (snd (CFP.get_frames p 1))) pre ->
  let st := snd (CFP.get_frames p 1) - CFP.base_frame_no p in
  exists s' s'' p2 len,
    handle_fault err a kp up (length pre) s = Some (s', None)
    /\ free_page v this a s' = Some s''
    /\ mem s'' (PTE_address a) = 2
    /\ (forall x, x <> PTE_address a -> mem s'' x = mem s x)
    /\ frame_pools s'' = pre ++ p2 :: post
    /\ 0 <= st /\ 1 <= len /\ st + len <= CFP.nframes p
    /\ (forall f, st < f < st + len -> CFP.get_state p f = CFP.Used)
    /\ (st + len < CFP.nframes p -> CFP.get_state p (st + len) <> CFP.Used)
    /\ (forall f, st <= f < st + len -> CFP.get_state p2 f = CFP.Free)
    /\ (forall f, 0 <= f < CFP.nframes p -> ~ (st <= f < st + len) ->
                  CFP.get_state p2 f = CFP.get_state p f)
    /\ CFP.nFreeFrames p2 = u32 (CFP.nFreeFrames p - 1 + len)
    /\ ((st + 1 < CFP.nframes p -> CFP.get_state p (st + 1) <> CFP.Used) ->
        len = 1
        /\ CFP.nFreeFrames p2 = CFP.nFreeFrames p
        /\ forall f, 0 <= f < CFP.nframes p ->
                     CFP.get_state p2 f = CFP.get_state p f).
Proof.
  intros Herr Hleg Hcur Hpde Hpte Hpools Hwm Hr Hpre st.
  assert (Hp : frame_pools s !! length pre = Some p).
  { rewrite Hpools. apply list_lookup_middle. reflexivity. }
  rewrite (handle_fault_page err a kp up (length pre) s cur p) by assumption.
  pose proof Hwm as (Hb & Hnf & Htop & Hfr).
  destruct (get_frames_bounds p 1 Hb Hnf Htop Hfr ltac:(lia)) as (_ & _ & _ & Hrange).
  destruct (entry_value _ Hrange) as (E1 & E2 & E3).
  destruct (get_one_then_release pre p post Hwm Hpre Hr)
    as (len & p2 & Erel & Hst0 & Hl1 & Hl2 & Hfree0 & Hused & Hstop & HF & HO & Hcnt).
  fold st in Hst0, Hl2, Hfree0, Hused, Hstop, HF, HO.
  set (s' := mkMachine _ _ _ _ _).
  assert (Hm' : mem s' (PTE_address a) = PAGE_SIZE * snd (CFP.get_frames p 1) + 3).
  { unfold s'. cbn [mem]. unfold store at 1. rewrite Z.eqb_refl. exact E1. }
  assert (Hx' : forall x, x <> PTE_address a -> mem s' x = mem s x).
  { intros x Hx. unfold s'. cbn [mem]. unfold store.
    destruct (Z.eqb_spec x (PTE_address a)); [contradiction | reflexivity]. }
  assert (Hp' : frame_pools s' = pre ++ fst (CFP.get_frames p 1) :: post).
  { unfold s'. cbn [frame_pools]. rewrite Hpools.
    rewrite insert_app_r_alt by lia. rewrite Nat.sub_diag. reflexivity. }
  clearbody s'.
  assert (Hfp : exists s'',
             free_page v this a s' = Some s''
             /\ mem s'' = store (mem s') (PTE_address a) 2
             /\ frame_pools s'' = pre ++ p2 :: post).
  { unfold free_page. cbv zeta. rewrite Hm', E2, E3, Hp', Erel.
    cbn [Z.eqb mbind option_bind].
    eexists. split; [reflexivity |]. destruct v; split; reflexivity. }
  destruct Hfp as (s'' & Efp & Hm'' & Hp'').
  exists s', s'', p2, len. split; [reflexivity |]. split; [exact Efp |].
  rewrite Hm'', Hp''.
  split; [unfold store; rewrite Z.eqb_refl; reflexivity |].
  split.
  { intros x Hx. unfold store.
    destruct (Z.eqb_spec x (PTE_address a)); [contradiction | apply Hx'; exact Hx]. }
  split; [reflexivity |].
  split; [exact Hst0 |]. split; [exact Hl1 |]. split; [exact Hl2 |].
  split; [exact Hused |]. split; [exact Hstop |]. split; [exact HF |].
  split; [exact HO |]. split; [exact Hcnt |].
  intros Hnext.
  assert (Hlen : len = 1).
  { destruct (Z.eq_dec len 1) as [-> | Hne]; [reflexivity |].
    exfalso. apply Hnext; [lia |]. apply Hused. lia. }
  subst len. split; [reflexivity |]. split.
  - rewrite Hcnt. replace (CFP.nFreeFrames p - 1 + 1) with (CFP.nFreeFrames p) by lia.
    apply u32_small. exact Hfr.
  - intros f Hf. destruct (Z.eq_dec f st) as [-> | Hne].
    + rewrite HF by lia. symmetry. exact Hfree0.
    + apply HO; [exact Hf | lia].
Qed.

(** A pool of sixteen frames with a hole of four frames, as the boot
    sequence leaves the process pool, after its first four frames have been
    handed out one by one: the next fault takes the frame before the hole,
    and freeing the page frees the hole with it.  [nFreeFrames] is 13
    before the fault and 17 after [free_page]. *)
Lemma handle_fault_then_free_page_witness :
  let vp := VMP.mkVMPool 0x20000000 (256 * 2 ^ 20) (mkPT 0x200000) [] [] in
  let p0 := CFP.mark_inaccessible (CFP.init (fun _ => 0) 1024 16 513) 1028 4 in
  let p := fst (Frames.get_frames_seq p0 [1; 1; 1]) in
  let s := mkMachine (fun x => if x <? 0x3FC00000 then 7 else 2) 0x200000 0
                     ([] ++ p :: []) (Some (mkPT 0x200000)) in
  exists s' s'' p2,
    handle_fault 2 0x20000abc [vp] (fun _ => []) 0 s = Some (s', None)
    /\ free_page MultiPT (mkPT 0x200000) 0x20000abc s' = Some s''
    /\ mem s'' (PTE_address 0x20000abc) = 2
    /\ frame_pools s'' = [] ++ p2 :: []
    /\ CFP.nFreeFrames p = 13
    /\ CFP.nFreeFrames p2 = 17
    /\ forall f, 3 <= f < 8 -> CFP.get_state p2 f = CFP.Free.
Proof.
  intros vp p0 p s.
  destruct (handle_fault_then_free_page MultiPT (mkPT 0x200000) 2 0x20000abc
              [vp] (fun _ => []) s (mkPT 0x200000) [] p []
              ltac:(vm_compute; discriminate) ltac:(vm_compute; reflexivity)
              eq_refl ltac:(vm_compute; discriminate)
              ltac:(vm_compute; reflexivity) eq_refl
              ltac:(vm_compute; repeat split; discriminate)
              ltac:(vm_compute; discriminate) ltac:(constructor))
    as (s' & s'' & p2 & len & E1 & E2 & E3 & _ & E4 & _ & Hl1 & Hl2 & Hused & Hstop
        & HF & _ & Hcnt & _).
  change (snd (CFP.get_frames p 1) - CFP.base_frame_no p) with 3
    in Hl2, Hused, Hstop, HF.
  change (CFP.nframes p) with 16 in Hl2, Hstop.
  assert (Hlen : len = 5).
  { destruct (Z_lt_dec len 5) as [Hlt | Hge].
    - exfalso. apply Hstop; [lia |].
      assert (len = 1 \/ len = 2 \/ len = 3 \/ len = 4) as [-> | [-> | [-> | ->]]]
        by lia; reflexivity.
    - destruct (Z.eq_dec len 5) as [-> | Hne]; [reflexivity |].
      exfalso. assert (H8 : CFP.get_state p 8 = CFP.Used) by (apply Hused; lia).
      vm_compute in H8. discriminate H8. }
  subst len.
  exists s', s'', p2. split; [exact E1 |].
  split; [exact E2 |]. split; [exact E3 |]. split; [exact E4 |].
  split; [reflexivity |]. split; [rewrite Hcnt; reflexivity |].
  intros f Hf. apply HF. lia.
Defined.

Lemma init_table_outside count :
  forall base i m x,
  (forall j, i <= j < i + Z.of_nat count -> x <> base + 4 * j) ->
  init_table count base i m x = m x.
Proof.
  induction count as [| count IH]; intros base i m x H; [reflexivity |].
  cbn [init_table]. rewrite IH by (intros j Hj; apply H; lia).
  unfold store. destruct (Z.eqb_spec x (base + 4 * i)) as [E | E]; [| reflexivity].
  exfalso. apply (H i); [lia | exact E].
Qed.

Lemma init_table_inside count :
  forall base i m j,
  i <= j < i + Z.of_nat count ->
  init_table count base i m (base + 4 * j) = 2.
Proof.
  induction count as [| count IH]; intros base i m j Hj; [lia |].
  cbn [init_table].
  destruct (Z.eq_dec j i) as [-> | Hne].
  - rewrite init_table_outside by (intros j Hj'; lia).
    unfold store. rewrite Z.eqb_refl. reflexivity.
  - apply IH. lia.
Qed.

(** The first entry of the page table that holds the entry of [a]. *)
Lemma table_of_address a :
  0 <= a < 2 ^ 32 ->
  PTE_address (Z.land a (u32 (Z.lnot (Z.shiftl 1 22 - 1))))
  = 0x3FC00000 + 4096 * (a / 2 ^ 22).
Proof.
  intros Ha.
  change (u32 (Z.lnot (Z.shiftl 1 22 - 1))) with (Z.shiftl (Z.ones (32 - 22)) 22).
  rewrite land_clear_low by lia.
  rewrite PTE_address_value
    by (change (2 ^ 22) with 4194304; Z.div_mod_to_equations; lia).
  unfold PAGE_SIZE. change (2 ^ 22) with 4194304. Z.div_mod_to_equations. lia.
Qed.

(** X18.  A fault at a legitimate address whose directory entry is not
    present, with the page directory below the recursive window and a
    process pool whose frame numbers are frame numbers of the machine: the
    handler takes two frames from the process pool, the first for a new
    page table and the second for the page.  The directory entry points to
    the first, the entry of the page to the second, and every other entry
    of the new table, the entries of the pages of the same 4 MiB region, is
    initialised to not present.  No other word is written: a word that is
    neither the directory entry nor an entry of the new table keeps its
    value, the entries of all other page tables included.  Two successful
    allocations give two different frames. *)
Theorem handle_fault_directory_fault err a kp up pi s cur p :
  Z.land err 1 <> 1 ->
  claimed kp a || claimed (up cur) a = true ->
  0 <= a < 2 ^ 32 ->
  current_page_table s = Some cur ->
  0 <= page_directory cur -> page_directory cur + 4096 <= 0x3FC00000 ->
  Z.land (mem s (PDE_address cur a)) 1 = 0 ->
  frame_pools s !! pi = Some p -> Frames.within_machine p ->
  let p1 := fst (CFP.get_frames p 1) in
  let r1 := snd (CFP.get_frames p 1) in
  let p2 := fst (CFP.get_frames p1 1) in
  let r2 := snd (CFP.get_frames p1 1) in
  exists s',
    handle_fault err a kp up pi s = Some (s', None)
    /\ mem s' (PDE_address cur a) = PAGE_SIZE * r1 + 3
    /\ mem s' (PTE_address a) = PAGE_SIZE * r2 + 3
    /\ (forall b, 0 <= b < 2 ^ 32 -> b / 2 ^ 22 = a / 2 ^ 22 ->
                  b / PAGE_SIZE <> a / PAGE_SIZE ->
                  mem s' (PTE_address b) = 2)
    /\ (forall x, x <> PDE_address cur a ->
                  (forall b, 0 <= b < 2 ^ 32 -> b / 2 ^ 22 = a / 2 ^ 22 ->
                             x <> PTE_address b) ->
                  mem s' x = mem s x)
    /\ frame_pools s' = <[pi := p2]> (frame_pools s)
    /\ (r1 <> 0 -> r2 <> 0 -> r1 <> r2).
Proof.
  intros Herr Hleg Ha Hcur Hpd0 Hpd1 Hpde Hp Hwm p1 r1 p2 r2.
  destruct Hwm as (Hb & Hnf & Htop & Hfr).
  destruct (get_frames_bounds p 1 Hb ltac:(lia) Htop ltac:(lia) ltac:(lia))
    as (Eb1 & En1 & Hf1 & Hr1). fold p1 in Eb1, En1, Hf1. fold r1 in Hr1.
  destruct (get_frames_bounds p1 1 ltac:(lia) ltac:(lia) ltac:(lia) Hf1 ltac:(lia))
    as (_ & _ & _ & Hr2). fold r2 in Hr2.
  destruct (entry_value r1 Hr1) as (E1 & _ & _).
  destruct (entry_value r2 Hr2) as (E2 & _ & _).
  set (pde := PDE_address cur a).
  set (pte := PTE_address a).
  set (tb := 0x3FC00000 + 4096 * (a / 2 ^ 22)).
  assert (Hpde_lo : pde < 0x3FC00000).
  { unfold pde, PDE_address. change 0x3FF with (Z.ones 10).
    rewrite Z.land_ones by lia.
    pose proof (Z.mod_pos_bound (Z.shiftr a 22) (2 ^ 10) ltac:(lia)). lia. }
  assert (Hwin : forall b, 0 <= b < 2 ^ 32 -> b / 2 ^ 22 = a / 2 ^ 22 ->
            exists j, 0 <= j < 1024 /\ PTE_address b = tb + 4 * j
                      /\ j = b / PAGE_SIZE - 1024 * (a / 2 ^ 22)).
  { intros b Hb' Hsame. exists (b / PAGE_SIZE - 1024 * (a / 2 ^ 22)).
    rewrite PTE_address_value by exact Hb'. unfold tb, PAGE_SIZE.
    rewrite <- Hsame. change (2 ^ 22) with 4194304.
    repeat split; Z.div_mod_to_equations; lia. }
  destruct (Hwin a Ha eq_refl) as (ja & Hja & Epte & Eja). fold pte in Epte.
  set (m1 := store (mem s) pde (Z.lor (u32 (PAGE_SIZE * r1)) 3)).
  set (m2 := init_table ENTRIES_PER_PAGE tb 0 m1).
  assert (Hm2pte : m2 pte = 2).
  { unfold m2. rewrite Epte. apply init_table_inside.
    change (Z.of_nat ENTRIES_PER_PAGE) with 1024. lia. }
  assert (Hlen : (pi < length (frame_pools s))%nat)
    by (eapply lookup_lt_Some; exact Hp).
  assert (Hrun : handle_fault err a kp up pi s =
                 Some (mkMachine
                         (store (store m2 pte (u32 (PAGE_SIZE * r2))) pte
                                (Z.lor (u32 (PAGE_SIZE * r2)) 3))
                         (cr3 s) (tlb_flushes s)
                         (<[pi := p2]> (frame_pools s))
                         (current_page_table s), None)).
  { rewrite (handle_fault_found err a kp up pi s cur Herr Hleg Hcur).
    unfold found_pool. rewrite Hcur. cbn [mbind option_bind].
    rewrite Hpde, Z.eqb_refl. fold pde.
    rewrite (pool_get_frames_eq pi 1 s p Hp). cbn [mbind option_bind].
    fold p1 r1. rewrite table_of_address by exact Ha. fold tb.
    unfold with_mem. cbn [mem cr3 tlb_flushes frame_pools current_page_table].
    fold m1. fold m2. fold pte. rewrite Hm2pte. cbn [Z.land Z.eqb].
    rewrite (pool_get_frames_eq pi 1 _ p1)
      by (cbn [frame_pools]; apply list_lookup_insert_eq; exact Hlen).
    cbn [mbind option_bind mem cr3 tlb_flushes frame_pools current_page_table].
    fold p2 r2. rewrite list_insert_insert_eq.
    rewrite store_same, ?Hcur. reflexivity. }
  rewrite Hrun. eexists. split; [reflexivity |].
  cbn [mem frame_pools].
  assert (Hout : forall x, (forall j, 0 <= j < 1024 -> x <> tb + 4 * j) ->
                            m2 x = m1 x).
  { intros x Hx. unfold m2. apply init_table_outside.
    intros j Hj. change (Z.of_nat ENTRIES_PER_PAGE) with 1024 in Hj.
    apply Hx. lia. }
  assert (Hq : 0 <= a / 2 ^ 22 < 1024)
    by (change (2 ^ 22) with 4194304; Z.div_mod_to_equations; lia).
  assert (Hentry : forall j, 0 <= j < 1024 ->
            exists b, 0 <= b < 2 ^ 32 /\ b / 2 ^ 22 = a / 2 ^ 22
                      /\ PTE_address b = tb + 4 * j).
  { intros j Hj. exists (2 ^ 22 * (a / 2 ^ 22) + 4096 * j).
    assert (Hb' : 0 <= 2 ^ 22 * (a / 2 ^ 22) + 4096 * j < 2 ^ 32)
      by (change (2 ^ 22) with 4194304 in *; lia).
    assert (Hsame : (2 ^ 22 * (a / 2 ^ 22) + 4096 * j) / 2 ^ 22 = a / 2 ^ 22).
    { change (2 ^ 22) with 4194304 in *.
      generalize dependent (a / 4194304). intros q Hq' Hb'.
      Z.div_mod_to_equations. lia. }
    split; [exact Hb' |]. split; [exact Hsame |].
    destruct (Hwin _ Hb' Hsame) as (j' & Hj' & Eb' & Ej'). rewrite Eb'.
    f_equal. f_equal. rewrite Ej'. unfold PAGE_SIZE.
    change (2 ^ 22) with 4194304 in *.
    generalize dependent (a / 4194304). intros q Hq' Hb' Hsame.
    Z.div_mod_to_equations. lia. }
  assert (Hpde_out : forall j, 0 <= j < 1024 -> pde <> tb + 4 * j)
    by (intros j Hj; unfold tb; lia).
  assert (Hpte_win : 0x3FC00000 <= pte < 0x40000000).
  { rewrite Epte. unfold tb.
    assert (0 <= a / 2 ^ 22 < 1024)
      by (change (2 ^ 22) with 4194304; Z.div_mod_to_equations; lia).
    lia. }
  split.
  { unfold store at 1 2. destruct (Z.eqb_spec pde pte) as [E | _]; [lia |].
    rewrite Hout by exact Hpde_out. unfold m1, store. rewrite Z.eqb_refl.
    exact E1. }
  split; [unfold store at 1; rewrite Z.eqb_refl; exact E2 |].
  split.
  { intros b Hb' Hsame Hdiff.
    destruct (Hwin b Hb' Hsame) as (jb & Hjb & Eb' & Ejb).
    unfold store at 1 2.
    destruct (Z.eqb_spec (PTE_address b) pte) as [E | _].
    - exfalso. rewrite Eb', Epte in E. lia.
    - unfold m2. rewrite Eb'. apply init_table_inside.
      change (Z.of_nat ENTRIES_PER_PAGE) with 1024. lia. }
  split.
  { intros x Hx Hnot.
    assert (Hxt : forall j, 0 <= j < 1024 -> x <> tb + 4 * j).
    { intros j Hj Ex. destruct (Hentry j Hj) as (b & Hb' & Hsame & Eb').
      apply (Hnot b Hb' Hsame). congruence. }
    unfold store at 1 2.
    destruct (Z.eqb_spec x pte) as [E | _];
      [exfalso; apply (Hxt ja Hja); congruence |].
    rewrite Hout by exact Hxt. unfold m1, store.
    destruct (Z.eqb_spec x pde); [contradiction | reflexivity]. }
  split; [reflexivity |].
  intros Hn1 Hn2.
  destruct (get_frames_cases p 1) as [[E _] | (s1 & A1 & A2 & A3 & A4 & _ & EA)];
    try lia.
  { exfalso. apply Hn1. unfold r1. rewrite E. reflexivity. }
  destruct (get_frames_cases p1 1) as [[E _] | (s2 & B1 & B2 & B3 & B4 & _ & EB)];
    try lia.
  { exfalso. apply Hn2. unfold r2. rewrite E. reflexivity. }
  assert (Hs1 : CFP.get_state p1 s1 = CFP.HoS).
  { unfold p1. rewrite EA. unfold CFP.get_state. cbn [fst CFP.bitmap].
    rewrite get_frames_marks by lia. rewrite Z.eqb_refl. reflexivity. }
  assert (Hs2 : CFP.get_state p1 s2 = CFP.Free) by (apply B4; lia).
  assert (s1 <> s2) by (intros ->; rewrite Hs1 in Hs2; discriminate).
  unfold r1, r2. rewrite EB. fold p1. rewrite EA. cbn [snd].
  rewrite Eb1. rewrite !u32_small by lia. lia.
Qed.


Lemma handle_fault_directory_fault_witness :
  let vp := VMP.mkVMPool 0x20000000 (256 * 2 ^ 20) (mkPT 0x200000) [] [] in
  let s := mkMachine (fun _ => 2) 0x200000 0
                     [CFP.init (fun _ => 0) 1024 8 513]
                     (Some (mkPT 0x200000)) in
  exists s',
    handle_fault 2 0x20000abc [vp] (fun _ => []) 0 s = Some (s', None)
    /\ mem s' (PDE_address (mkPT 0x200000) 0x20000abc) = PAGE_SIZE * 1024 + 3
    /\ mem s' (PTE_address 0x20000abc) = PAGE_SIZE * 1025 + 3.
Proof.
  intros vp s.
  destruct (handle_fault_directory_fault 2 0x20000abc [vp] (fun _ => []) 0 s (mkPT 0x200000)
              (CFP.init (fun _ => 0) 1024 8 513)
              ltac:(vm_compute; discriminate) ltac:(vm_compute; reflexivity)
              ltac:(lia) eq_refl ltac:(vm_compute; discriminate)
              ltac:(vm_compute; discriminate)
              ltac:(vm_compute; reflexivity) eq_refl
              ltac:(vm_compute; repeat split; discriminate))
    as (s' & E & H1 & H2 & _).
  exists s'. split; [exact E |]. split; [exact H1 | exact H2].
Defined.

End PageFaults.

(** ** Construction of a page table *)

Section PageTableConstruction.
Import PT Fault PTInit.

Lemma copy_kernel_outside count :
  forall pd kpd i m x,
  (forall j, i <= j < i + Z.of_nat count -> x <> pd + 4 * j) ->
  copy_kernel count pd kpd i m x = m x.
Proof.
  induction count as [| count IH]; intros pd kpd i m x H; [reflexivity |].
  cbn [copy_kernel]. rewrite IH by (intros j Hj; apply H; lia).
  unfold store. destruct (Z.eqb_spec x (pd + 4 * i)) as [E | E]; [| reflexivity].
  exfalso. apply (H i); [lia | exact E].
Qed.

(** With the two directories apart, entry [j] of the new one receives
    entry [j] of the kernel's. *)
Lemma copy_kernel_inside count :
  forall pd kpd i m j,
  pd + 4096 <= kpd \/ kpd + 4096 <= pd ->
  0 <= i -> i + Z.of_nat count <= 1024 ->
  i <= j < i + Z.of_nat count ->
  copy_kernel count pd kpd i m (pd + 4 * j) = m (kpd + 4 * j).
Proof.
  induction count as [| count IH]; intros pd kpd i m j Hapart Hi Htop Hj; [lia |].
  cbn [copy_kernel].
  destruct (Z.eq_dec j i) as [-> | Hne].
  - rewrite copy_kernel_outside by (intros j Hj'; lia).
    unfold store. rewrite Z.eqb_refl. reflexivity.
  - rewrite IH by lia. unfold store.
    destruct (Z.eqb_spec (kpd + 4 * j) (pd + 4 * i)); [lia | reflexivity].
Qed.


(** X19.  Constructing a page table when the kernel's exists already: one
    frame of the kernel pool becomes the directory, its entries 0 to 254
    are copies of the kernel directory's, and entry 255 maps the directory
    itself (the recursive entry).  Nothing else is written: entries 256 to
    1023 keep whatever the frame held, and [kernel_page_directory] keeps
    its value. *)
Theorem construct_copies_kernel_range kp pp kpd s pk :
  kpd <> 0 -> kpd mod PAGE_SIZE = 0 ->
  frame_pools s !! kp = Some pk -> CFP.pool_inv pk ->
  let r := snd (CFP.get_frames pk 1) in
  let pd := PAGE_SIZE * r in
  pd <> kpd ->
  exists s',
    construct kp pp kpd s = Some (mkPT pd, kpd, s')
    /\ (forall i, 0 <= i < 255 -> mem s' (pd + 4 * i) = mem s (kpd + 4 * i))
    /\ mem s' (pd + 4 * 255) = pd + 3
    /\ (forall x, (forall i, 0 <= i < 256 -> x <> pd + 4 * i) ->
                  mem s' x = mem s x)
    /\ frame_pools s' = <[kp := fst (CFP.get_frames pk 1)]> (frame_pools s).
Proof.
  intros Hk Hal Hp Hinv r pd Hne.
  destruct (pool_inv_bounds pk Hinv) as [Hnf Hfr].
  destruct (get_frames_bounds pk 1 (CFP.inv_base pk Hinv) ltac:(lia)
              (CFP.inv_top pk Hinv) ltac:(lia) ltac:(lia)) as (_ & _ & _ & Hr).
  fold r in Hr.
  destruct (entry_value r Hr) as (E1 & _ & _).
  assert (Epd : u32 (PAGE_SIZE * r) = pd) by (unfold pd; apply u32_small; unfold PAGE_SIZE; lia).
  assert (Hapart : pd + 4096 <= kpd \/ kpd + 4096 <= pd).
  { unfold pd, PAGE_SIZE in *. Z.div_mod_to_equations. lia. }
  unfold construct. rewrite (pool_get_frames_eq kp 1 s pk Hp).
  cbn [mbind option_bind]. fold r. rewrite Epd.
  destruct (Z.eqb_spec kpd 0) as [E | _]; [contradiction |].
  cbn [mbind option_bind]. unfold with_mem.
  cbn [mem cr3 tlb_flushes frame_pools current_page_table].
  change (Z.of_nat KERNEL_PDE_LIMIT - 1) with 255.
  rewrite Epd in E1. change (Z.lor pd 3 = pd + 3) in E1. rewrite E1.
  eexists. split; [reflexivity |]. cbn [mem frame_pools].
  split; [| split; [| split; [| reflexivity]]].
  - intros i Hi. unfold store at 1.
    destruct (Z.eqb_spec (pd + 4 * i) (pd + 4 * 255)); [lia |].
    apply copy_kernel_inside; try assumption;
      change (Z.of_nat KERNEL_PDE_LIMIT) with 256; lia.
  - unfold store. rewrite Z.eqb_refl. reflexivity.
  - intros x Hx. unfold store at 1.
    destruct (Z.eqb_spec x (pd + 4 * 255)) as [E | _];
      [exfalso; apply (Hx 255); [lia | exact E] |].
    apply copy_kernel_outside. intros j Hj. apply Hx.
    change (Z.of_nat KERNEL_PDE_LIMIT) with 256 in Hj. lia.
Qed.


Lemma construct_copies_kernel_range_witness :
  let s := mkMachine (fun x => x) 0 0 [CFP.init (fun _ => 0) 1024 8 513] None in
  exists s',
    construct 0 0 0x200000 s = Some (mkPT 0x400000, 0x200000, s')
    /\ mem s' (0x400000 + 4 * 7) = 0x200000 + 4 * 7
    /\ mem s' (0x400000 + 4 * 255) = 0x400000 + 3
    /\ mem s' (0x400000 + 4 * 256) = 0x400000 + 4 * 256.
Proof.
  intros s.
  destruct (construct_copies_kernel_range 0 0 0x200000 s
              (CFP.init (fun _ => 0) 1024 8 513)
              ltac:(discriminate) ltac:(reflexivity) eq_refl
              (proj1 eight_frame_pool_inv) ltac:(vm_compute; discriminate))
    as (s' & E & Hc & Hr & Ho & _).
  exists s'. split; [exact E |]. split; [exact (Hc 7 ltac:(lia)) |].
  split; [exact Hr |].
  apply Ho. intros i Hi. change (PAGE_SIZE * snd (CFP.get_frames
    (CFP.init (fun _ => 0) 1024 8 513) 1)) with 0x400000. lia.
Defined.


Lemma direct_map_outside count :
  forall pt i a m x,
  (forall j, i <= j < i + Z.of_nat count -> x <> pt + 4 * j) ->
  direct_map count pt i a m x = m x.
Proof.
  induction count as [| count IH]; intros pt i a m x H; [reflexivity |].
  cbn [direct_map]. rewrite IH by (intros j Hj; apply H; lia).
  unfold store. destruct (Z.eqb_spec x (pt + 4 * i)) as [E | E]; [| reflexivity].
  exfalso. apply (H i); [lia | exact E].
Qed.

Lemma direct_map_inside count :
  forall pt i a m j,
  0 <= a -> a + PAGE_SIZE * Z.of_nat count <= 2 ^ 32 ->
  i <= j < i + Z.of_nat count ->
  direct_map count pt i a m (pt + 4 * j) = Z.lor (a + PAGE_SIZE * (j - i)) 3.
Proof.
  induction count as [| count IH]; intros pt i a m j Ha Htop Hj; [lia |].
  cbn [direct_map].
  destruct (Z.eq_dec j i) as [-> | Hne].
  - rewrite direct_map_outside by (intros j Hj'; lia).
    unfold store. rewrite Z.eqb_refl. f_equal. lia.
  - rewrite u32_small by (unfold PAGE_SIZE in *; lia).
    rewrite IH by (unfold PAGE_SIZE in *; lia). f_equal. lia.
Qed.

(** One frame taken from a pool that counts at least one [Free] frame. *)
Lemma get_one_frame p :
  0 <= CFP.base_frame_no p -> 0 <= CFP.nframes p ->
  CFP.base_frame_no p + CFP.nframes p <= 2 ^ 20 ->
  CFP.nFreeFrames p = CFP.count_free p (Z.to_nat (CFP.nframes p)) ->
  1 <= CFP.nFreeFrames p ->
  exists st,
    0 <= st < CFP.nframes p /\ CFP.get_state p st = CFP.Free
    /\ snd (CFP.get_frames p 1) = CFP.base_frame_no p + st
    /\ CFP.base_frame_no (fst (CFP.get_frames p 1)) = CFP.base_frame_no p
    /\ CFP.nframes (fst (CFP.get_frames p 1)) = CFP.nframes p
    /\ CFP.nFreeFrames (fst (CFP.get_frames p 1)) = CFP.nFreeFrames p - 1
    /\ (forall g, 0 <= g < 2 ^ 31 ->
          CFP.get_state (fst (CFP.get_frames p 1)) g
          = if g =? st then CFP.HoS else CFP.get_state p g)
    /\ CFP.nFreeFrames (fst (CFP.get_frames p 1))
       = CFP.count_free (fst (CFP.get_frames p 1)) (Z.to_nat (CFP.nframes p)).
Proof.
  intros Hb Hn Htop Hcnt Hfree.
  pose proof (count_free_range p (Z.to_nat (CFP.nframes p))) as HR.
  rewrite Z2Nat.id in HR by lia.
  destruct (count_free_pos p (Z.to_nat (CFP.nframes p)) ltac:(lia)) as (g0 & Hg0 & HF0).
  rewrite Z2Nat.id in Hg0 by lia.
  destruct (get_frames_cases p 1) as [[_ [Hlt | Hnone]] | Hok]; try lia.
  { exfalso. apply (Hnone g0); [lia | lia |]. intros f Hf.
    replace f with g0 by lia. exact HF0. }
  destruct Hok as (st & H1 & H2 & H3 & H4 & _ & E).
  exists st. rewrite E. cbn [fst snd CFP.base_frame_no CFP.nframes CFP.nFreeFrames].
  set (p1 := CFP.mkPool _ _ _ _ _).
  assert (Hst : forall g, 0 <= g < 2 ^ 31 ->
            CFP.get_state p1 g = if g =? st then CFP.HoS else CFP.get_state p g).
  { intros g Hg. unfold p1, CFP.get_state. cbn [CFP.bitmap].
    rewrite get_frames_marks by lia.
    destruct (Z.eqb_spec g st); [reflexivity |].
    destruct (Z.leb_spec st g); destruct (Z.ltb_spec g (st + 1)); try lia; reflexivity. }
  split; [lia |]. split; [apply H4; lia |].
  split; [rewrite u32_small; lia |]. split; [reflexivity |]. split; [reflexivity |].
  split; [reflexivity |]. split; [exact Hst |].
  rewrite (count_free_mark p p1 st (st + 1)); [| lia | |].
  - rewrite Z2Nat.id by lia. lia.
  - intros f Hf Hout. rewrite Z2Nat.id in Hf by lia. rewrite Hst by lia.
    destruct (Z.eqb_spec f st); [lia | reflexivity].
  - intros f Hf Hlt. split; [apply H4; lia |]. rewrite Hst by lia.
    destruct (Z.eqb_spec f st); [discriminate | lia].
Qed.


(** The loop that provisions the page tables of the kernel range.  Every
    round takes a frame that no earlier round took, fills it with entries
    that are not present and points the next directory entry to it.  [d]
    is the frame of the directory, outside the process pool. *)
Lemma kernel_tables_run pp d count :
  forall i s p rs,
  0 <= i -> i + Z.of_nat count <= 1024 ->
  0 <= d < 2 ^ 20 ->
  frame_pools s !! pp = Some p ->
  0 <= CFP.base_frame_no p -> 0 <= CFP.nframes p ->
  CFP.base_frame_no p + CFP.nframes p <= 2 ^ 20 ->
  ~ (CFP.base_frame_no p <= d < CFP.base_frame_no p + CFP.nframes p) ->
  CFP.nFreeFrames p = CFP.count_free p (Z.to_nat (CFP.nframes p)) ->
  Z.of_nat count <= CFP.nFreeFrames p ->
  Forall (taken p) rs ->
  exists s' p' rs',
    kernel_tables count (PAGE_SIZE * d) i pp s = Some s'
    /\ frame_pools s' = <[pp := p']> (frame_pools s)
    /\ CFP.base_frame_no p' = CFP.base_frame_no p
    /\ CFP.nframes p' = CFP.nframes p
    /\ CFP.nFreeFrames p' = CFP.nFreeFrames p - Z.of_nat count
    /\ length rs' = count
    /\ NoDup rs'
    /\ Forall (fun f => f ∉ rs) rs'
    /\ Forall (taken p') (rs ++ rs')
    /\ (forall k f, rs' !! k = Some f ->
          mem s' (PAGE_SIZE * d + 4 * (i + Z.of_nat k)) = PAGE_SIZE * f + 3
          /\ forall j, 0 <= j < 1024 -> mem s' (PAGE_SIZE * f + 4 * j) = 2)
    /\ (forall x,
          (forall k, i <= k < i + Z.of_nat count -> x <> PAGE_SIZE * d + 4 * k) ->
          (forall f j, f ∈ rs' -> 0 <= j < 1024 -> x <> PAGE_SIZE * f + 4 * j) ->
          mem s' x = mem s x).
Proof.
  induction count as [| count IH];
    intros i s p rs Hi Htop Hd Hp Hb Hn Hpt Hout Hcnt Hfree Hrs.
  - exists s, p, []. cbn [kernel_tables].
    split; [reflexivity |]. split; [symmetry; apply list_insert_id; exact Hp |].
    split; [reflexivity |]. split; [reflexivity |]. split; [cbn; lia |].
    split; [reflexivity |]. split; [constructor |]. split; [constructor |].
    split; [rewrite app_nil_r; exact Hrs |].
    split; [intros k f Hk; discriminate | reflexivity].
  - destruct (get_one_frame p Hb Hn Hpt Hcnt ltac:(lia))
      as (st & Hst & HF & Er & Eb & En & Ef & Hstate & Hcnt1).
    set (p1 := fst (CFP.get_frames p 1)) in *.
    set (f := CFP.base_frame_no p + st) in *.
    assert (Hf20 : 0 <= f < 2 ^ 20) by (unfold f; lia).
    assert (Hfd : f <> d) by (unfold f; lia).
    destruct (entry_value f Hf20) as (E1 & _ & _).
    assert (Epf : u32 (PAGE_SIZE * f) = PAGE_SIZE * f)
      by (apply u32_small; unfold PAGE_SIZE; lia).
    rewrite Epf in E1.
    assert (Hlen : (pp < length (frame_pools s))%nat)
      by (eapply lookup_lt_Some; exact Hp).
    set (m1 := init_table ENTRIES_PER_PAGE (PAGE_SIZE * f) 0 (mem s)).
    set (m2 := store m1 (PAGE_SIZE * d + 4 * i) (PAGE_SIZE * f + 3)).
    set (s1 := mkMachine m2 (cr3 s) (tlb_flushes s)
                         (<[pp := p1]> (frame_pools s)) (current_page_table s)).
    assert (Hstep : kernel_tables (S count) (PAGE_SIZE * d) i pp s
                    = kernel_tables count (PAGE_SIZE * d) (i + 1) pp s1).
    { cbn [kernel_tables]. rewrite (pool_get_frames_eq pp 1 s p Hp).
      cbn [mbind option_bind]. fold p1. rewrite Er. fold f. rewrite Epf, E1.
      reflexivity. }
    assert (Hrs1 : Forall (taken p1) (rs ++ [f])).
    { apply Forall_app. split.
      - eapply Forall_impl; [exact Hrs |]. intros g [Hg1 Hg2].
        unfold taken. rewrite Eb, En. split; [exact Hg1 |].
        rewrite Hstate by lia.
        destruct (Z.eqb_spec (g - CFP.base_frame_no p) st); [discriminate | exact Hg2].
      - constructor; [| constructor]. unfold taken. rewrite Eb, En.
        split; [unfold f; lia |]. rewrite Hstate by (unfold f; lia).
        replace (f - CFP.base_frame_no p) with st by (unfold f; lia).
        rewrite Z.eqb_refl. discriminate. }
    assert (Hp1 : frame_pools s1 !! pp = Some p1).
    { unfold s1. cbn [frame_pools]. apply list_lookup_insert_eq. exact Hlen. }
    assert (Hout1 : ~ (CFP.base_frame_no p1 <= d
                       < CFP.base_frame_no p1 + CFP.nframes p1))
      by (rewrite Eb, En; exact Hout).
    assert (Hcnt1' : CFP.nFreeFrames p1
                     = CFP.count_free p1 (Z.to_nat (CFP.nframes p1)))
      by (rewrite En; exact Hcnt1).
    assert (Hi1 : 0 <= i + 1) by lia.
    assert (Htop1 : i + 1 + Z.of_nat count <= 1024) by lia.
    assert (Hb1 : 0 <= CFP.base_frame_no p1) by (rewrite Eb; exact Hb).
    assert (Hn1 : 0 <= CFP.nframes p1) by (rewrite En; exact Hn).
    assert (Hpt1 : CFP.base_frame_no p1 + CFP.nframes p1 <= 2 ^ 20)
      by (rewrite Eb, En; exact Hpt).
    assert (Hfree1 : Z.of_nat count <= CFP.nFreeFrames p1) by (rewrite Ef; lia).
    destruct (IH (i + 1) s1 p1 (rs ++ [f]) Hi1 Htop1 Hd Hp1
                 Hb1 Hn1 Hpt1 Hout1 Hcnt1' Hfree1 Hrs1)
      as (s' & p' & rs' & Erun & Epools & Eb' & En' & Ef' & Elen & Hnd
          & Hfresh & Htaken & Htab & Hother).
    assert (Hfnew : f ∉ rs').
    { intros Hin. pose proof (proj1 (Forall_forall _ _) Hfresh f Hin) as Hc.
      apply Hc. apply elem_of_app. right. apply list_elem_of_singleton. reflexivity. }
    assert (Hrange' : forall g, g ∈ rs' ->
              CFP.base_frame_no p <= g < CFP.base_frame_no p + CFP.nframes p).
    { intros g Hg.
      pose proof (proj1 (Forall_forall _ _) Htaken g
                    ltac:(apply elem_of_app; right; exact Hg)) as [Hr' _].
      rewrite Eb', En', Eb, En in Hr'. exact Hr'. }
    exists s', p', (f :: rs').
    split; [rewrite Hstep; exact Erun |].
    split.
    { rewrite Epools. unfold s1. cbn [frame_pools]. apply list_insert_insert_eq. }
    split; [rewrite Eb'; exact Eb |]. split; [rewrite En'; exact En |].
    split; [rewrite Ef', Ef; lia |]. split; [cbn; lia |].
    split; [apply NoDup_cons; split; assumption |].
    split.
    { constructor.
      - intros Hin. pose proof (proj1 (Forall_forall _ _) Hrs f Hin) as [_ Hc].
        apply Hc. replace (f - CFP.base_frame_no p) with st by (unfold f; lia).
        exact HF.
      - eapply Forall_impl; [exact Hfresh |]. intros g Hg Hin. apply Hg.
        apply elem_of_app. left. exact Hin. }
    split; [rewrite <- app_assoc in Htaken; exact Htaken |].
    assert (Hm2f : forall j, 0 <= j < 1024 -> m2 (PAGE_SIZE * f + 4 * j) = 2).
    { intros j Hj. unfold m2, store.
      destruct (Z.eqb_spec (PAGE_SIZE * f + 4 * j) (PAGE_SIZE * d + 4 * i));
        [unfold PAGE_SIZE in *; lia |].
      unfold m1. apply init_table_inside.
      change (Z.of_nat ENTRIES_PER_PAGE) with 1024. lia. }
    assert (Hkeep : forall x,
              (forall k, i + 1 <= k < i + 1 + Z.of_nat count ->
                         x <> PAGE_SIZE * d + 4 * k) ->
              (forall g j, g ∈ rs' -> 0 <= j < 1024 -> x <> PAGE_SIZE * g + 4 * j) ->
              mem s' x = m2 x).
    { intros x H1 H2. rewrite (Hother x H1 H2). reflexivity. }
    split.
    { intros k g Hk. destruct k as [| k].
      - injection Hk as <-. split.
        + rewrite Hkeep.
          * unfold m2, store. rewrite Z.add_0_r, Z.eqb_refl. reflexivity.
          * intros k Hk. lia.
          * intros g j Hg Hj. pose proof (Hrange' g Hg).
            unfold PAGE_SIZE. lia.
        + intros j Hj. rewrite Hkeep; [apply Hm2f; exact Hj | |].
          * intros k Hk. unfold PAGE_SIZE. lia.
          * intros g j' Hg Hj'.
            assert (g <> f) by (intros ->; contradiction).
            unfold PAGE_SIZE. lia.
      - destruct (Htab k g Hk) as [Ht1 Ht2]. split; [| exact Ht2].
        rewrite <- Ht1. f_equal. lia. }
    intros x H1 H2. rewrite Hkeep.
    + unfold m2, store.
      destruct (Z.eqb_spec x (PAGE_SIZE * d + 4 * i)) as [E | _];
        [exfalso; apply (H1 i); [lia | exact E] |].
      unfold m1. apply init_table_outside. intros j Hj.
      change (Z.of_nat ENTRIES_PER_PAGE) with 1024 in Hj.
      apply H2; [left | lia].
    + intros k Hk. apply H1. lia.
    + intros g j Hg Hj. apply H2; [right; exact Hg | exact Hj].
Qed.


(** X20.  Constructing the first page table ([kernel_page_directory] is
    [NULL]): the directory takes a frame of the kernel pool and 256 frames,
    all different, are taken from the process pool for page tables.
    Directory entries 0 to 254 point to the first 255 of them, entry 255 is
    the recursive entry for the directory itself, and entries 256 to 1023
    are not present.  The first page table maps the first 4 MiB onto
    themselves; every other page table holds entries that are not
    present.  The frame taken in the last round is referenced by no
    directory entry. *)
Theorem construct_kernel_table kp pp s pk p0 :
  kp <> pp ->
  frame_pools s !! kp = Some pk -> CFP.pool_inv pk ->
  frame_pools s !! pp = Some p0 -> CFP.pool_inv p0 ->
  snd (CFP.get_frames pk 1) <> 0 ->
  CFP.base_frame_no pk + CFP.nframes pk <= CFP.base_frame_no p0
  \/ CFP.base_frame_no p0 + CFP.nframes p0 <= CFP.base_frame_no pk ->
  256 <= CFP.nFreeFrames p0 ->
  let pd := PAGE_SIZE * snd (CFP.get_frames pk 1) in
  exists s' p' rs,
    construct kp pp 0 s = Some (mkPT pd, pd, s')
    /\ frame_pools s'
       = <[pp := p']> (<[kp := fst (CFP.get_frames pk 1)]> (frame_pools s))
    /\ CFP.nFreeFrames p' = CFP.nFreeFrames p0 - 256
    /\ length rs = 256%nat /\ NoDup rs /\ Forall (taken p') rs
    /\ (forall i f, rs !! i = Some f -> (i < 255)%nat ->
                    mem s' (pd + 4 * Z.of_nat i) = PAGE_SIZE * f + 3)
    /\ mem s' (pd + 4 * 255) = pd + 3
    /\ (forall i, 256 <= i < 1024 -> mem s' (pd + 4 * i) = 2)
    /\ (forall f j, rs !! 0%nat = Some f -> 0 <= j < 1024 ->
                    mem s' (PAGE_SIZE * f + 4 * j) = PAGE_SIZE * j + 3)
    /\ (forall i f j, rs !! i = Some f -> (1 <= i)%nat -> 0 <= j < 1024 ->
                      mem s' (PAGE_SIZE * f + 4 * j) = 2).
Proof.
  intros Hne Hpk Hinvk Hp0 Hinv0 Hd0 Hdisj Hfree pd.
  set (d := snd (CFP.get_frames pk 1)) in *.
  set (pk1 := fst (CFP.get_frames pk 1)).
  destruct (pool_inv_bounds pk Hinvk) as [Hnfk Hfrk].
  destruct (pool_inv_bounds p0 Hinv0) as [Hnf0 Hfr0].
  pose proof (CFP.inv_base pk Hinvk) as Hbk. pose proof (CFP.inv_top pk Hinvk) as Htk.
  pose proof (CFP.inv_base p0 Hinv0) as Hb0. pose proof (CFP.inv_top p0 Hinv0) as Ht0.
  assert (Hdk : CFP.base_frame_no pk <= d < CFP.base_frame_no pk + CFP.nframes pk).
  { destruct (get_frames_cases pk 1) as [[E _] | (st & H1 & H2 & _ & _ & _ & E)];
      try lia.
    - exfalso. apply Hd0. unfold d. rewrite E. reflexivity.
    - unfold d. rewrite E. cbn [snd]. rewrite u32_small by lia. lia. }
  assert (Hd : 0 <= d < 2 ^ 20) by lia.
  assert (Hout : ~ (CFP.base_frame_no p0 <= d
                    < CFP.base_frame_no p0 + CFP.nframes p0)) by lia.
  destruct (entry_value d Hd) as (Ed & _ & _).
  assert (Epd : u32 (PAGE_SIZE * d) = pd)
    by (unfold pd; apply u32_small; unfold PAGE_SIZE; lia).
  rewrite Epd in Ed.
  set (s1 := mkMachine (mem s) (cr3 s) (tlb_flushes s)
                       (<[kp := pk1]> (frame_pools s)) (current_page_table s)).
  assert (Hp1 : frame_pools s1 !! pp = Some p0).
  { unfold s1. cbn [frame_pools]. rewrite list_lookup_insert_ne by exact Hne.
    exact Hp0. }
  destruct (kernel_tables_run pp d 256 0 s1 p0 [] ltac:(lia) ltac:(cbn; lia) Hd Hp1
              Hb0 ltac:(lia) Ht0 Hout (CFP.inv_count p0 Hinv0) ltac:(cbn; lia)
              ltac:(constructor))
    as (s2 & p' & rs & Erun & Epools & Eb' & En' & Ef' & Elen & Hnd & _ & Htaken
        & Htab & _).
  cbn [app] in Htaken. fold pd in Erun, Htab.
  assert (Hrange : forall f, f ∈ rs ->
            CFP.base_frame_no p0 <= f < CFP.base_frame_no p0 + CFP.nframes p0).
  { intros f Hf. destruct (proj1 (Forall_forall _ _) Htaken f Hf) as [Hr _].
    rewrite Eb', En' in Hr. exact Hr. }
  destruct (lookup_lt_is_Some_2 rs 0 ltac:(lia)) as [f0 Hf0].
  assert (Hf0r := Hrange f0 (list_elem_of_lookup_2 _ _ _ Hf0)).
  destruct (Htab 0%nat f0 Hf0) as [Hpde0 _].
  replace (pd + 4 * (0 + Z.of_nat 0)) with pd in Hpde0 by lia.
  assert (Etab0 : Z.land (mem s2 pd) (u32 (Z.lnot 0xFFF)) = PAGE_SIZE * f0).
  { rewrite Hpde0.
    change (u32 (Z.lnot 0xFFF)) with (Z.shiftl (Z.ones (32 - 12)) 12).
    rewrite land_clear_low by (unfold PAGE_SIZE; lia).
    unfold PAGE_SIZE. change (2 ^ 12) with 4096. Z.div_mod_to_equations. lia. }
  set (m3 := direct_map ENTRIES_PER_PAGE (PAGE_SIZE * f0) 0 0 (mem s2)).
  set (m4 := init_table (ENTRIES_PER_PAGE - KERNEL_PDE_LIMIT) pd
                        (Z.of_nat KERNEL_PDE_LIMIT) m3).
  set (m5 := store m4 (pd + 4 * 255) (pd + 3)).
  assert (Hrun : construct kp pp 0 s
                 = Some (mkPT pd, pd,
                         mkMachine m5 (cr3 s2) (tlb_flushes s2) (frame_pools s2)
                                   (current_page_table s2))).
  { unfold construct. rewrite (pool_get_frames_eq kp 1 s pk Hpk).
    cbn [mbind option_bind]. fold d pk1. rewrite Epd. fold s1.
    cbn [Z.eqb]. change 256%nat with KERNEL_PDE_LIMIT in Erun.
    rewrite Erun. cbn [mbind option_bind].
    unfold with_mem. cbn [mem cr3 tlb_flushes frame_pools current_page_table].
    rewrite Etab0. fold m3. fold m4.
    change (Z.of_nat KERNEL_PDE_LIMIT - 1) with 255. rewrite Ed. reflexivity. }
  exists (mkMachine m5 (cr3 s2) (tlb_flushes s2) (frame_pools s2)
                    (current_page_table s2)), p', rs.
  split; [exact Hrun |]. cbn [mem frame_pools].
  split; [rewrite Epools; reflexivity |].
  split; [rewrite Ef'; reflexivity |]. split; [exact Elen |].
  split; [exact Hnd |]. split; [exact Htaken |].
  assert (Hm4 : forall x, (forall i, 256 <= i < 1024 -> x <> pd + 4 * i) ->
                          m4 x = m3 x).
  { intros x Hx. unfold m4. apply init_table_outside. intros j Hj. apply Hx.
    change (Z.of_nat (ENTRIES_PER_PAGE - KERNEL_PDE_LIMIT)) with 768 in Hj.
    change (Z.of_nat KERNEL_PDE_LIMIT) with 256 in Hj. lia. }
  assert (Hm3 : forall x, (forall j, 0 <= j < 1024 -> x <> PAGE_SIZE * f0 + 4 * j) ->
                          m3 x = mem s2 x).
  { intros x Hx. unfold m3. apply direct_map_outside. intros j Hj. apply Hx.
    change (Z.of_nat ENTRIES_PER_PAGE) with 1024 in Hj. lia. }
  split.
  { intros i f Hi Hlt. destruct (Htab i f Hi) as [Hpde _].
    replace (0 + Z.of_nat i) with (Z.of_nat i) in Hpde by lia.
    unfold m5, store.
    destruct (Z.eqb_spec (pd + 4 * Z.of_nat i) (pd + 4 * 255)); [lia |].
    rewrite Hm4 by (intros; lia).
    rewrite Hm3 by (intros; unfold pd, PAGE_SIZE; lia). exact Hpde. }
  split; [unfold m5; apply store_same |].
  split.
  { intros i Hi. unfold m5, store.
    destruct (Z.eqb_spec (pd + 4 * i) (pd + 4 * 255)); [lia |].
    unfold m4. apply init_table_inside.
    change (Z.of_nat (ENTRIES_PER_PAGE - KERNEL_PDE_LIMIT)) with 768.
    change (Z.of_nat KERNEL_PDE_LIMIT) with 256. lia. }
  split.
  { intros f j Hf Hj. rewrite Hf0 in Hf. injection Hf as <-.
    unfold m5, store.
    destruct (Z.eqb_spec (PAGE_SIZE * f0 + 4 * j) (pd + 4 * 255));
      [unfold pd, PAGE_SIZE in *; lia |].
    rewrite Hm4 by (intros; unfold pd, PAGE_SIZE; lia).
    unfold m3. rewrite direct_map_inside;
      [| lia | change (Z.of_nat ENTRIES_PER_PAGE) with 1024; unfold PAGE_SIZE; lia
       | change (Z.of_nat ENTRIES_PER_PAGE) with 1024; lia].
    destruct (entry_value j ltac:(lia)) as (Ej & _ & _).
    rewrite u32_small in Ej by (unfold PAGE_SIZE; lia).
    replace (0 + PAGE_SIZE * (j - 0)) with (PAGE_SIZE * j) by lia. exact Ej. }
  intros i f j Hi Hge Hj. destruct (Htab i f Hi) as [_ Htable].
  assert (Hfr := Hrange f (list_elem_of_lookup_2 _ _ _ Hi)).
  assert (Hff0 : f <> f0).
  { intros ->. assert (i = 0%nat) by (eapply NoDup_lookup; eassumption). lia. }
  unfold m5, store.
  destruct (Z.eqb_spec (PAGE_SIZE * f + 4 * j) (pd + 4 * 255));
    [unfold pd, PAGE_SIZE in *; lia |].
  rewrite Hm4 by (intros; unfold pd, PAGE_SIZE; lia).
  rewrite Hm3 by (intros; unfold PAGE_SIZE; lia).
  apply Htable. exact Hj.
Qed.


(** A kernel pool of eight frames and a process pool of 512 frames. *)
Lemma construct_kernel_table_witness :
  let s := mkMachine (fun x => x) 0 0
                     [CFP.init (fun _ => 0) 1024 8 513;
                      CFP.mkPool 2048 512 512 514 (fun _ => 0)] None in
  exists s' p' rs,
    construct 0 1 0 s = Some (mkPT 0x400000, 0x400000, s')
    /\ length rs = 256%nat /\ NoDup rs /\ Forall (taken p') rs
    /\ CFP.nFreeFrames p' = 256
    /\ mem s' (0x400000 + 4 * 255) = 0x400000 + 3
    /\ mem s' (0x400000 + 4 * 256) = 2.
Proof.
  intros s.
  destruct (construct_kernel_table 0 1 s (CFP.init (fun _ => 0) 1024 8 513)
              (CFP.mkPool 2048 512 512 514 (fun _ => 0))
              ltac:(discriminate) eq_refl (proj1 eight_frame_pool_inv) eq_refl
              (cleared_pool_inv 2048 512 514 ltac:(lia) ltac:(lia) ltac:(lia))
              ltac:(vm_compute; discriminate)
              ltac:(left; vm_compute; discriminate)
              ltac:(vm_compute; discriminate))
    as (s' & p' & rs & E & _ & Hn & Hl & Hnd & Ht & _ & Hr & Hu & _).
  exists s', p', rs. split; [exact E |]. split; [exact Hl |]. split; [exact Hnd |].
  split; [exact Ht |]. split; [exact Hn |]. split; [exact Hr |].
  exact (Hu 256 ltac:(lia)).
Defined.

End PageTableConstruction.

(** ** The VM pool: what [allocate] and [release] record *)

Section VMPoolFacts.
Import VMP Regions.

(** What a successful search of the arrays has found: the first entry,
    counting from [idx], that satisfies the test. *)
Lemma find_slot_Some P arr :
  forall idx j,
  find_slot P arr idx = Some j ->
  (idx <= j)%nat
  /\ exists r, arr !! (j - idx)%nat = Some r /\ P r = true
               /\ forall i r', (i < j - idx)%nat -> arr !! i = Some r' ->
                               P r' = false.
Proof.
  induction arr as [| r arr IH]; intros idx j H; cbn [find_slot] in H;
    [discriminate |].
  destruct (P r) eqn:EP.
  - injection H as <-. split; [lia |]. exists r. rewrite Nat.sub_diag.
    split; [reflexivity |]. split; [exact EP |]. intros i r' Hi. lia.
  - destruct (IH _ _ H) as (Hle & r0 & Hr0 & HP & Hbefore).
    split; [lia |]. exists r0.
    replace (j - idx)%nat with (S (j - S idx)) by lia.
    split; [exact Hr0 |]. split; [exact HP |].
    intros [| i] r' Hi Hl.
    + cbn in Hl. injection Hl as <-. exact EP.
    + cbn in Hl. apply (Hbefore i r'); [lia | exact Hl].
Qed.

Lemma round_up_facts s :
  0 <= s -> s <= round_up s < s + PT.PAGE_SIZE /\ round_up s mod PT.PAGE_SIZE = 0.
Proof.
  intros Hs. unfold round_up, PT.PAGE_SIZE. Z.div_mod_to_equations. lia.
Qed.

(** The shape of a successful [allocate]. *)
Lemma allocate_found vp s vp' a :
  0 < s -> s + PT.PAGE_SIZE <= 2 ^ 32 ->
  allocate vp s = (vp', a, None) ->
  exists idx i f g,
    free vp !! idx = Some f /\ alloc vp !! i = Some g
    /\ round_up s <= Region.size f /\ Region.size g = 0
    /\ (forall j h, (j < idx)%nat -> free vp !! j = Some h ->
                    Region.size h < round_up s)
    /\ (forall j h, (j < i)%nat -> alloc vp !! j = Some h ->
                    Region.size h <> 0)
    /\ a = Region.base_address f
    /\ vp' = mkVMPool (base_address vp) (size vp) (page_table vp)
               (<[i := Region.mk a (round_up s)]> (alloc vp))
               (<[idx := Region.mk (u32 (a + round_up s))
                                   (u32 (Region.size f - round_up s))]> (free vp)).
Proof.
  intros Hs Htop H. unfold allocate in H.
  destruct ((s =? 0) || (s >? u32 (size vp - 2 * PT.PAGE_SIZE)));
    [discriminate |].
  rewrite adj_size_round_up in H by (unfold PT.PAGE_SIZE in *; lia).
  destruct (find_slot _ (free vp) 0) as [idx |] eqn:Ef; [| discriminate].
  destruct (find_slot _ (alloc vp) 0) as [i |] eqn:Ea; [| discriminate].
  destruct (find_slot_Some _ _ _ _ Ef) as (_ & f & Hf & Pf & Bf).
  destruct (find_slot_Some _ _ _ _ Ea) as (_ & g & Hg & Pg & Bg).
  rewrite Nat.sub_0_r in Hf, Hg, Bf, Bg.
  unfold region_at in H. rewrite Hf in H. cbn [default] in H.
  injection H as <- <-.
  exists idx, i, f, g.
  split; [exact Hf |]. split; [exact Hg |].
  split; [destruct (Z.geb_spec (Region.size f) (round_up s)); [lia | discriminate] |].
  split; [apply Z.eqb_eq; exact Pg |].
  split.
  { intros j h Hj Hh. specialize (Bf j h Hj Hh). cbn beta in Bf.
    destruct (Z.geb_spec (Region.size h) (round_up s)); [discriminate | lia]. }
  split.
  { intros j h Hj Hh. specialize (Bg j h Hj Hh). cbn beta in Bg.
    apply Z.eqb_neq. exact Bg. }
  split; reflexivity.
Qed.

(** X21.  A successful [allocate(s)] is first fit over the array of free
    regions: the address returned is the base of the first free region that
    holds the request rounded up to whole pages, and no earlier entry is
    large enough.  Afterwards [is_legitimate] accepts every address of the
    rounded-up region. *)
Theorem allocate_legitimate vp s vp' a :
  0 < s -> s + PT.PAGE_SIZE <= 2 ^ 32 ->
  Forall in_address_space (free vp) ->
  allocate vp s = (vp', a, None) ->
  (exists idx f,
      free vp !! idx = Some f /\ Region.base_address f = a
      /\ round_up s <= Region.size f
      /\ forall j h, (j < idx)%nat -> free vp !! j = Some h ->
                     Region.size h < round_up s)
  /\ s <= round_up s /\ round_up s mod PT.PAGE_SIZE = 0
  /\ forall x, a <= x < a + round_up s -> is_legitimate vp' x = true.
Proof.
  intros Hs Htop Hfree H.
  destruct (allocate_found vp s vp' a Hs Htop H)
    as (idx & i & f & g & Hf & Hg & Hfit & Hg0 & Hfirst & _ & Ea & Evp).
  destruct (round_up_facts s ltac:(lia)) as [Hru Hmod].
  split; [exists idx, f; auto |]. split; [lia |]. split; [exact Hmod |].
  intros x Hx. subst vp'. unfold is_legitimate. cbn [base_address alloc].
  destruct ((x >=? base_address vp) && (x <? u32 (base_address vp + 2 * PT.PAGE_SIZE)));
    [reflexivity |].
  apply existsb_exists. exists (Region.mk a (round_up s)). split.
  - apply (list_elem_of_In _ _). apply (list_elem_of_lookup_2 _ i).
    apply list_lookup_insert_eq. eapply lookup_lt_Some; exact Hg.
  - cbn [Region.base_address Region.size].
    pose proof (proj1 (Forall_lookup _ _) Hfree idx f Hf) as (Hb0 & Hs0 & Hb1).
    rewrite u32_small by lia.
    destruct (Z.geb_spec x a); [| lia].
    destruct (Z.ltb_spec x (a + round_up s)); [reflexivity | lia].
Qed.


(** A pool of 256 MiB at 512 MiB with four slots per array, as constructed:
    the two bookkeeping pages allocated, the rest free. *)
Lemma allocate_legitimate_witness :
  let vp := mkVMPool 0x20000000 (256 * 2 ^ 20) (PT.mkPT 0)
              [Region.mk 0x20000000 8192; Region.mk 0 0; Region.mk 0 0; Region.mk 0 0]
              [Region.mk 0x20002000 (256 * 2 ^ 20 - 8192); Region.mk 0 0;
               Region.mk 0 0; Region.mk 0 0] in
  snd (fst (allocate vp 5000)) = 0x20002000
  /\ forall x, 0x20002000 <= x < 0x20002000 + round_up 5000 ->
               is_legitimate (fst (fst (allocate vp 5000))) x = true.
Proof.
  intros vp. split; [reflexivity |].
  refine (proj2 (proj2 (proj2
            (allocate_legitimate vp 5000 (fst (fst (allocate vp 5000))) 0x20002000
               ltac:(lia) ltac:(vm_compute; discriminate) _ eq_refl)))).
  repeat constructor; vm_compute; congruence.
Defined.

(** X22.  [release] of an address outside the pool, or of an address at
    which no allocated region starts, reports an error ([OOB_ADDR] for the
    first, [INVALID_ADDR] for the second) and changes neither the pool nor
    the page table nor the frame pools. *)
Theorem release_rejects v vp a s :
  0 <= base_address vp -> 0 <= size vp -> base_address vp + size vp < 2 ^ 32 ->
  a < base_address vp \/ base_address vp + size vp <= a
  \/ Forall (fun r => a <> Region.base_address r \/ Region.size r <= 0) (alloc vp) ->
  release v vp a s =
  Some (vp, s,
        Some (if (a <? base_address vp) || (base_address vp + size vp <=? a)
              then OOB_ADDR else INVALID_ADDR)).
Proof.
  intros Hb Hsz Htop H. unfold release. rewrite u32_small by lia.
  destruct (Z.ltb_spec a (base_address vp)) as [Hlt | Hge]; [reflexivity |].
  destruct (Z.geb_spec a (base_address vp + size vp)) as [Hge' | Hlt'];
    destruct (Z.leb_spec (base_address vp + size vp) a); try lia; [reflexivity |].
  cbn [orb]. destruct H as [H | [H | H]]; try lia.
  rewrite find_slot_none; [reflexivity |].
  eapply Forall_impl; [exact H |]. cbn beta. intros r [Hr | Hr].
  - destruct (Z.eqb_spec a (Region.base_address r)); [contradiction | reflexivity].
  - destruct (Z.gtb_spec (Region.size r) 0); [lia | apply andb_false_r].
Qed.

Lemma release_rejects_witness :
  let vp := mkVMPool 0x20000000 (256 * 2 ^ 20) (PT.mkPT 0)
              [Region.mk 0x20000000 8192; Region.mk 0 0]
              [Region.mk 0x20002000 (256 * 2 ^ 20 - 8192); Region.mk 0 0] in
  let s := PT.mkMachine (fun _ => 0) 0 0 [] None in
  release PT.MultiPT vp 0x1000 s = Some (vp, s, Some OOB_ADDR)
  /\ release PT.MultiPT vp 0x20002000 s = Some (vp, s, Some INVALID_ADDR).
Proof.
  intros vp s. split.
  - exact (release_rejects PT.MultiPT vp 0x1000 s ltac:(vm_compute; discriminate)
             ltac:(vm_compute; discriminate)
             ltac:(vm_compute; reflexivity) ltac:(left; vm_compute; reflexivity)).
  - apply (release_rejects PT.MultiPT vp 0x20002000 s).
    + vm_compute. discriminate.
    + vm_compute. discriminate.
    + vm_compute. reflexivity.
    + right. right. repeat constructor; cbn; lia.
Defined.


(** A search succeeds when some entry satisfies the test. *)
Lemma find_slot_exists P arr :
  forall idx j r,
  arr !! j = Some r -> P r = true ->
  exists j', find_slot P arr idx = Some j'.
Proof.
  induction arr as [| r0 arr IH]; intros idx j r Hj HP; [discriminate |].
  cbn [find_slot]. destruct (P r0) eqn:E; [eauto |].
  destruct j as [| j]; cbn in Hj.
  - injection Hj as ->. congruence.
  - eapply IH; eassumption.
Qed.

(** [free_page] leaves the entry of the page not present and makes no
    entry present. *)
Lemma free_page_unmaps v pt a s :
  CFP.pools_ok (PT.frame_pools s) ->
  exists s',
    PT.free_page v pt a s = Some s'
    /\ CFP.pools_ok (PT.frame_pools s')
    /\ Z.land (PT.mem s' (PT.PTE_address a)) 1 = 0
    /\ forall x, Z.land (PT.mem s x) 1 = 0 -> Z.land (PT.mem s' x) 1 = 0.
Proof.
  intros Hok. destruct (free_page_effect v pt a s Hok) as [H0 H1].
  destruct (Z.eq_dec (Z.land (PT.mem s (PT.PTE_address a)) 1) 0) as [E | E].
  - exists s. rewrite (H0 E). auto.
  - destruct (H1 E) as (pools' & s' & _ & Hok' & Efp & Epools & Em & Eo & _).
    exists s'. split; [exact Efp |]. split; [rewrite Epools; exact Hok' |].
    split; [rewrite Em; reflexivity |].
    intros x Hx. destruct (Z.eq_dec x (PT.PTE_address a)) as [-> | Hne];
      [rewrite Em; reflexivity | rewrite Eo by exact Hne; exact Hx].
Qed.

(** The loop over the pages of a region ends, leaves the entry of every
    page it visits not present, and makes no entry present. *)
Lemma free_pages_unmaps v fuel :
  forall pt a bound s,
  CFP.pools_ok (PT.frame_pools s) ->
  0 <= a -> bound + PT.PAGE_SIZE <= 2 ^ 32 ->
  (a < bound -> (bound - a - 1) / PT.PAGE_SIZE < Z.of_nat fuel) ->
  exists s',
    free_pages v fuel pt a bound s = Some s'
    /\ CFP.pools_ok (PT.frame_pools s')
    /\ (forall k, 0 <= k -> a + PT.PAGE_SIZE * k < bound ->
                  Z.land (PT.mem s' (PT.PTE_address (a + PT.PAGE_SIZE * k))) 1 = 0)
    /\ forall x, Z.land (PT.mem s x) 1 = 0 -> Z.land (PT.mem s' x) 1 = 0.
Proof.
  induction fuel as [| fuel IH]; intros pt a bound s Hok Ha Hb Hfuel.
  - assert (bound <= a).
    { destruct (Z_lt_dec a bound) as [Hlt | Hge]; [| lia].
      specialize (Hfuel Hlt). unfold PT.PAGE_SIZE in *.
      Z.div_mod_to_equations. lia. }
    exists s. cbn [free_pages]. destruct (Z.ltb_spec a bound); [lia |].
    split; [reflexivity |]. split; [exact Hok |]. split; [intros; unfold PT.PAGE_SIZE in *; lia | auto].
  - cbn [free_pages]. destruct (Z.ltb_spec a bound) as [Hlt | Hge].
    + destruct (free_page_unmaps v pt a s Hok) as (s1 & E1 & Hok1 & Hc1 & Hm1).
      rewrite E1. cbn [mbind option_bind].
      rewrite u32_small by (unfold PT.PAGE_SIZE in *; lia).
      destruct (IH pt (a + PT.PAGE_SIZE) bound s1 Hok1) as (s' & E' & Hok' & Hc' & Hm');
        try (unfold PT.PAGE_SIZE in *; lia).
      { intros Hlt'. specialize (Hfuel Hlt). unfold PT.PAGE_SIZE in *.
        Z.div_mod_to_equations. lia. }
      exists s'. split; [exact E' |]. split; [exact Hok' |]. split.
      * intros k Hk Hkb. destruct (Z.eq_dec k 0) as [-> | Hne].
        -- apply Hm'. replace (a + PT.PAGE_SIZE * 0) with a by lia. exact Hc1.
        -- replace (a + PT.PAGE_SIZE * k)
             with (a + PT.PAGE_SIZE + PT.PAGE_SIZE * (k - 1)) by lia.
           apply Hc'; unfold PT.PAGE_SIZE in *; lia.
      * intros x Hx. apply Hm', Hm1, Hx.
    + exists s. split; [reflexivity |]. split; [exact Hok |].
      split; [intros; unfold PT.PAGE_SIZE in *; lia | auto].
Qed.

(** The shape of a successful [release]. *)
Lemma release_done v vp a s vp' s' :
  release v vp a s = Some (vp', s', None) ->
  exists idx i r g,
    alloc vp !! idx = Some r /\ free vp !! i = Some g
    /\ Region.base_address r = a /\ 0 < Region.size r /\ Region.size g = 0
    /\ (forall j h, (j < idx)%nat -> alloc vp !! j = Some h ->
                    a <> Region.base_address h \/ Region.size h <= 0)
    /\ vp' = mkVMPool (base_address vp) (size vp) (page_table vp)
               (<[idx := Region.mk a 0]> (alloc vp))
               (<[i := Region.mk a (Region.size r)]> (free vp))
    /\ free_pages v (S (Z.to_nat ((u32 (a + Region.size r) - a) / PT.PAGE_SIZE)))
         (page_table vp) a (u32 (a + Region.size r)) s = Some s'.
Proof.
  intros H. unfold release in H.
  destruct ((a <? base_address vp) || (a >=? u32 (base_address vp + size vp)));
    [discriminate |].
  destruct (find_slot _ (alloc vp) 0) as [idx |] eqn:Ea; [| discriminate].
  destruct (find_slot _ (free vp) 0) as [i |] eqn:Ef; [| discriminate].
  destruct (find_slot_Some _ _ _ _ Ea) as (_ & r & Hr & Pr & Br).
  destruct (find_slot_Some _ _ _ _ Ef) as (_ & g & Hg & Pg & _).
  rewrite Nat.sub_0_r in Hr, Hg, Br.
  unfold region_at in H. rewrite Hr in H. cbn [default] in H.
  apply andb_true_iff in Pr. destruct Pr as [Pr1 Pr2].
  apply Z.eqb_eq in Pr1. apply Z.gtb_lt in Pr2. apply Z.eqb_eq in Pg.
  destruct (free_pages _ _ _ _ _ _) as [s1 |] eqn:Efp; [| discriminate].
  cbn [mbind option_bind] in H. injection H as <- <-.
  exists idx, i, r, g. rewrite <- Pr1.
  repeat (split; [assumption || reflexivity || lia |]).
  split.
  { intros j h Hj Hh. specialize (Br j h Hj Hh). cbn beta in Br.
    apply andb_false_iff in Br. destruct Br as [Br | Br].
    - left. apply Z.eqb_neq in Br. exact Br.
    - right. destruct (Z.gtb_spec (Region.size h) 0); [discriminate | lia]. }
  split; [reflexivity | exact Efp].
Qed.


(** X23.  A successful [release] leaves no page of the released region
    mapped: the entry of every page of the region is not present
    afterwards, and no entry anywhere has become present.  [release]
    succeeds whenever a region with a positive size starts at the address
    and the array of free regions has an unused slot. *)
Theorem release_unmaps v vp a s idx r i g :
  CFP.pools_ok (PT.frame_pools s) ->
  0 <= base_address vp -> 0 <= size vp -> base_address vp + size vp < 2 ^ 32 ->
  base_address vp <= a < base_address vp + size vp ->
  a mod PT.PAGE_SIZE = 0 ->
  Forall (fun h => Region.base_address h + Region.size h + PT.PAGE_SIZE <= 2 ^ 32)
         (alloc vp) ->
  alloc vp !! idx = Some r -> Region.base_address r = a -> 0 < Region.size r ->
  free vp !! i = Some g -> Region.size g = 0 ->
  exists vp' s' r',
    release v vp a s = Some (vp', s', None)
    /\ In r' (alloc vp) /\ Region.base_address r' = a /\ 0 < Region.size r'
    /\ (forall x, a <= x < a + Region.size r' ->
                  Z.land (PT.mem s' (PT.PTE_address x)) 1 = 0)
    /\ (forall x, Z.land (PT.mem s x) 1 = 0 -> Z.land (PT.mem s' x) 1 = 0).
Proof.
  intros Hok Hb Hsz Htop Ha Hal Hroom Hr Hra Hrs Hg Hgs.
  destruct (find_slot_exists
              (fun r => (a =? Region.base_address r) && (Region.size r >? 0))
              (alloc vp) 0%nat idx r Hr) as [idx' Ea].
  { rewrite Hra, Z.eqb_refl. destruct (Z.gtb_spec (Region.size r) 0); [reflexivity | lia]. }
  destruct (find_slot_exists (fun r => Region.size r =? 0) (free vp) 0%nat i g Hg)
    as [i' Ef].
  { rewrite Hgs. reflexivity. }
  destruct (find_slot_Some _ _ _ _ Ea) as (_ & r' & Hr' & Pr' & _).
  rewrite Nat.sub_0_r in Hr'.
  apply andb_true_iff in Pr'. destruct Pr' as [P1 P2].
  apply Z.eqb_eq in P1. apply Z.gtb_lt in P2.
  pose proof (proj1 (Forall_lookup _ _) Hroom idx' r' Hr') as Hroom'.
  cbn beta in Hroom'. rewrite <- P1 in Hroom'.
  assert (Hroom'' : a + Region.size r' + 4096 <= 2 ^ 32) by exact Hroom'.
  assert (Hreg : Region.size (region_at (alloc vp) idx') = Region.size r').
  { unfold region_at. rewrite Hr'. reflexivity. }
  rewrite (release_found v vp a s idx' i' _ _ ltac:(
             rewrite u32_small by lia;
             destruct (Z.ltb_spec a (base_address vp)); [lia |];
             destruct (Z.geb_spec a (base_address vp + size vp)); [lia | reflexivity])
             Ea Ef eq_refl eq_refl).
  rewrite Hreg. rewrite (u32_small (a + Region.size r')) by lia.
  destruct (free_pages_unmaps v
              (S (Z.to_nat ((a + Region.size r' - a) / PT.PAGE_SIZE)))
              (page_table vp) a (a + Region.size r') s Hok ltac:(lia) Hroom')
    as (s' & E & _ & Hc & Hm).
  { intros _. unfold PT.PAGE_SIZE in *.
    rewrite Nat2Z.inj_succ, Z2Nat.id by (apply Z.div_pos; lia).
    Z.div_mod_to_equations. lia. }
  rewrite E. cbn [mbind option_bind].
  eexists. exists s', r'. split; [reflexivity |].
  split; [apply (list_elem_of_In _ _), (list_elem_of_lookup_2 _ idx'); exact Hr' |].
  split; [symmetry; exact P1 |]. split; [exact P2 |]. split; [| exact Hm].
  intros x Hx.
  assert (Hk : 0 <= (x - a) / PT.PAGE_SIZE
               /\ a + PT.PAGE_SIZE * ((x - a) / PT.PAGE_SIZE) < a + Region.size r'
               /\ (a + PT.PAGE_SIZE * ((x - a) / PT.PAGE_SIZE)) / PT.PAGE_SIZE
                  = x / PT.PAGE_SIZE).
  { unfold PT.PAGE_SIZE in *. Z.div_mod_to_equations. lia. }
  destruct Hk as (Hk0 & Hk1 & Hk2).
  specialize (Hc _ Hk0 Hk1).
  rewrite PTE_address_value in Hc by (unfold PT.PAGE_SIZE in *; lia).
  rewrite PTE_address_value by (unfold PT.PAGE_SIZE in *; lia).
  rewrite <- Hk2. exact Hc.
Qed.


Lemma release_unmaps_witness :
  let vp := mkVMPool 0x20000000 (256 * 2 ^ 20) (PT.mkPT 0)
              [Region.mk 0x20000000 8192; Region.mk 0x20002000 8192; Region.mk 0 0]
              [Region.mk 0x20004000 (256 * 2 ^ 20 - 16384); Region.mk 0 0;
               Region.mk 0 0] in
  let s := PT.mkMachine (fun _ => 2) 0 0 [] None in
  exists vp' s',
    release PT.MultiPT vp 0x20002000 s = Some (vp', s', None)
    /\ Z.land (PT.mem s' (PT.PTE_address 0x20003abc)) 1 = 0.
Proof.
  intros vp s.
  destruct (release_unmaps PT.MultiPT vp 0x20002000 s 1 (Region.mk 0x20002000 8192)
              1 (Region.mk 0 0)
              ltac:(constructor) ltac:(vm_compute; discriminate)
              ltac:(vm_compute; discriminate) ltac:(vm_compute; reflexivity)
              ltac:(vm_compute; split; [discriminate | reflexivity])
              ltac:(vm_compute; reflexivity)
              ltac:(repeat constructor; vm_compute; discriminate)
              eq_refl eq_refl ltac:(vm_compute; reflexivity) eq_refl eq_refl)
    as (vp' & s' & r' & E & Hin & Hb & Hs & Hc & _).
  exists vp', s'. split; [exact E |].
  apply Hc.
  assert (Hr' : r' = Region.mk 0x20002000 8192).
  { destruct Hin as [<- | [<- | [<- | []]]]; cbn in Hb, Hs;
      first [discriminate Hb | reflexivity | lia]. }
  rewrite Hr'. cbn. lia.
Defined.

Lemma total_size_insert arr :
  forall i r x,
  arr !! i = Some r ->
  total_size (<[i := x]> arr) = total_size arr - Region.size r + Region.size x.
Proof.
  unfold total_size.
  induction arr as [| r0 arr IH]; intros i r x H; [discriminate |].
  destruct i as [| i].
  - injection H as ->. cbn [insert list_insert foldr]. lia.
  - change (<[S i := x]> (r0 :: arr)) with (r0 :: <[i := x]> arr).
    change (arr !! i = Some r) in H. cbn [foldr]. rewrite (IH i r x H). lia.
Qed.

(** X24.  Neither [allocate] nor [release] creates or loses address space:
    the sizes recorded in the two arrays, allocated and free together, add
    up to the same number of bytes before and after a successful call. *)
Theorem accounted_conserved v vp vp' s s' sz a :
  (0 < sz /\ sz + PT.PAGE_SIZE <= 2 ^ 32
   /\ Forall in_address_space (free vp)
   /\ allocate vp sz = (vp', a, None))
  \/ release v vp a s = Some (vp', s', None) ->
  accounted vp' = accounted vp.
Proof.
  intros [(Hsz & Htop & Hfree & H) | H].
  - destruct (allocate_found vp sz vp' a Hsz Htop H)
      as (idx & i & f & g & Hf & Hg & Hfit & Hg0 & _ & _ & _ & ->).
    pose proof (proj1 (Forall_lookup _ _) Hfree idx f Hf) as (Hb0 & Hs0 & Hb1).
    destruct (round_up_facts sz ltac:(lia)) as [Hru _].
    unfold accounted. cbn [alloc free].
    rewrite (total_size_insert _ _ _ _ Hg), (total_size_insert _ _ _ _ Hf).
    cbn [Region.size]. rewrite u32_small by lia. lia.
  - destruct (release_done v vp a s vp' s' H)
      as (idx & i & r & g & Hr & Hg & _ & _ & Hg0 & _ & -> & _).
    unfold accounted. cbn [alloc free].
    rewrite (total_size_insert _ _ _ _ Hr), (total_size_insert _ _ _ _ Hg).
    cbn [Region.size]. lia.
Qed.

Lemma accounted_conserved_witness :
  let vp := mkVMPool 0x20000000 (256 * 2 ^ 20) (PT.mkPT 0)
              [Region.mk 0x20000000 8192; Region.mk 0 0; Region.mk 0 0]
              [Region.mk 0x20002000 (256 * 2 ^ 20 - 8192); Region.mk 0 0;
               Region.mk 0 0] in
  accounted (fst (fst (allocate vp 5000))) = accounted vp.
Proof.
  intros vp.
  apply (accounted_conserved PT.MultiPT vp (fst (fst (allocate vp 5000)))
           (PT.mkMachine (fun _ => 2) 0 0 [] None)
           (PT.mkMachine (fun _ => 2) 0 0 [] None) 5000 0x20002000).
  left. split; [lia |]. split; [vm_compute; discriminate |].
  split; [| reflexivity].
  repeat constructor; vm_compute; congruence.
Defined.

Lemma existsb_insert {A} (P : A -> bool) l :
  forall i g y,
  l !! i = Some g -> P g = false -> P y = false ->
  existsb P (<[i := y]> l) = existsb P l.
Proof.
  induction l as [| x l IH]; intros i g y H Hg Hy; [discriminate |].
  destruct i as [| i].
  - injection H as ->. cbn [insert list_insert existsb]. rewrite Hg, Hy. reflexivity.
  - change (<[S i := y]> (x :: l)) with (x :: <[i := y]> l).
    change (l !! i = Some g) in H. cbn [existsb].
    rewrite (IH i g y H Hg Hy). reflexivity.
Qed.

(** X25.  [allocate] followed by [release] of the address it returned (the
    kernel's [new] and [delete]) leaves [is_legitimate] as it was before
    the allocation, for every address; the released pages are not mapped. *)
Theorem allocate_release_legitimate v vp sz vp1 a s j g :
  0 < sz -> sz + PT.PAGE_SIZE <= 2 ^ 32 ->
  CFP.pools_ok (PT.frame_pools s) ->
  0 <= base_address vp -> 0 <= size vp -> base_address vp + size vp < 2 ^ 32 ->
  Forall in_address_space (free vp) ->
  Forall (fun h => 0 <= Region.base_address h) (alloc vp) ->
  allocate vp sz = (vp1, a, None) ->
  base_address vp <= a < base_address vp + size vp ->
  a + round_up sz + PT.PAGE_SIZE <= 2 ^ 32 ->
  Forall (fun h => a <> Region.base_address h \/ Region.size h <= 0) (alloc vp) ->
  free vp1 !! j = Some g -> Region.size g = 0 ->
  exists vp2 s',
    release v vp1 a s = Some (vp2, s', None)
    /\ (forall x, 0 <= x -> is_legitimate vp2 x = is_legitimate vp x)
    /\ accounted vp2 = accounted vp
    /\ (forall x, Z.land (PT.mem s x) 1 = 0 -> Z.land (PT.mem s' x) 1 = 0).
Proof.
  intros Hsz Htop Hok Hb Hs Hbs Hfree Halloc H Ha Hroom Hfresh Hj Hg.
  destruct (allocate_found vp sz vp1 a Hsz Htop H)
    as (idx & i & f & g0 & Hf & Hg0 & Hfit & Hg00 & _ & Hlive & Ea & Evp).
  pose proof (proj1 (Forall_lookup _ _) Hfree idx f Hf) as (Hb0 & Hs0 & Hb1).
  destruct (round_up_facts sz ltac:(lia)) as [Hru _].
  assert (Hi : (i < length (alloc vp))%nat) by (eapply lookup_lt_Some; exact Hg0).
  assert (Efind : find_slot
                    (fun r => (a =? Region.base_address r) && (Region.size r >? 0))
                    (alloc vp1) 0 = Some i).
  { destruct (find_slot_exists
                (fun r => (a =? Region.base_address r) && (Region.size r >? 0))
                (alloc vp1) 0%nat i (Region.mk a (round_up sz))) as [i' Ei'].
    - rewrite Evp. cbn [alloc]. apply list_lookup_insert_eq. exact Hi.
    - cbn [Region.base_address Region.size]. rewrite Z.eqb_refl.
      destruct (Z.gtb_spec (round_up sz) 0); [reflexivity | lia].
    - destruct (find_slot_Some _ _ _ _ Ei') as (_ & r' & Hr' & Pr' & _).
      rewrite Nat.sub_0_r in Hr'. rewrite Ei'. f_equal.
      destruct (Nat.eq_dec i' i) as [E | E]; [exact E | exfalso].
      rewrite Evp in Hr'. cbn [alloc] in Hr'.
      rewrite list_lookup_insert_ne in Hr' by congruence.
      pose proof (proj1 (Forall_lookup _ _) Hfresh i' r' Hr') as Hd.
      apply andb_true_iff in Pr'. destruct Pr' as [P1 P2].
      apply Z.eqb_eq in P1. apply Z.gtb_lt in P2. cbn beta in Hd. lia. }
  destruct (find_slot_exists (fun r => Region.size r =? 0) (free vp1) 0%nat j g Hj)
    as [j' Efree]; [rewrite Hg; reflexivity |].
  assert (Hreg : region_at (alloc vp1) i = Region.mk a (round_up sz)).
  { unfold region_at. rewrite Evp. cbn [alloc].
    rewrite list_lookup_insert_eq by exact Hi. reflexivity. }
  assert (Ebase : base_address vp1 = base_address vp) by (rewrite Evp; reflexivity).
  assert (Esize : size vp1 = size vp) by (rewrite Evp; reflexivity).
  rewrite (release_found v vp1 a s i j' _ _ ltac:(
             rewrite Ebase, Esize; rewrite u32_small by lia;
             destruct (Z.ltb_spec a (base_address vp)); [lia |];
             destruct (Z.geb_spec a (base_address vp + size vp)); [lia | reflexivity])
             Efind Efree eq_refl eq_refl).
  rewrite Hreg. cbn [Region.size Region.base_address].
  assert (Hroom' : a + round_up sz + 4096 <= 2 ^ 32) by exact Hroom.
  rewrite (u32_small (a + round_up sz)) by lia.
  destruct (free_pages_unmaps v
              (S (Z.to_nat ((a + round_up sz - a) / PT.PAGE_SIZE)))
              (page_table vp1) a (a + round_up sz) s Hok ltac:(lia) Hroom)
    as (s' & E & _ & _ & Hm).
  { intros _. unfold PT.PAGE_SIZE in *.
    rewrite Nat2Z.inj_succ, Z2Nat.id by (apply Z.div_pos; lia).
    Z.div_mod_to_equations. lia. }
  rewrite E. cbn [mbind option_bind].
  eexists. exists s'. split; [reflexivity |].
  destruct (find_slot_Some _ _ _ _ Efree) as (_ & g' & Hg' & Pg' & _).
  rewrite Nat.sub_0_r in Hg'. apply Z.eqb_eq in Pg'.
  split; [| split; [| exact Hm]].
  - intros x Hx. unfold is_legitimate. cbn [base_address alloc].
    rewrite Ebase. rewrite Evp. cbn [alloc]. rewrite list_insert_insert_eq.
    destruct ((x >=? base_address vp) && (x <? u32 (base_address vp + 2 * PT.PAGE_SIZE)));
      [reflexivity |].
    apply (existsb_insert _ _ i g0); [exact Hg0 | |].
    + pose proof (proj1 (Forall_lookup _ _) Halloc i g0 Hg0) as Hgb. cbn beta in Hgb.
      rewrite Hg00, Z.add_0_r.
      destruct (Z.geb_spec x (Region.base_address g0)); [| reflexivity].
      destruct (Z.ltb_spec x (u32 (Region.base_address g0))); [| reflexivity].
      exfalso. pose proof (Z.mod_le (Region.base_address g0) (2 ^ 32) Hgb ltac:(lia)).
      unfold u32 in *. lia.
    + cbn [Region.base_address Region.size]. rewrite Z.add_0_r.
      rewrite u32_small by lia.
      destruct (Z.geb_spec x a); [| reflexivity].
      destruct (Z.ltb_spec x a); [lia | reflexivity].
  - unfold accounted. cbn [alloc free]. rewrite Evp in Hg' |- *. cbn [alloc free] in Hg' |- *.
    rewrite list_insert_insert_eq.
    rewrite (total_size_insert _ _ _ _ Hg0), (total_size_insert _ _ _ _ Hg').
    destruct (Nat.eq_dec j' idx) as [-> | Hne].
    + rewrite list_lookup_insert_eq in Hg' by (eapply lookup_lt_Some; exact Hf).
      injection Hg' as <-. cbn [Region.size] in Pg' |- *.
      rewrite u32_small in Pg' by lia.
      rewrite (total_size_insert _ _ _ _ Hf). cbn [Region.size].
      rewrite u32_small by lia. lia.
    + rewrite list_lookup_insert_ne in Hg' by congruence.
      rewrite (total_size_insert _ _ _ _ Hf). cbn [Region.size].
      rewrite u32_small by lia. lia.
Qed.


Lemma allocate_release_legitimate_witness :
  let vp := mkVMPool 0x20000000 (256 * 2 ^ 20) (PT.mkPT 0)
              [Region.mk 0x20000000 8192; Region.mk 0 0; Region.mk 0 0]
              [Region.mk 0x20002000 (256 * 2 ^ 20 - 8192); Region.mk 0 0;
               Region.mk 0 0] in
  let s := PT.mkMachine (fun _ => 2) 0 0 [] None in
  exists vp2 s',
    release PT.MultiPT (fst (fst (allocate vp 5000))) 0x20002000 s
    = Some (vp2, s', None)
    /\ forall x, 0 <= x -> is_legitimate vp2 x = is_legitimate vp x.
Proof.
  intros vp s.
  destruct (allocate_release_legitimate PT.MultiPT vp 5000
              (fst (fst (allocate vp 5000))) 0x20002000 s 1 (Region.mk 0 0)
              ltac:(lia) ltac:(vm_compute; discriminate) ltac:(constructor)
              ltac:(vm_compute; discriminate) ltac:(vm_compute; discriminate)
              ltac:(vm_compute; reflexivity)
              ltac:(repeat constructor; vm_compute; congruence)
              ltac:(repeat constructor; vm_compute; discriminate)
              eq_refl
              ltac:(vm_compute; split; [discriminate | reflexivity])
              ltac:(vm_compute; discriminate)
              ltac:(repeat constructor; cbn; lia)
              eq_refl eq_refl)
    as (vp2 & s' & E & Hl & _).
  exists vp2, s'. split; [exact E | exact Hl].
Defined.

End VMPoolFacts.

(** ** The scheduler in use: hand-over, termination, preemption *)

Section RoundRobin.
Import Sched Kernel.

(** [enqueue] appends a live thread that is not queued, whatever its
    [next] field holds. *)
Lemma enqueue_ready s l t th :
  ready_is s l -> t ∉ l -> threads s !! t = Some th ->
  exists s',
    enqueue (Some t) s = Some s' /\ ready_is s' (l ++ [t])
    /\ current_thread s' = current_thread s
    /\ interrupts_enabled s' = interrupts_enabled s
    /\ running s' = running s
    /\ termination_thread s' = termination_thread s
    /\ forall x, is_Some (threads s' !! x) <-> is_Some (threads s !! x).
Proof.
  intros [Hnd Hh Ht Hc] Hnotin Hlive. unfold enqueue.
  destruct (last l) as [tl |] eqn:Hlast; rewrite Ht.
  - pose proof (last_Some_elem_of _ _ Hlast) as Hin.
    assert (Hll : (0 < length l)%nat) by (destruct l; [discriminate | cbn; lia]).
    assert (Hlen : l !! (length l - 1)%nat = Some tl).
    { rewrite <- Hlast, last_lookup. f_equal. lia. }
    destruct (Hc _ _ Hlen) as (thl & Hthl & _). rewrite Hthl.
    cbn [mbind option_bind]. eexists. split; [reflexivity |].
    split; [| repeat (split; [reflexivity |])].
    + constructor; cbn [queue threads with_queue with_threads head tail].
      * apply NoDup_app. split; [exact Hnd |]. split; [| apply NoDup_singleton].
        intros x Hx Hx'. apply list_elem_of_singleton in Hx'. subst. contradiction.
      * rewrite Hh. destruct l; [discriminate | reflexivity].
      * now rewrite last_snoc.
      * intros i x Hi.
        destruct (decide (i < length l)%nat) as [Hlt | Hge].
        -- rewrite lookup_app_l in Hi by lia.
           destruct (Hc _ _ Hi) as (thx & Hthx & Hnx).
           destruct (decide (x = tl)) as [-> | Hne].
           ++ assert (i = (length l - 1)%nat) by (eapply NoDup_lookup; eauto).
              subst i. rewrite lookup_insert_eq. eexists. split; [reflexivity |].
              cbn [next set_next]. replace (S (length l - 1)) with (length l) by lia.
              rewrite lookup_app_r by lia. rewrite Nat.sub_diag.
              intros y Hy. exact Hy.
           ++ rewrite lookup_insert_ne by congruence. exists thx.
              split; [exact Hthx |]. intros y Hy.
              destruct (decide (S i < length l)%nat).
              ** rewrite lookup_app_l in Hy by lia. apply Hnx, Hy.
              ** assert (i = (length l - 1)%nat) by lia. subst i. congruence.
        -- rewrite lookup_app_r in Hi by lia.
           apply list_lookup_singleton_Some in Hi as [Hi <-].
           assert (i = length l) by lia. subst i.
           assert (t <> tl) by (intros ->; contradiction).
           rewrite lookup_insert_ne by congruence. exists th.
           split; [exact Hlive |]. intros y Hy.
           apply lookup_lt_Some in Hy. rewrite length_app in Hy. cbn in Hy. lia.
    + intros x. cbn [threads with_queue with_threads].
      destruct (decide (x = tl)) as [-> | Hne].
      * rewrite lookup_insert_eq, Hthl. split; eauto.
      * rewrite lookup_insert_ne by congruence. reflexivity.
  - apply last_None in Hlast. subst l. eexists. split; [reflexivity |].
    split; [| repeat (split; [reflexivity |]); reflexivity].
    constructor; cbn [queue threads with_queue head tail app].
    + apply NoDup_singleton.
    + reflexivity.
    + reflexivity.
    + intros i x Hi. destruct i; [| discriminate]. injection Hi as <-.
      exists th. split; [exact Hlive |]. intros y Hy. discriminate.
Qed.

(** [dequeue] removes the head of a queue of two or more. *)
Lemma dequeue_ready s x y l :
  ready_is s (x :: y :: l) ->
  exists s',
    dequeue s = Some (Some x, s') /\ ready_is s' (y :: l)
    /\ threads s' = threads s
    /\ current_thread s' = current_thread s
    /\ interrupts_enabled s' = interrupts_enabled s
    /\ running s' = running s
    /\ termination_thread s' = termination_thread s.
Proof.
  intros [Hnd Hh Ht Hc]. unfold dequeue. rewrite Hh. cbn [lookup list_lookup].
  destruct (Hc 0%nat x eq_refl) as (th & Hth & Hnx). rewrite Hth.
  cbn [mbind option_bind]. rewrite (Hnx y eq_refl). cbn [head].
  eexists. split; [reflexivity |].
  split; [| repeat (split; [reflexivity |]); reflexivity].
  apply NoDup_cons in Hnd as [Hx Hnd'].
  constructor; cbn [queue with_queue head tail threads].
  - exact Hnd'.
  - reflexivity.
  - rewrite Ht. reflexivity.
  - intros i z Hi. apply (Hc (S i) z). exact Hi.
Qed.

(** One hand-over: the head of the ready queue runs and the caller goes to
    the end of the queue. *)
Lemma pass_on_CPU_step s c x l th :
  ready_is s (x :: l) -> current_thread s = Some c -> c ∉ x :: l ->
  threads s !! c = Some th ->
  exists s',
    pass_on_CPU s = Some s'
    /\ current_thread s' = Some x /\ ready_is s' (l ++ [c])
    /\ interrupts_enabled s' = true
    /\ (forall z, is_Some (threads s' !! z) <-> is_Some (threads s !! z)).
Proof.
  intros Hq Hcur Hc Hlive. unfold pass_on_CPU, resume. rewrite Hcur.
  destruct (enqueue_ready (mask s) (x :: l) c th) as (s1 & E1 & Hq1 & _ & _ & _ & _ & Hd1).
  { destruct Hq. constructor; assumption. }
  { exact Hc. }
  { exact Hlive. }
  rewrite E1. cbn [mbind option_bind]. unfold yield.
  assert (Hq1' : ready_is (mask (unmask s1)) (x :: l ++ [c])).
  { destruct Hq1. constructor; assumption. }
  destruct (l ++ [c]) as [| y l'] eqn:El; [destruct l; discriminate |].
  destruct (dequeue_ready _ x y l' Hq1') as (s2 & E2 & Hq2 & Ht2 & _).
  rewrite E2. cbn [mbind option_bind]. eexists. split; [reflexivity |].
  split; [reflexivity |]. split.
  - destruct Hq2. constructor; assumption.
  - split; [reflexivity |]. intros z. cbn [dispatch_to threads]. rewrite Ht2.
    exact (Hd1 z).
Qed.


Lemma rotation_shift n :
  forall x l, rotation n (l ++ [x]) = rotation (S n) (x :: l).
Proof.
  induction n as [| n IH]; intros x l; [reflexivity |].
  change (rotation (S n) (l ++ [x]))
    with (match rotation n (l ++ [x]) with [] => [] | y :: r => r ++ [y] end).
  rewrite IH. reflexivity.
Qed.

Lemma rotation_drop_take l :
  forall n, (n <= length l)%nat -> rotation n l = drop n l ++ take n l.
Proof.
  induction n as [| n IH]; intros Hn.
  - cbn. rewrite app_nil_r. reflexivity.
  - cbn [rotation]. rewrite IH by lia.
    destruct (lookup_lt_is_Some_2 l n ltac:(lia)) as [x Hx].
    rewrite (drop_S _ _ _ Hx). rewrite (take_S_r _ _ _ Hx).
    cbn [app]. rewrite app_assoc. reflexivity.
Qed.

(** X26.  Round robin by [pass_on_CPU]: every hand-over runs the head of
    the ready queue and puts the caller at its end, so after [n]
    hand-overs the running thread followed by the queue is the initial
    order moved round [n] times; after as many hand-overs as there are
    threads the first thread runs again and the queue is in its initial
    order.  This holds whatever the [next] fields of the running thread
    and of the last queued thread held, as long as the queue is not
    empty. *)
Theorem pass_on_CPU_round_robin n :
  forall s c q,
  ready_is s q -> q <> [] ->
  current_thread s = Some c -> c ∉ q -> is_Some (threads s !! c) ->
  exists s' c' q',
    pass_on_CPU_n n s = Some s'
    /\ rotation n (c :: q) = c' :: q'
    /\ current_thread s' = Some c' /\ ready_is s' q'
    /\ (n = S (length q) -> c' = c /\ q' = q).
Proof.
  induction n as [| n IH]; intros s c q Hq Hne Hcur Hc [th Hlive].
  - exists s, c, q. split; [reflexivity |]. split; [reflexivity |].
    split; [exact Hcur |]. split; [exact Hq |]. discriminate.
  - destruct q as [| x l]; [contradiction |].
    destruct (pass_on_CPU_step s c x l th Hq Hcur Hc Hlive)
      as (s1 & E1 & Hcur1 & Hq1 & _ & Hd1).
    assert (Hnd : NoDup (x :: l)) by (destruct Hq; assumption).
    apply NoDup_cons in Hnd as [Hx Hnd].
    destruct (IH s1 x (l ++ [c]) Hq1) as (s' & c' & q' & E & Hrot & Hcur' & Hq' & _).
    { destruct l; discriminate. }
    { exact Hcur1. }
    { intros Hin. apply elem_of_app in Hin as [Hin | Hin]; [contradiction |].
      apply list_elem_of_singleton in Hin. subst x. apply Hc. left. }
    { apply Hd1. destruct (ri_links _ _ Hq 0%nat x eq_refl) as (thx & Hthx & _). eauto. }
    exists s', c', q'. cbn [pass_on_CPU_n]. rewrite E1. cbn [mbind option_bind].
    split; [exact E |].
    assert (Hrot' : rotation (S n) (c :: x :: l) = c' :: q').
    { rewrite <- Hrot.
      change (x :: l ++ [c]) with ((x :: l) ++ [c]).
      rewrite rotation_shift. reflexivity. }
    split; [exact Hrot' |]. split; [exact Hcur' |]. split; [exact Hq' |].
    intros Hn. rewrite Hn in Hrot'.
    rewrite (rotation_drop_take (c :: x :: l) (S (length (x :: l)))) in Hrot' by (cbn; lia).
    change (S (length (x :: l))) with (length (c :: x :: l)) in Hrot'.
    rewrite drop_all, take_ge in Hrot' by lia. cbn [app] in Hrot'.
    injection Hrot' as <- <-. split; reflexivity.
Qed.


(** Four threads as kernel.C starts them: thread 1 runs, threads 2 to 4 are
    queued.  The [next] fields of thread 1 and of thread 4 hold values left
    from earlier rounds. *)
Lemma pass_on_CPU_round_robin_witness :
  let s := mkSched {[ 1%nat := mkThread (Some 2%nat) None;
                      2%nat := mkThread (Some 3%nat) None;
                      3%nat := mkThread (Some 4%nat) None;
                      4%nat := mkThread (Some 1%nat) None;
                      9%nat := mkThread None None ]}
                   (mkQueue (Some 2%nat) (Some 4%nat)) (Some 1%nat) 9 true true in
  exists s',
    pass_on_CPU_n 4 s = Some s'
    /\ current_thread s' = Some 1%nat
    /\ ready_is s' [2%nat; 3%nat; 4%nat].
Proof.
  intros s.
  assert (Hq : ready_is s [2%nat; 3%nat; 4%nat]).
  { constructor; try reflexivity.
    - apply (bool_decide_unpack _). vm_compute. reflexivity.
    - intros i x Hi. destruct i as [| [| [| i]]]; try discriminate;
        injection Hi as <-; eexists; (split; [reflexivity |]);
        intros y Hy; try discriminate; injection Hy as <-; reflexivity. }
  destruct (pass_on_CPU_round_robin 4 s 1%nat [2%nat; 3%nat; 4%nat] Hq
              ltac:(discriminate) eq_refl
              ltac:(apply (bool_decide_unpack _); vm_compute; reflexivity)
              ltac:(eexists; reflexivity))
    as (s' & c' & q' & E & _ & Hc & Hr & Hp).
  destruct (Hp eq_refl) as [-> ->].
  exists s'. split; [exact E |]. split; [exact Hc | exact Hr].
Defined.

End RoundRobin.

Section Termination.
Import Sched Kernel.

(** X27.  [terminate] of a queued thread that is not running, on a
    well-formed queue, case by case.  The only thread of the queue is
    destroyed and the queue emptied, with interrupts left masked.  The head
    of a longer queue is left alone: nothing changes but the interrupt
    mask.  Any other queued thread is unlinked and destroyed, the others
    keep their order, and interrupts are enabled on return. *)
Theorem terminate_queued_cases s l t :
  queue_is s l -> current_thread s <> Some t ->
  (l = [t] ->
   exists s', terminate (Some t) s = Some (None, s')
              /\ queue_is s' [] /\ threads s' !! t = None
              /\ interrupts_enabled s' = false)
  /\ (forall y l', l = t :: y :: l' ->
        terminate (Some t) s = Some (Some t, mask s))
  /\ (forall pre p post, l = pre ++ p :: t :: post ->
        exists s', terminate (Some t) s = Some (None, s')
                   /\ queue_is s' (pre ++ p :: post)
                   /\ threads s' !! t = None
                   /\ interrupts_enabled s' = true).
Proof.
  intros Hq Hcur. split; [| split].
  - intros ->. exact (terminate_single s t Hq Hcur).
  - intros y l' ->. exact (terminate_head s t y l' Hq Hcur).
  - intros pre p post ->. exact (terminate_queued s pre p t post Hq Hcur).
Qed.

Lemma terminate_queued_cases_witness :
  let tcb := mkThread None None in
  let s := mkSched {[ 1%nat := mkThread (Some 2%nat) None; 2%nat := tcb;
                      3%nat := tcb; 9%nat := tcb ]}
                   (mkQueue (Some 1%nat) (Some 2%nat)) (Some 3%nat) 9 true true in
  terminate (Some 1%nat) s = Some (Some 1%nat, mask s)
  /\ exists s', terminate (Some 2%nat) s = Some (None, s')
                /\ queue_is s' [1%nat].
Proof.
  intros tcb s.
  assert (Hq : queue_is s [1%nat; 2%nat]).
  { constructor; try reflexivity.
    - apply (bool_decide_unpack _). vm_compute. reflexivity.
    - intros i x Hi. destruct i as [| [| i]]; try discriminate;
        injection Hi as <-; eexists; (split; reflexivity). }
  split.
  - exact (proj1 (proj2 (terminate_queued_cases s [1%nat; 2%nat] 1%nat Hq
                           ltac:(discriminate)))
             2%nat [] eq_refl).
  - destruct (proj2 (proj2 (terminate_queued_cases s [1%nat; 2%nat] 2%nat Hq
                              ltac:(discriminate)))
                [] 1%nat [] eq_refl) as (s' & E & Hq' & _).
    exists s'. split; [exact E | exact Hq'].
Defined.

(** What a thread that terminates itself sets up: the termination thread
    runs, with the terminating thread as its cargo. *)
Lemma thread_shutdown_dispatches s c tt :
  current_thread s = Some c ->
  threads s !! termination_thread s = Some tt ->
  thread_shutdown s =
  Some (Some c,
        dispatch_to (termination_thread s)
          (with_threads (mask s)
             (<[termination_thread s := SetCargo tt (Some c)]> (threads s)))).
Proof.
  intros Hcur Htt. unfold thread_shutdown, terminate. rewrite Hcur.
  cbn [mask with_interrupts current_thread threads termination_thread].
  rewrite Hcur. destruct (decide (Some c = Some c)) as [_ | Hne]; [| congruence].
  rewrite Htt. reflexivity.
Qed.

(** Changing TCBs that are not queued keeps the ready queue. *)
Lemma ready_is_other_threads s s' l :
  ready_is s l -> queue s' = queue s ->
  (forall x, x ∈ l -> threads s' !! x = threads s !! x) ->
  ready_is s' l.
Proof.
  intros [Hnd Hh Ht Hc] Eq Hsame.
  constructor; rewrite ?Eq; try assumption.
  intros i x Hi. rewrite Hsame by (eapply list_elem_of_lookup_2; exact Hi).
  exact (Hc i x Hi).
Qed.

(** X28.  A thread that returns from its thread function, on a ready queue
    as the scheduler leaves it: every queued thread links to the next one,
    and the [next] field of the last one holds whatever an earlier round
    left there.  [thread_shutdown] hands the thread to the termination
    thread, whose next round destroys its TCB and yields to the head [x] of
    the ready queue.  Afterwards the terminated thread is not live, every
    other TCB is, and [x] runs with interrupts enabled.  When more threads
    are queued behind [x], the queue holds them in their order.  When [x]
    was the only queued thread, [dequeue] makes the [next] field of [x] the
    head of the queue: [NULL] gives the empty queue, and a stale pointer
    stays behind as the head, with [x] as the tail. *)
Theorem self_termination s c x l thc tt :
  ready_is s (x :: l) ->
  current_thread s = Some c -> c ∉ x :: l -> threads s !! c = Some thc ->
  threads s !! termination_thread s = Some tt ->
  termination_thread s <> c -> termination_thread s ∉ x :: l ->
  exists s1 s2 thx,
    thread_shutdown s = Some (Some c, s1)
    /\ current_thread s1 = Some (termination_thread s)
    /\ termination_thread_func s1 = Some s2
    /\ current_thread s2 = Some x
    /\ threads s2 !! c = None
    /\ (forall z, z <> c -> is_Some (threads s2 !! z) <-> is_Some (threads s !! z))
    /\ interrupts_enabled s2 = true
    /\ threads s !! x = Some thx
    /\ (l <> [] -> ready_is s2 l)
    /\ (l = [] ->
        head (queue s2) = next thx
        /\ tail (queue s2) = match next thx with
                             | None => None
                             | Some _ => Some x
                             end).
Proof.
  intros Hq Hcur Hc Hlive Htt Hne Hnq.
  rewrite (thread_shutdown_dispatches s c tt Hcur Htt).
  set (s1 := dispatch_to _ _).
  set (s' := mask (with_threads s1 (delete c (threads s1)))).
  assert (Hother : forall z, z <> c -> z <> termination_thread s ->
                     threads s' !! z = threads s !! z).
  { intros z Hz Hz'. unfold s', s1.
    cbn [mask with_interrupts with_threads threads dispatch_to].
    rewrite lookup_delete_ne by congruence.
    rewrite lookup_insert_ne by congruence. reflexivity. }
  assert (Hq' : ready_is s' (x :: l)).
  { apply (ready_is_other_threads s); [exact Hq | reflexivity |].
    intros z Hz. apply Hother; intros ->; contradiction. }
  destruct (ri_links _ _ Hq 0%nat x eq_refl) as (thx & Hthx & Hnx).
  assert (Hthx' : threads s' !! x = Some thx).
  { rewrite Hother; [exact Hthx | |]; intros ->; [apply Hc | apply Hnq]; left. }
  assert (Hrun : forall s2, dequeue s' = Some (Some x, s2) ->
            termination_thread_func s1 = Some (dispatch_to x s2)).
  { intros s2 E2. unfold termination_thread_func.
    assert (E : current_thread s1 = Some (termination_thread s)) by reflexivity.
    rewrite E. cbn [mbind option_bind].
    assert (E' : threads s1 !! termination_thread s = Some (SetCargo tt (Some c))).
    { unfold s1. cbn [dispatch_to threads with_threads]. apply lookup_insert_eq. }
    rewrite E'. cbn [mbind option_bind SetCargo cargo].
    unfold destroy.
    assert (E'' : threads s1 !! c = Some thc).
    { unfold s1. cbn [dispatch_to threads with_threads].
      rewrite lookup_insert_ne by exact Hne. exact Hlive. }
    rewrite E''. cbn [mbind option_bind]. unfold yield. fold s'.
    rewrite E2. reflexivity. }
  assert (Hdead : threads s' !! c = None).
  { unfold s'. cbn [mask with_interrupts with_threads threads].
    apply lookup_delete_eq. }
  assert (Hlive' : forall z, z <> c ->
            is_Some (threads s' !! z) <-> is_Some (threads s !! z)).
  { intros z Hz. unfold s', s1.
    cbn [mask with_interrupts with_threads threads dispatch_to].
    rewrite lookup_delete_ne by congruence.
    destruct (decide (z = termination_thread s)) as [-> | Hz'].
    - rewrite lookup_insert_eq, Htt. split; eauto.
    - rewrite lookup_insert_ne by congruence. reflexivity. }
  destruct l as [| y l'].
  - assert (E2 : dequeue s' =
                 Some (Some x,
                       with_queue s'
                         match next thx with
                         | None => mkQueue None None
                         | Some n => mkQueue (Some n) (Some x)
                         end)).
    { unfold dequeue. rewrite (ri_head _ _ Hq'). cbn [lookup list_lookup].
      rewrite Hthx'. cbn [mbind option_bind]. rewrite (ri_tail _ _ Hq').
      cbn [last head]. destruct (next thx); reflexivity. }
    eexists s1, _, thx. split; [reflexivity |]. split; [reflexivity |].
    split; [exact (Hrun _ E2) |].
    cbn [dispatch_to current_thread threads interrupts_enabled queue with_queue].
    split; [reflexivity |]. split; [exact Hdead |]. split; [exact Hlive' |].
    split; [reflexivity |]. split; [exact Hthx |].
    split; [intros H; contradiction |].
    intros _. destruct (next thx); split; reflexivity.
  - destruct (dequeue_ready s' x y l' Hq') as (s2 & E2 & Hq2 & Ht2 & _).
    exists s1, (dispatch_to x s2), thx.
    split; [reflexivity |]. split; [reflexivity |].
    split; [exact (Hrun _ E2) |].
    cbn [dispatch_to current_thread threads interrupts_enabled]. rewrite Ht2.
    split; [reflexivity |]. split; [exact Hdead |]. split; [exact Hlive' |].
    split; [reflexivity |]. split; [exact Hthx |].
    split; [| discriminate].
    intros _. apply (ready_is_other_threads s2); [exact Hq2 | reflexivity |].
    reflexivity.
Qed.

(** Thread 1 returns from its thread function while the [next] fields hold
    values left from earlier rounds.  With threads 2 and 3 queued, thread 2
    runs and thread 3 stays queued.  With thread 2 alone in the queue and
    its [next] field still designating thread 1, thread 2 runs and the
    queue is left with the destroyed thread 1 as its head. *)
Lemma self_termination_witness :
  let s := mkSched {[ 1%nat := mkThread (Some 2%nat) None;
                      2%nat := mkThread (Some 3%nat) None;
                      3%nat := mkThread (Some 1%nat) None;
                      9%nat := mkThread None None ]}
                   (mkQueue (Some 2%nat) (Some 3%nat)) (Some 1%nat) 9 true true in
  let t := mkSched {[ 1%nat := mkThread (Some 2%nat) None;
                      2%nat := mkThread (Some 1%nat) None;
                      9%nat := mkThread None None ]}
                   (mkQueue (Some 2%nat) (Some 2%nat)) (Some 1%nat) 9 true true in
  (exists s1 s2,
      thread_shutdown s = Some (Some 1%nat, s1)
      /\ termination_thread_func s1 = Some s2
      /\ current_thread s2 = Some 2%nat
      /\ ready_is s2 [3%nat]
      /\ threads s2 !! 1%nat = None)
  /\ (exists t1 t2,
         thread_shutdown t = Some (Some 1%nat, t1)
         /\ termination_thread_func t1 = Some t2
         /\ current_thread t2 = Some 2%nat
         /\ threads t2 !! 1%nat = None
         /\ head (queue t2) = Some 1%nat
         /\ tail (queue t2) = Some 2%nat).
Proof.
  intros s t. split.
  - assert (Hq : ready_is s [2%nat; 3%nat]).
    { constructor; try reflexivity.
      - apply (bool_decide_unpack _). vm_compute. reflexivity.
      - intros i x Hi. destruct i as [| [| i]]; try discriminate;
          injection Hi as <-; eexists; (split; [reflexivity |]);
          intros y Hy; try discriminate; injection Hy as <-; reflexivity. }
    destruct (self_termination s 1%nat 2%nat [3%nat]
                (mkThread (Some 2%nat) None) (mkThread None None) Hq eq_refl
                ltac:(apply (bool_decide_unpack _); vm_compute; reflexivity)
                eq_refl eq_refl ltac:(discriminate)
                ltac:(apply (bool_decide_unpack _); vm_compute; reflexivity))
      as (s1 & s2 & thx & E1 & _ & E2 & Hc & Hd & _ & _ & _ & Hr & _).
    exists s1, s2.
    exact (conj E1 (conj E2 (conj Hc (conj (Hr ltac:(discriminate)) Hd)))).
  - assert (Hq : ready_is t [2%nat]).
    { constructor; try reflexivity.
      - apply (bool_decide_unpack _). vm_compute. reflexivity.
      - intros i x Hi. destruct i as [| i]; try discriminate.
        injection Hi as <-. eexists. split; [reflexivity |].
        intros y Hy. discriminate. }
    destruct (self_termination t 1%nat 2%nat []
                (mkThread (Some 2%nat) None) (mkThread None None) Hq eq_refl
                ltac:(apply (bool_decide_unpack _); vm_compute; reflexivity)
                eq_refl eq_refl ltac:(discriminate)
                ltac:(apply (bool_decide_unpack _); vm_compute; reflexivity))
      as (t1 & t2 & thx & E1 & _ & E2 & Hc & Hd & _ & _ & Hthx & _ & Hs).
    assert (Ex : thx = mkThread (Some 1%nat) None).
    { vm_compute in Hthx. injection Hthx as <-. reflexivity. }
    subst thx. destruct (Hs eq_refl) as [Hh Ht].
    exists t1, t2.
    exact (conj E1 (conj E2 (conj Hc (conj Hd (conj Hh Ht))))).
Defined.

(** X29.  The last thread terminating itself: with an empty ready queue the
    [yield] of the termination thread returns, and the termination thread
    keeps running with its cargo still designating the TCB it has just
    destroyed.  The next round of its loop applies [delete] to that TCB
    again, for which the model has no result. *)
Theorem self_termination_empty_queue s c thc tt :
  queue_is s [] ->
  current_thread s = Some c -> threads s !! c = Some thc ->
  threads s !! termination_thread s = Some tt ->
  termination_thread s <> c ->
  exists s1 s2,
    thread_shutdown s = Some (Some c, s1)
    /\ termination_thread_func s1 = Some s2
    /\ current_thread s2 = Some (termination_thread s)
    /\ threads s2 !! c = None
    /\ cargo <$> threads s2 !! termination_thread s = Some (Some c)
    /\ interrupts_enabled s2 = true
    /\ termination_thread_func s2 = None.
Proof.
  intros Hq Hcur Hlive Htt Hne.
  rewrite (thread_shutdown_dispatches s c tt Hcur Htt).
  set (s1 := dispatch_to _ _).
  set (s' := mask (with_threads s1 (delete c (threads s1)))).
  assert (Hd : dequeue s' = Some (None, s')).
  { unfold dequeue, s', s1.
    cbn [mask with_interrupts with_threads queue dispatch_to].
    rewrite (qi_head _ _ Hq). reflexivity. }
  assert (E' : threads s1 !! termination_thread s = Some (SetCargo tt (Some c))).
  { unfold s1. cbn [dispatch_to threads with_threads]. apply lookup_insert_eq. }
  assert (E'' : threads s1 !! c = Some thc).
  { unfold s1. cbn [dispatch_to threads with_threads].
    rewrite lookup_insert_ne by exact Hne. exact Hlive. }
  exists s1, (unmask s').
  split; [reflexivity |]. split.
  { unfold termination_thread_func.
    assert (E : current_thread s1 = Some (termination_thread s)) by reflexivity.
    rewrite E. cbn [mbind option_bind]. rewrite E'.
    cbn [mbind option_bind SetCargo cargo]. unfold destroy. rewrite E''.
    cbn [mbind option_bind]. unfold yield. fold s'. rewrite Hd. reflexivity. }
  assert (Et : threads (unmask s') = delete c (threads s1)) by reflexivity.
  assert (Etc : threads (unmask s') !! termination_thread s
                = Some (SetCargo tt (Some c))).
  { rewrite Et. rewrite lookup_delete_ne by congruence. exact E'. }
  assert (Ec : threads (unmask s') !! c = None).
  { rewrite Et. apply lookup_delete_eq. }
  split; [reflexivity |]. split; [exact Ec |].
  split; [rewrite Etc; reflexivity |]. split; [reflexivity |].
  unfold termination_thread_func.
  assert (E : current_thread (unmask s') = Some (termination_thread s)) by reflexivity.
  rewrite E. cbn [mbind option_bind]. rewrite Etc.
  cbn [mbind option_bind SetCargo cargo]. unfold destroy. rewrite Ec. reflexivity.
Qed.

Lemma self_termination_empty_queue_witness :
  let tcb := mkThread None None in
  let s := mkSched {[ 3%nat := tcb; 9%nat := tcb ]}
                   (mkQueue None None) (Some 3%nat) 9 true true in
  exists s1 s2,
    thread_shutdown s = Some (Some 3%nat, s1)
    /\ termination_thread_func s1 = Some s2
    /\ termination_thread_func s2 = None.
Proof.
  intros tcb s.
  assert (Hq : queue_is s []).
  { constructor; try reflexivity; [constructor | intros i x Hi; discriminate]. }
  destruct (self_termination_empty_queue s 3%nat tcb tcb Hq eq_refl eq_refl eq_refl
              ltac:(discriminate))
    as (s1 & s2 & E1 & E2 & _ & _ & _ & _ & E3).
  exists s1, s2. exact (conj E1 (conj E2 E3)).
Defined.

End Termination.

Section Preemption.
Import Sched Kernel.

(** While the counter stays below the threshold, an interrupt only
    counts. *)
Lemma handle_interrupt_counts t s :
  running s = true -> ticks t + 1 < hz t ->
  handle_interrupt t s = Some (mkTimer (ticks t + 1) (hz t), s).
Proof.
  intros Hr H. unfold handle_interrupt. rewrite Hr. cbn [ticks hz].
  destruct (Z.geb_spec (ticks t + 1) (hz t)); [lia | reflexivity].
Qed.

(** Before the first dispatch the counter does not move. *)
Lemma interrupts_idle n :
  forall t s,
  running s = false -> ticks t < hz t ->
  interrupts n t s = Some (t, s).
Proof.
  induction n as [| n IH]; intros t s Hr H; [reflexivity |].
  cbn [interrupts]. unfold handle_interrupt. rewrite Hr.
  destruct (Z.geb_spec (ticks t) (hz t)); [lia |].
  cbn [mbind option_bind]. apply IH; assumption.
Qed.

Lemma interrupts_running n :
  forall t s,
  running s = true -> ticks t + Z.of_nat n + 1 = hz t ->
  interrupts n t s = Some (mkTimer (ticks t + Z.of_nat n) (hz t), s)
  /\ interrupts (S n) t s = (s' ← pass_on_CPU s; Some (mkTimer 0 (hz t), s')).
Proof.
  induction n as [| n IH]; intros t s Hr Hn.
  - split.
    + cbn [interrupts]. rewrite Z.add_0_r. destruct t; reflexivity.
    + cbn [interrupts]. unfold handle_interrupt, pass_on_CPU. rewrite Hr.
      cbn [ticks hz].
      destruct (Z.geb_spec (ticks t + 1) (hz t)); [| lia].
      destruct (resume _ _) as [s1 |]; [| reflexivity].
      cbn [mbind option_bind]. destruct (yield s1); reflexivity.
  - assert (Hstep := handle_interrupt_counts t s Hr ltac:(lia)).
    destruct (IH (mkTimer (ticks t + 1) (hz t)) s Hr) as [IH1 IH2];
      [cbn [ticks hz]; lia |].
    cbn [ticks hz] in IH1, IH2. split.
    + change (interrupts (S n) t s)
        with ('(t1, s1) ← handle_interrupt t s; interrupts n t1 s1).
      rewrite Hstep. cbn [mbind option_bind]. rewrite IH1.
      do 3 f_equal. lia.
    + change (interrupts (S (S n)) t s)
        with ('(t1, s1) ← handle_interrupt t s; interrupts (S n) t1 s1).
      rewrite Hstep. cbn [mbind option_bind]. rewrite IH2. reflexivity.
Qed.

(** X30.  The end-of-quantum timer.  Once the scheduler is running, the
    running thread keeps the CPU for the interrupts that bring the counter
    up to [hz - 1]: they change nothing but the counter.  The interrupt
    that brings it to [hz] resets the counter and preempts the thread
    exactly as [pass_on_CPU] does.  Before the first dispatch
    ([Scheduler::running] false) the counter does not move. *)
Theorem eoq_timer_quantum n t s :
  ticks t + Z.of_nat n + 1 = hz t ->
  interrupts n t s
  = Some (if running s then mkTimer (ticks t + Z.of_nat n) (hz t) else t, s)
  /\ interrupts (S n) t s
     = if running s
       then s' ← pass_on_CPU s; Some (mkTimer 0 (hz t), s')
       else Some (t, s).
Proof.
  intros Hn. destruct (running s) eqn:Hr.
  - exact (interrupts_running n t s Hr Hn).
  - split; apply interrupts_idle; (assumption || lia).
Qed.

Lemma eoq_timer_quantum_witness :
  let s := mkSched {[ 1%nat := mkThread None None; 2%nat := mkThread None None ]}
                   (mkQueue (Some 2%nat) (Some 2%nat)) (Some 1%nat) 9 true true in
  interrupts 4 (mkTimer 0 5) s = Some (mkTimer 4 5, s)
  /\ (fun r => current_thread (snd r)) <$> interrupts 5 (mkTimer 0 5) s
     = Some (Some 2%nat).
Proof.
  intros s.
  destruct (eoq_timer_quantum 4 (mkTimer 0 5) s ltac:(cbn; lia))
    as [E1 E2].
  split; [exact E1 |]. rewrite E2. reflexivity.
Defined.

End Preemption.
